(** * mlx-mkbfb: BlueField boot stream builder and reader

    A shallow embedding of [src/mlx-mkbfb.py] and the proofs of its
    specified properties.

    Modelling conventions.
    - Python integers are [Z]; [&], [|], [~], [<<], [>>] are [Z.land],
      [Z.lor], [Z.lnot], [Z.shiftl], [Z.shiftr] (two's complement on
      unbounded integers, as in Python).
    - [bytes] objects are [list byte].
    - [str] objects are [string]; a character is a code point below 256.
    - A binary file object opened for reading is the list of the bytes that
      remain to be read; [read n] splits it.
    - The file system is a function from file names to contents.
    - Exceptions are values of type [exn]; a computation that may raise
      returns a [result].
    - A [dict] is a [gmap]. *)

From Stdlib Require Import ZArith Lia List String Ascii Strings.Byte.
From Stdlib Require Import DecimalString HexadecimalString.
From stdpp Require Import gmap strings list fin_maps sorting.

Local Open Scope Z_scope.

(** ** Exceptions and results *)

Inductive exn : Type :=
| NoHdr                          (* class NoHdr *)
| BadHdr (msg : string)          (* class BadHdr *)
| Exception (msg : string)       (* raise Exception(...) *)
| KeyError_name (key : string)   (* image_table[key] *)
| KeyError_id (key : Z)          (* rev_image_table[key] *)
| ValueError                     (* int(...) on a non-decimal digit *)
| OSError (fn : string)          (* open(fn) on a missing file *)
| TypeError                      (* outfile.write(None) *)
| StructError                    (* struct.pack of an out-of-range word *)
| OutOfFuel.                     (* artefact of the model, never raised *)

Inductive result (A : Type) : Type :=
| Ok (a : A)
| Raise (e : exn).
Arguments Ok {A} a.
Arguments Raise {A} e.

(** [result] is a monad; [x ← r; k] runs [k] when [r] does not raise. *)
#[global] Instance result_ret : MRet result := λ A a, Ok a.
#[global] Instance result_bind : MBind result := λ A B k r,
  match r with
  | Ok a => k a
  | Raise e => Raise e
  end.

(** ** Bytes and little-endian words *)

Definition byte_to_Z (b : byte) : Z := Z.of_N (Byte.to_N b).

Definition byte_of_Z (z : Z) : byte :=
  match Byte.of_N (Z.to_N (z mod 256)) with
  | Some b => b
  | None => Byte.x00
  end.

(** [n] bytes of [w], least significant first. *)
Fixpoint le_bytes (n : nat) (w : Z) : list byte :=
  match n with
  | O => []
  | S n' => byte_of_Z w :: le_bytes n' (Z.shiftr w 8)
  end.

Fixpoint le_word (bs : list byte) : Z :=
  match bs with
  | [] => 0
  | b :: bs' => Z.lor (byte_to_Z b) (Z.shiftl (le_word bs') 8)
  end.

(** [struct.pack("<Q", w)]: fails unless [0 <= w < 2**64]. *)
Definition pack_Q (w : Z) : result (list byte) :=
  if (0 <=? w) && (w <? 2 ^ 64) then Ok (le_bytes 8 w) else Raise StructError.

(** [struct.pack("<QQQ", w0, w1, w2)]. *)
Definition pack_QQQ (w0 w1 w2 : Z) : result (list byte) :=
  b0 ← pack_Q w0; b1 ← pack_Q w1; b2 ← pack_Q w2; Ok (b0 ++ b1 ++ b2).

(** [struct.unpack("<QQQ", instr)] on a 24-byte string. *)
Definition unpack_QQQ (instr : list byte) : Z * Z * Z :=
  (le_word (take 8 instr),
   le_word (take 8 (drop 8 instr)),
   le_word (take 8 (drop 16 instr))).

(** [f.read(n)] on a binary file object: the bytes read and the rest. *)
Definition read (n : Z) (f : list byte) : list byte * list byte :=
  (take (Z.to_nat n) f, drop (Z.to_nat n) f).

(** ** Formatting: [%d], [%x], [%08x], [%10d] *)

Definition fmt_d (z : Z) : string :=
  DecimalString.NilZero.string_of_int (Z.to_int z).

Definition fmt_x (z : Z) : string :=
  match z with
  | Zneg p => String "-" (HexadecimalString.NilZero.string_of_uint (Pos.to_hex_uint p))
  | _ => HexadecimalString.NilZero.string_of_uint (N.to_hex_uint (Z.to_N z))
  end.

Fixpoint repeat_char (c : ascii) (n : nat) : string :=
  match n with
  | O => EmptyString
  | S n' => String c (repeat_char c n')
  end.

Definition pad_left (c : ascii) (width : nat) (s : string) : string :=
  repeat_char c (width - String.length s) +:+ s.

Definition fmt_08x (z : Z) : string := pad_left "0" 8 (fmt_x z).
Definition fmt_10d (z : Z) : string := pad_left " " 10 (fmt_d z).

(** ** The image type table *)

(** [image_list]: (command-line option, description, image ID for header).
    Order is significant. *)
Definition image_list : list (string * string * Z) :=
  [ ("psc-bl", "PSC bootloader image", 36);
    ("psc-fw", "PSC framework image", 37);
    ("bl2r-cert", "RIoT Core (BL2R) content certificate", 31);
    ("bl2r", "RIoT Core (BL2R) bin", 30);
    ("bl2-cert", "Trusted Boot Firmware BL2 certificate", 6);
    ("bl2", "Trusted Boot Firmware BL2 bin", 1);
    ("sys", "Running system's part number or PSID", 29);
    ("ddr-cert", "DDR Images Content Certificate", 38);
    ("ddr_ini", "File From Which Will Load DDR (pseudo spd) Parameters", 32);
    ("snps_images", "Combined SNPS Images for all DIMM types", 33);
    ("ddr_ate_imem", "Analog Test Engine INSTRUCTIONS", 34);
    ("ddr_ate_dmem", "Analog Test Engine DATA", 35);
    ("bl30-key-cert", "SCP Firmware BL3-0 key certificate", 8);
    ("bl30-cert", "SCP Firmware BL3-0 certificate", 12);
    ("bl30", "SCP Firmware BL3-0", 2);
    ("trusted-key-cert", "Trusted key certificate", 7);
    ("bl31-key-cert", "EL3 Runtime Firmware BL3-1 key certificate", 9);
    ("bl31-cert", "EL3 Runtime Firmware BL3-1 content certificate", 13);
    ("bl31", "EL3 Runtime Firmware BL3-1 bin", 3);
    ("psc-app", "PSC application image", 39);
    ("bl32-key-cert", "Secure Payload BL3-2 (Trusted OS) key certificate", 10);
    ("bl32-cert", "Secure Payload BL3-2 (Trusted OS) content certificate", 14);
    ("bl32", "Secure Payload BL3-2 (Trusted OS) bin", 4);
    ("bl33-key-cert", "Non-Trusted Firmware BL3-3 key certificate", 11);
    ("bl33-cert", "Non-Trusted Firmware BL3-3 content certificate", 15);
    ("bl33", "Non-Trusted Firmware BL3-3 bin", 5);
    ("capsule", "UEFI capsule image", 52);
    ("boot-acpi", "Name of the ACPI table", 55);
    ("boot-dtb", "Name of the dtb file", 56);
    ("boot-desc", "Default boot menu item description", 57);
    ("boot-path", "Boot image path", 58);
    ("boot-args", "Arguments for boot image", 59);
    ("boot-timeout", "Boot menu timeout", 60);
    ("uefi-tests", "Specify what UEFI tests to run", 61);
    ("ramdisk", "RAM Disk image", 54);
    ("image", "Boot image", 62);
    ("initramfs", "In-memory filesystem", 63) ]%string.

(** [dict([...])]: a later pair with the same key replaces an earlier one. *)
Definition insert_pair `{Countable K} {V} (m : gmap K V) (kv : K * V)
  : gmap K V :=
  <[kv.1 := kv.2]> m.

Definition dict_of_pairs `{Countable K} {V} (l : list (K * V)) : gmap K V :=
  foldl insert_pair ∅ l.

(** [image_table]: command-line option to (description, image ID). *)
Definition image_table : gmap string (string * Z) :=
  dict_of_pairs (map (λ '(x, y, z), (x, (y, z))) image_list).

(** [rev_image_table]: image ID to (command-line option, description). *)
Definition rev_image_table : gmap Z (string * string) :=
  dict_of_pairs (map (λ '(x, y, z), (z, (x, y))) image_list).

Definition MAX_VER : Z := 2.
Definition MAJOR_VER : Z := 1.
Definition MINOR_VER : Z := 2.

(** ** Padding and CRC *)

Definition num_padding_bytes (length : Z) : Z :=
  Z.land (length + 7) (Z.lnot 7) - length.

(** One bit of the reflected CRC-32 (polynomial 0xEDB88320). *)
Definition crc32_shift (c : Z) : Z :=
  if Z.testbit c 0 then Z.lxor (Z.shiftr c 1) 0xEDB88320 else Z.shiftr c 1.

Definition crc32_byte (c : Z) (b : byte) : Z :=
  Nat.iter 8 crc32_shift (Z.lxor c (byte_to_Z b)).

(** [binascii.crc32(data, value)], the CRC-32 of zlib: [value] is the CRC of
    the bytes that precede [data]; the result is an unsigned 32-bit number. *)
Definition crc32 (data : list byte) (value : Z) : Z :=
  Z.lxor (foldl crc32_byte (Z.lxor (Z.land value 0xFFFFFFFF) 0xFFFFFFFF) data)
         0xFFFFFFFF.

(** ** class ImageHdr *)

Record ImageHdr : Type := mkImageHdr {
  major : Z;
  minor : Z;
  image_id : Z;
  next_img_ver : Z;
  cur_img_ver : Z;
  image_len : Z;
  image_crc : Z;
  following_images : Z
}.

Definition ImageHdr_magic : Z := 0x13026642.
Definition ImageHdr_default_major : Z := MAJOR_VER.
Definition ImageHdr_default_minor : Z := MINOR_VER.
Definition ImageHdr_length : Z := 24.

(** [ImageHdr()] with the keyword arguments that the program passes. *)
Definition ImageHdr_init (image_id image_len image_crc cur_img_ver : Z) : ImageHdr :=
  {| major := ImageHdr_default_major; minor := ImageHdr_default_minor;
     image_id := image_id; next_img_ver := 0; cur_img_ver := cur_img_ver;
     image_len := image_len; image_crc := image_crc; following_images := 0 |}.

Definition ImageHdr_w0 (h : ImageHdr) : Z :=
  Z.lor (Z.lor (Z.lor (Z.lor (Z.lor (Z.lor
    (Z.shiftl (Z.land ImageHdr_magic 0xFFFFFFFF) 0)
    (Z.shiftl (Z.land (major h) 0xF) 32))
    (Z.shiftl (Z.land (minor h) 0xF) 36))
    (Z.shiftl (Z.land (next_img_ver h) 0xF) 44))
    (Z.shiftl (Z.land (cur_img_ver h) 0xF) 48))
    (Z.shiftl (Z.land (ImageHdr_length / 8) 0xF) 52))
    (Z.shiftl (Z.land (image_id h) 0xFF) 56).

Definition ImageHdr_w1 (h : ImageHdr) : Z :=
  Z.lor (Z.shiftl (Z.land (image_len h) 0xFFFFFFFF) 0)
        (Z.shiftl (Z.land (image_crc h) 0xFFFFFFFF) 32).

(** [ImageHdr.get_bits]. *)
Definition ImageHdr_get_bits (h : ImageHdr) : result (list byte) :=
  pack_QQQ (ImageHdr_w0 h) (ImageHdr_w1 h) (following_images h).

(** [ImageHdr.__set_from_file]: the header parsed at the current position
    of [infile], and the file after the header.  When an exception is
    raised the file is not read again by any caller. *)
Definition ImageHdr_set_from_file (infile : list byte)
  : result (ImageHdr * list byte) :=
  let '(instr, infile) := read ImageHdr_length infile in
  if bool_decide (instr = []) then Raise NoHdr
  else if Z.of_nat (length instr) <? ImageHdr_length
  then Raise (BadHdr "ImageHdr too short")
  else
    let '(w0, w1, w2) := unpack_QQQ instr in
    let magic := Z.land w0 0xFFFFFFFF in
    let major := Z.land (Z.shiftr w0 32) 0xF in
    let minor := Z.land (Z.shiftr w0 36) 0xF in
    let length := Z.land (Z.shiftr w0 52) 0xF in
    let image_id := Z.land (Z.shiftr w0 56) 0xFF in
    let image_len := Z.land w1 0xFFFFFFFF in
    let image_crc := Z.land (Z.shiftr w1 32) 0xFFFFFFFF in
    let following_images := w2 in
    let next_img_ver := if minor <=? 2 then Z.land (Z.shiftr w0 44) 0xF else 0 in
    let cur_img_ver := if minor <=? 2 then Z.land (Z.shiftr w0 48) 0xF else 0 in
    if negb (magic =? ImageHdr_magic)
    then Raise (BadHdr ("Bad ImageHdr magic number 0x" +:+ fmt_x magic))
    else if negb (major =? ImageHdr_default_major)
    then Raise (BadHdr ("Bad ImageHdr major version " +:+ fmt_d major))
    else if ImageHdr_default_minor <? minor
    then Raise (BadHdr ("Bad ImageHdr minor version " +:+ fmt_d major))
    else if negb (length =? ImageHdr_length / 8)
    then Raise (BadHdr ("Bad ImageHdr header length " +:+ fmt_d length))
    else Ok (mkImageHdr major minor image_id next_img_ver cur_img_ver
                        image_len image_crc following_images, infile).

(** [ImageHdr.dump]: the line printed. *)
Definition ImageHdr_dump (h : ImageHdr) : string :=
  let outtext :=
    "Ver: " +:+ fmt_d (major h) +:+ "." +:+ fmt_d (minor h) +:+
    " Len: " +:+ fmt_d ImageHdr_length +:+
    " ID: " +:+ fmt_d (image_id h) +:+
    " ImLen: " +:+ fmt_d (image_len h) +:+
    " ImCRC: 0x" +:+ fmt_x (image_crc h) +:+
    " FolIm: 0x" +:+ fmt_x (following_images h) in
  if 2 <=? minor h
  then outtext +:+ " NxImVr: " +:+ fmt_d (next_img_ver h) +:+
       " ImVr: " +:+ fmt_d (cur_img_ver h)
  else outtext.

(** ** Strings *)

(** [str.rsplit(sep, 1)] on a string that contains [sep]: the parts before
    and after the last [sep]; [None] when [sep] does not occur. *)
Fixpoint rsplit1 (sep : ascii) (s : string) : option (string * string) :=
  match s with
  | EmptyString => None
  | String a s' =>
      match rsplit1 sep s' with
      | Some (l, r) => Some (String a l, r)
      | None => if Ascii.eqb a sep then Some (EmptyString, s') else None
      end
  end.

Definition code_point (a : ascii) : Z := Z.of_N (N_of_ascii a).

Definition is_decimal (a : ascii) : bool :=
  (48 <=? code_point a) && (code_point a <=? 57).

(** [str.isdigit] on one character: the decimal digits and, below 256, the
    superscripts U+00B2, U+00B3 and U+00B9. *)
Definition char_isdigit (a : ascii) : bool :=
  is_decimal a ||
  (code_point a =? 0xB2) || (code_point a =? 0xB3) || (code_point a =? 0xB9).

Fixpoint string_forall (p : ascii → bool) (s : string) : bool :=
  match s with
  | EmptyString => true
  | String a s' => p a && string_forall p s'
  end.

(** [s.isdigit()]: false on the empty string. *)
Definition isdigit (s : string) : bool :=
  match s with
  | EmptyString => false
  | _ => string_forall char_isdigit s
  end.

Fixpoint int_digits (acc : Z) (s : string) : Z :=
  match s with
  | EmptyString => acc
  | String a s' => int_digits (10 * acc + (code_point a - 48)) s'
  end.

(** [int(s)] on a string that satisfies [isdigit]: the superscript digits
    are refused with [ValueError].  (The limit that recent versions of
    Python put on the number of digits is left out.) *)
Definition int (s : string) : result Z :=
  if string_forall is_decimal s then Ok (int_digits 0 s) else Raise ValueError.

(** [bytes(s, 'utf-8')] for code points below 256. *)
Fixpoint utf8 (s : string) : list byte :=
  match s with
  | EmptyString => []
  | String a s' =>
      let c := code_point a in
      if c <? 128 then byte_of_Z c :: utf8 s'
      else byte_of_Z (Z.lor 0xC0 (Z.shiftr c 6))
           :: byte_of_Z (Z.lor 0x80 (Z.land c 0x3F)) :: utf8 s'
  end.

(** ** class Image *)

(** [bits] is [None] only in the image that [Image()] builds without a
    stream and without a file name. *)
Record Image : Type := mkImage {
  header : ImageHdr;
  bits : option (list byte)
}.

Definition get_image_id (img : Image) : Z := image_id (header img).
Definition get_image_ver (img : Image) : Z := cur_img_ver (header img).
Definition get_image_length (img : Image) : Z := image_len (header img).

Definition get_padding (img : Image) : list byte :=
  replicate (Z.to_nat (num_padding_bytes (get_image_length img))) x00.

Definition hdr_set_next_img_ver (v : Z) (h : ImageHdr) : ImageHdr :=
  mkImageHdr (major h) (minor h) (image_id h) v (cur_img_ver h)
             (image_len h) (image_crc h) (following_images h).

Definition hdr_set_following_images (m : Z) (h : ImageHdr) : ImageHdr :=
  mkImageHdr (major h) (minor h) (image_id h) (next_img_ver h) (cur_img_ver h)
             (image_len h) (image_crc h) m.

Definition hdr_set_minor (v : Z) (h : ImageHdr) : ImageHdr :=
  mkImageHdr (major h) v (image_id h) (next_img_ver h) (cur_img_ver h)
             (image_len h) (image_crc h) (following_images h).

Definition set_next_image_ver (img : Image) (v : Z) : Image :=
  mkImage (hdr_set_next_img_ver v (header img)) (bits img).

Definition set_following_images (img : Image) (m : Z) : Image :=
  mkImage (hdr_set_following_images m (header img)) (bits img).

Definition set_header_minor (img : Image) (v : Z) : Image :=
  mkImage (hdr_set_minor v (header img)) (bits img).

(** [Image.write]: the three writes append to [outfile] in turn; a write
    that raises leaves what was written before it. *)
Definition Image_write (img : Image) (outfile : list byte)
  : result unit * list byte :=
  match ImageHdr_get_bits (header img) with
  | Raise e => (Raise e, outfile)
  | Ok hb =>
      let outfile := outfile ++ hb in
      match bits img with
      | None => (Raise TypeError, outfile)
      | Some b => (Ok (), outfile ++ b ++ get_padding img)
      end
  end.

(** [Image.__set_from_stream]: the image and the stream after it. *)
Definition Image_set_from_stream (instream : list byte)
  : result (Image * list byte) :=
  '(header, instream) ← ImageHdr_set_from_file instream;
  let length := image_len header in
  let '(bits, instream) := read length instream in
  if negb (Z.of_nat (List.length bits) =? length)
  then Raise (Exception ("Image ID " +:+ fmt_d (image_id header) +:+
                         ": stream corrupted, image too short"))
  else
    let crc := crc32 bits 0 in
    let '(padding, instream) := read (num_padding_bytes length) instream in
    let crc := crc32 padding crc in
    let crc := Z.land crc 0xFFFFFFFF in
    if negb (crc =? image_crc header)
    then Raise (Exception ("Image ID " +:+ fmt_d (image_id header) +:+
                           ": header CRC of 0x" +:+ fmt_08x (image_crc header) +:+
                           " does not match calculated CRC of 0x" +:+ fmt_08x crc))
    else Ok (mkImage header (Some bits), instream).

(** The payload of a source: the text after ["="], or the whole file. *)
Definition load_source (fs : string → option (list byte)) (infile : string)
  : result (list byte) :=
  match infile with
  | String "=" text => Ok (utf8 text)
  | _ => match fs infile with
         | Some data => Ok data
         | None => Raise (OSError infile)
         end
  end.

(** The ['-vN'] suffix of [idstr]: the name and version the header is
    built from. *)
Definition split_idstr (idstr : string) : result (string * Z) :=
  match rsplit1 "-" idstr with
  | Some (img, String "v" digits) =>
      if isdigit digits then
        if bool_decide (is_Some (image_table !! img))
        then img_ver ← int digits; Ok (img, img_ver)
        else Ok (idstr, 0)
      else Ok (idstr, 0)
  | _ => Ok (idstr, 0)
  end.

(** [Image.__set_from_file]. *)
Definition Image_set_from_file (fs : string → option (list byte))
    (infile idstr : string) : result Image :=
  bits ← load_source fs infile;
  let length := Z.of_nat (List.length bits) in
  let crc := crc32 bits 0 in
  let crc := crc32 (replicate (Z.to_nat (num_padding_bytes length)) x00) crc in
  let crc := Z.land crc 0xFFFFFFFF in
  '(idstr, img_ver) ← split_idstr idstr;
  match image_table !! idstr with
  | None => Raise (KeyError_name idstr)
  | Some (_, id) =>
      Ok (mkImage (ImageHdr_init id length crc img_ver) (Some bits))
  end.

(** [Image(instream=f)]: a file object is always true. *)
Definition Image_of_stream (instream : list byte) : result (Image * list byte) :=
  Image_set_from_stream instream.

(** [Image(infile=fn, idstr=idver)]: an empty file name is false, and the
    image is then built with a default header and no data. *)
Definition Image_of_file (fs : string → option (list byte))
    (infile idstr : string) : result Image :=
  if bool_decide (infile = EmptyString)
  then Ok (mkImage (ImageHdr_init 0 0 0 0) None)
  else Image_set_from_file fs infile idstr.

(** ** make_stream *)

(** [images[id][ver] = img], after [images[id] = {}] when [id] is new. *)
Definition store_image (images : gmap string (gmap Z Image))
    (id : string) (img : Image) : gmap string (gmap Z Image) :=
  let images :=
    if bool_decide (is_Some (images !! id)) then images else <[id := ∅]> images in
  <[id := <[get_image_ver img := img]> (default ∅ (images !! id))]> images.

(** The [while True] loop over one input file.  Every image read shortens
    the file, so [S (length infile)] turns of the loop are enough: see
    [read_infile_fuel]. *)
Fixpoint read_infile (fuel : nat) (infile : list byte)
    (infile_images : gmap string (gmap Z Image)) (fim_map : Z)
  : result (gmap string (gmap Z Image) * Z) :=
  match fuel with
  | O => Raise OutOfFuel
  | S fuel =>
      match Image_of_stream infile with
      | Raise NoHdr => Ok (infile_images, fim_map)
      | Raise e => Raise e
      | Ok (img, infile) =>
          match rev_image_table !! get_image_id img with
          | None => Raise (KeyError_id (get_image_id img))
          | Some (id, _) =>
              read_infile fuel infile (store_image infile_images id img)
                          (Z.lor fim_map (Z.shiftl 1 (get_image_id img)))
          end
      end
  end.

(** [for infn in infnt]. *)
Fixpoint read_infiles (fs : string → option (list byte)) (infnt : list string)
    (infile_images : gmap string (gmap Z Image)) (fim_map : Z)
  : result (gmap string (gmap Z Image) * Z) :=
  match infnt with
  | [] => Ok (infile_images, fim_map)
  | infn :: infnt =>
      match fs infn with
      | None => Raise (OSError infn)
      | Some infile =>
          '(infile_images, fim_map) ←
            read_infile (S (length infile)) infile infile_images fim_map;
          read_infiles fs infnt infile_images fim_map
      end
  end.

(** [for (idver, fn) in image_tuples]. *)
Fixpoint read_cmdline (fs : string → option (list byte))
    (image_tuples : list (string * string))
    (cmdline_images : gmap string (gmap Z Image))
    (cmdline_image_order : list string) (fim_map : Z)
  : result (gmap string (gmap Z Image) * list string * Z) :=
  match image_tuples with
  | [] => Ok (cmdline_images, cmdline_image_order, fim_map)
  | (idver, fn) :: image_tuples =>
      img ← Image_of_file fs fn idver;
      match rev_image_table !! get_image_id img with
      | None => Raise (KeyError_id (get_image_id img))
      | Some (id, _) =>
          read_cmdline fs image_tuples (store_image cmdline_images id img)
            (if bool_decide (id ∈ cmdline_image_order)
             then cmdline_image_order else cmdline_image_order ++ [id])
            (Z.lor fim_map (Z.shiftl 1 (get_image_id img)))
      end
  end.

(** The output file: its bytes, and the images whose [write] completed, in
    the state they were written in. *)
Record output : Type := mkOutput {
  outfile : list byte;
  written : list Image
}.

Definition write (img : Image) (out : output) : result unit * output :=
  match Image_write img (outfile out) with
  | (Ok _, bytes) => (Ok (), mkOutput bytes (written out ++ [img]))
  | (Raise e, bytes) => (Raise e, mkOutput bytes (written out))
  end.

(** [images.update(infile_images[i]); images.update(cmdline_images[i])]. *)
Definition merged_images (infile_images cmdline_images : gmap string (gmap Z Image))
    (i : string) : gmap Z Image :=
  let images : gmap Z Image := ∅ in
  let images := match infile_images !! i with Some d => d ∪ images | None => images end in
  let images := match cmdline_images !! i with Some d => d ∪ images | None => images end in
  images.

(** [[images[x] for x in sorted(images.keys())]]. *)
Definition sorted_images (images : gmap Z Image) : list Image :=
  omap (λ x, images !! x) (merge_sort Z.le (map fst (map_to_list images))).

(** [while len(images) > 0]: the versions of one type. *)
Fixpoint emit_images (images : list Image) (fim_map : Z) (out : output)
  : result Z * output :=
  match images with
  | [] => (Ok fim_map, out)
  | img :: images =>
      let '(fim_map, img) :=
        match images with
        | [] => (Z.land fim_map (Z.lnot (Z.shiftl 1 (get_image_id img))),
                 set_next_image_ver img 0)
        | next :: _ => (fim_map, set_next_image_ver img (get_image_ver next))
        end in
      let img := set_following_images img fim_map in
      let img := set_header_minor img MAJOR_VER in
      let img := set_header_minor img MINOR_VER in
      match write img out with
      | (Ok _, out) => emit_images images fim_map out
      | (Raise e, out) => (Raise e, out)
      end
  end.

(** [for i in image_order]. *)
Fixpoint emit_types (image_order : list string)
    (infile_images cmdline_images : gmap string (gmap Z Image))
    (fim_map : Z) (out : output) : result Z * output :=
  match image_order with
  | [] => (Ok fim_map, out)
  | i :: image_order =>
      let images := merged_images infile_images cmdline_images i in
      if bool_decide (size images = 0%nat)
      then emit_types image_order infile_images cmdline_images fim_map out
      else
        match emit_images (sorted_images images) fim_map out with
        | (Ok fim_map, out) =>
            emit_types image_order infile_images cmdline_images fim_map out
        | (Raise e, out) => (Raise e, out)
        end
  end.

Definition image_order_of (expert : bool) (cmdline_image_order : list string)
  : list string :=
  if expert then cmdline_image_order else map (λ x, x.1.1) image_list.

(** [make_stream(infnt, outfn, image_tuples, expert)].  The second component
    is the file [outfn]: [None] when it was never opened. *)
Definition make_stream (fs : string → option (list byte)) (infnt : list string)
    (image_tuples : list (string * string)) (expert : bool)
  : result unit * option output :=
  match read_infiles fs infnt ∅ 0 with
  | Raise e => (Raise e, None)
  | Ok (infile_images, fim_map) =>
      match read_cmdline fs image_tuples ∅ [] fim_map with
      | Raise e => (Raise e, None)
      | Ok (cmdline_images, cmdline_image_order, fim_map) =>
          let image_order := image_order_of expert cmdline_image_order in
          match emit_types image_order infile_images cmdline_images fim_map
                           (mkOutput [] []) with
          | (Ok _, out) => (Ok (), Some out)
          | (Raise e, out) => (Raise e, Some out)
          end
      end
  end.

(** ** dump_stream *)

(** What [dump_stream] prints and the files it writes, in order. *)
Record dumped : Type := mkDumped {
  stdout : list string;
  files : list (string * list byte)
}.

(** The file name suffix and the description of an image. *)
Definition dump_names (img : Image) : string * string :=
  let id := get_image_id img in
  let '(fn, desc) :=
    match rev_image_table !! id with
    | Some (name, desc) => (name, desc)
    | None => ("image_id_" +:+ fmt_d id, "Unknown image type, ID " +:+ fmt_d id)
    end in
  if 2 <=? minor (header img)
  then (fn +:+ "-v" +:+ fmt_d (get_image_ver img),
        desc +:+ " (version " +:+ fmt_d (get_image_ver img) +:+ ")")
  else (fn, desc).

(** The body of the loop of [dump_stream] for one image. *)
Definition dump_image (verbose do_dump do_extract : bool) (prefix : string)
    (img : Image) (w : dumped) : result unit * dumped :=
  let '(fn, desc) := dump_names img in
  let w :=
    if do_dump then
      mkDumped
        (stdout w ++ [if verbose then ImageHdr_dump (header img)
                      else fmt_10d (get_image_length img) +:+ " " +:+ desc])
        (files w)
    else w in
  if do_extract then
    match bits img with
    | Some b => (Ok (), mkDumped (stdout w) (files w ++ [(prefix +:+ fn, b)]))
    | None => (Raise TypeError, mkDumped (stdout w) (files w ++ [(prefix +:+ fn, [])]))
    end
  else (Ok (), w).

Fixpoint dump_loop (fuel : nat) (inf : list byte)
    (verbose do_dump do_extract : bool) (prefix : string) (w : dumped)
  : result unit * dumped :=
  match fuel with
  | O => (Raise OutOfFuel, w)
  | S fuel =>
      match Image_of_stream inf with
      | Raise NoHdr => (Ok (), w)
      | Raise e => (Raise e, w)
      | Ok (img, inf) =>
          match dump_image verbose do_dump do_extract prefix img w with
          | (Ok _, w) => dump_loop fuel inf verbose do_dump do_extract prefix w
          | (Raise e, w) => (Raise e, w)
          end
      end
  end.

(** [dump_stream(infn, do_dump, do_extract, prefix)], with the global
    [verbose] as a parameter. *)
Definition dump_stream (fs : string → option (list byte)) (verbose : bool)
    (infn : string) (do_dump do_extract : bool) (prefix : string)
  : result unit * dumped :=
  match fs infn with
  | None => (Raise (OSError infn), mkDumped [] [])
  | Some inf =>
      dump_loop (S (length inf)) inf verbose do_dump do_extract prefix
                (mkDumped [] [])
  end.

(** * Vocabulary of the statements *)

(** ** Streams as sequences of images *)

(** [stream_prefix s imgs rest]: reading [s] image by image yields [imgs]
    and leaves [rest]. *)
Inductive stream_prefix : list byte → list Image → list byte → Prop :=
| stream_prefix_nil s : stream_prefix s [] s
| stream_prefix_cons s img s' imgs rest :
    Image_set_from_stream s = Ok (img, s') →
    stream_prefix s' imgs rest →
    stream_prefix s (img :: imgs) rest.

(** [img] was read from one of the input files. *)
Definition from_stream (fs : string → option (list byte)) (infnt : list string)
    (img : Image) : Prop :=
  ∃ infn data imgs rest,
    infn ∈ infnt ∧ fs infn = Some data ∧ stream_prefix data imgs rest ∧
    img ∈ imgs.

(** [img] was built from one of the sources of the command line. *)
Definition from_source (fs : string → option (list byte))
    (image_tuples : list (string * string)) (img : Image) : Prop :=
  ∃ idver fn, (idver, fn) ∈ image_tuples ∧ Image_of_file fs fn idver = Ok img.

(** [img] is filed under [name] in [images]. *)
Definition filed (images : gmap string (gmap Z Image)) (name : string)
    (ver : Z) (img : Image) : Prop :=
  ∃ m, images !! name = Some m ∧ m !! ver = Some img.

(** The type name of an image ID, as [make_stream] resolves it. *)
Definition type_of (img : Image) (name : string) : Prop :=
  ∃ desc, rev_image_table !! get_image_id img = Some (name, desc).

(** ** Version chains *)

(** The versions of a map, ascending: [sorted(images.keys())]. *)
Definition sorted_versions (images : gmap Z Image) : list Z :=
  merge_sort Z.le (map fst (map_to_list images)).

(** The [next_img_ver] fields of a chain of versions: each the next
    version, the last 0. *)
Definition next_versions (vs : list Z) : list Z :=
  match vs with
  | [] => []
  | _ :: vs' => vs' ++ [0]
  end.

(** ** The order of types *)

(** The distinct elements of a list, in the order of their first
    occurrence. *)
Fixpoint first_occurrences (l : list string) : list string :=
  match l with
  | [] => []
  | x :: l' => x :: filter (λ y, y ≠ x) (first_occurrences l')
  end.

(** The type name that a command-line option names: the option without
    its ['-vN'] suffix, [N] a non-empty string of digits. *)
Definition strip_version (idstr : string) : string :=
  match rsplit1 "-" idstr with
  | Some (name, String "v" digits) => if isdigit digits then name else idstr
  | _ => idstr
  end.

(** ** The bitmap of image types *)

(** The bitmap with a bit for the image ID of each image of [imgs]. *)
Definition bitmap_of (imgs : list Image) : Z :=
  foldr (λ img acc, Z.lor (Z.shiftl 1 (get_image_id img)) acc) 0 imgs.



(** The fields of [h] fit their declared bit widths. *)
Definition fits_widths (h : ImageHdr) : Prop :=
  0 ≤ major h < 2 ^ 4 ∧ 0 ≤ minor h < 2 ^ 4 ∧
  0 ≤ next_img_ver h < 2 ^ 4 ∧ 0 ≤ cur_img_ver h < 2 ^ 4 ∧
  0 ≤ image_id h < 2 ^ 8 ∧
  0 ≤ image_len h < 2 ^ 32 ∧ 0 ≤ image_crc h < 2 ^ 32 ∧
  0 ≤ following_images h < 2 ^ 64.

Definition sample_hdr : ImageHdr :=
  mkImageHdr 1 2 62 1 0 0x12345678 0xCAFEBABE 0x4800000000000002.

(** The raw fields of the first header word of a stream, before any check. *)
Definition raw_w0 (s : list byte) : Z := le_word (take 8 s).
Definition raw_magic (s : list byte) : Z := Z.land (raw_w0 s) 0xFFFFFFFF.
Definition raw_major (s : list byte) : Z := Z.land (Z.shiftr (raw_w0 s) 32) 0xF.
Definition raw_minor (s : list byte) : Z := Z.land (Z.shiftr (raw_w0 s) 36) 0xF.
Definition raw_hdr_length (s : list byte) : Z :=
  Z.land (Z.shiftr (raw_w0 s) 52) 0xF.

(** One of the four header checks fails. *)
Definition bad_header_fields (s : list byte) : Prop :=
  raw_magic s ≠ 0x13026642 ∨ raw_major s ≠ 1 ∨ 2 < raw_minor s ∨
  raw_hdr_length s ≠ 3.

(** [id] is a numeric ID of the image type table; [name] is one of its
    command-line options. *)
Definition id_in_table (id : Z) : Prop :=
  ∃ name desc, (name, desc, id) ∈ image_list.
Definition name_in_table (name : string) : Prop :=
  ∃ desc id, (name, desc, id) ∈ image_list.

(** A well-formed 24-byte header (major 1, minor 2, header length 3) whose
    image ID, 200, is not in the table. *)
Definition unknown_id_header : list byte :=
  [x42; x66; x02; x13; x21; x00; x30; xc8] ++ replicate 16 x00.

(** The payload, the padding and the CRC that [Image.__set_from_stream]
    finds in the stream [s] behind a header [h]. *)
Definition stream_payload (h : ImageHdr) (s : list byte) : list byte :=
  take (Z.to_nat (image_len h)) (drop 24 s).
Definition stream_padding (h : ImageHdr) (s : list byte) : list byte :=
  take (Z.to_nat (num_padding_bytes (image_len h)))
       (drop (24 + Z.to_nat (image_len h)) s).
Definition stream_crc (h : ImageHdr) (s : list byte) : Z :=
  crc32 (stream_padding h s) (crc32 (stream_payload h s) 0).

(** The two messages of the stream-corrupt failure. *)
Definition too_short_msg (h : ImageHdr) : string :=
  "Image ID " +:+ fmt_d (image_id h) +:+ ": stream corrupted, image too short".
Definition crc_mismatch_msg (h : ImageHdr) (crc : Z) : string :=
  "Image ID " +:+ fmt_d (image_id h) +:+ ": header CRC of 0x" +:+
  fmt_08x (image_crc h) +:+ " does not match calculated CRC of 0x" +:+
  fmt_08x crc.

(** The header of a one-byte image ["A"] of type [bl2] whose CRC field is
    the CRC of the payload alone, and the 25-byte stream made of this
    header and the payload, with none of the seven padding bytes. *)
Definition unpadded_hdr : ImageHdr :=
  mkImageHdr 1 2 1 0 0 1 (crc32 [x41] 0) 0.
Definition unpadded_stream : list byte :=
  [x42; x66; x02; x13; x21; x00; x30; x01;
   x01; x00; x00; x00; x8b; x9e; xd9; xd3;
   x00; x00; x00; x00; x00; x00; x00; x00;
   x41].

(** A file system that holds [unpadded_stream] under the name ["in.bfb"]. *)
Definition unpadded_fs (fn : string) : option (list byte) :=
  if bool_decide (fn = "in.bfb"%string) then Some unpadded_stream else None.

(** ** The stamps of make_stream *)

(** What the body of the [while] loop of [make_stream] makes of [img]
    before writing it. *)
Definition stamp (img : Image) (next fim_map : Z) : Image :=
  set_header_minor
    (set_header_minor
       (set_following_images (set_next_image_ver img next) fim_map)
       MAJOR_VER)
    MINOR_VER.

(** The images of one type as the [while] loop writes them, and the bitmap
    it leaves. *)
Fixpoint stamp_images (images : list Image) (fim_map : Z) : list Image * Z :=
  match images with
  | [] => ([], fim_map)
  | img :: images =>
      match images with
      | [] =>
          let fim_map := Z.land fim_map (Z.lnot (Z.shiftl 1 (get_image_id img))) in
          ([stamp img 0 fim_map], fim_map)
      | next :: _ =>
          let '(rs, fim_map') := stamp_images images fim_map in
          (stamp img (get_image_ver next) fim_map :: rs, fim_map')
      end
  end.

(** The same for the images of all types, given type by type. *)
Fixpoint stamp_types (runs : list (list Image)) (fim_map : Z)
  : list (list Image) * Z :=
  match runs with
  | [] => ([], fim_map)
  | images :: runs =>
      let '(rs, fim_map) := stamp_images images fim_map in
      let '(rss, fim_map) := stamp_types runs fim_map in
      (rs :: rss, fim_map)
  end.

(** [r] is [r0] but for the three fields that [make_stream] sets. *)
Definition same_but_stamps (r r0 : Image) : Prop :=
  major (header r) = major (header r0) ∧
  image_id (header r) = image_id (header r0) ∧
  image_len (header r) = image_len (header r0) ∧
  image_crc (header r) = image_crc (header r0) ∧
  cur_img_ver (header r) = cur_img_ver (header r0) ∧
  bits r = bits r0.

(** ** The reading loops as folds *)

(** One turn of either reading loop of [make_stream]: file [x.2] under the
    type name [x.1] and set its bit. *)
Definition file_image (st : gmap string (gmap Z Image) * Z)
    (x : string * Image) : gmap string (gmap Z Image) * Z :=
  (store_image st.1 x.1 x.2, Z.lor st.2 (Z.shiftl 1 (get_image_id x.2))).

(** [if id not in cmdline_image_order: cmdline_image_order.append(id)]. *)
Definition note_order (order : list string) (id : string) : list string :=
  if bool_decide (id ∈ order) then order else order ++ [id].

(** Every dictionary entry holds at least one image. *)
Definition no_empty_entry (images : gmap string (gmap Z Image)) : Prop :=
  ∀ i m, images !! i = Some m → m ≠ ∅.

(** The images of each run have one image ID, a bit index, which no image
    of a later run has. *)
Fixpoint separate_types (runs : list (list Image)) : Prop :=
  match runs with
  | [] => True
  | run :: runs =>
      (∀ x y, x ∈ run → y ∈ run → get_image_id x = get_image_id y) ∧
      (∀ x y, x ∈ run → y ∈ concat runs → get_image_id x ≠ get_image_id y) ∧
      (∀ x, x ∈ run → 0 ≤ get_image_id x) ∧
      separate_types runs
  end.

(** [l] holds an image of image ID [n]. *)
Definition has_id (l : list Image) (n : Z) : Prop := n ∈ map get_image_id l.

(** ** Sample inputs *)

Definition no_files : string → option (list byte) := λ _, None.

(** A boot stream with [bl2] version 0 and [bl31] version 0, as make_stream
    writes it from two literal sources. *)
Definition old_stream : list byte :=
  match make_stream no_files [] [("bl31", "=old"); ("bl2", "=first")]%string false with
  | (_, Some out) => outfile out
  | _ => []
  end.

(** A file system that holds [old_stream] under the name ["old.bfb"]. *)
Definition old_fs (fn : string) : option (list byte) :=
  if bool_decide (fn = "old.bfb"%string) then Some old_stream else None.

(** The sources of the sample run: a new [bl31] version 0, a second
    version of [bl2], and boot arguments. *)
Definition new_tuples : list (string * string) :=
  [("bl31", "=new"); ("bl2-v1", "=second"); ("boot-args", "=console=ttyAMA0")]%string.

Definition sample_infile_images : gmap string (gmap Z Image) * Z :=
  match read_infiles old_fs ["old.bfb"%string] ∅ 0 with
  | Ok x => x
  | Raise _ => (∅, 0)
  end.

Definition sample_cmdline_images : gmap string (gmap Z Image) * list string * Z :=
  match read_cmdline old_fs new_tuples ∅ [] sample_infile_images.2 with
  | Ok x => x
  | Raise _ => (∅, [], 0)
  end.

Definition sample_output : output :=
  match make_stream old_fs ["old.bfb"%string] new_tuples false with
  | (_, Some out) => out
  | _ => mkOutput [] []
  end.

(** The images of a whole stream are of types of the table. *)
Definition known_stream (fs : string → option (list byte)) (fn : string) : Prop :=
  ∃ data imgs, fs fn = Some data ∧ stream_prefix data imgs [] ∧
               Forall (λ x, id_in_table (get_image_id x)) imgs.

Definition no_image : Image := mkImage (ImageHdr_init 0 0 0 0) None.

(** The first image that the sample run writes, and the images after it. *)
Definition sample_first : Image := hd no_image (written sample_output).
Definition sample_rest : list Image := tl (written sample_output).

(** The [bl31] version 0 of the input stream and of the sources. *)
Definition sample_old_bl31 : Image :=
  default no_image (sample_infile_images.1 !! "bl31"%string ≫= (λ m, m !! 0)).
Definition sample_new_bl31 : Image :=
  default no_image (sample_cmdline_images.1.1 !! "bl31"%string ≫= (λ m, m !! 0)).

(** The run of make_stream in expert mode on the input stream [old_stream]
    and one [bl31] source, and the image it writes. *)
Definition expert_output : output :=
  match make_stream old_fs ["old.bfb"%string] [("bl31", "=new")]%string true with
  | (_, Some out) => out
  | _ => mkOutput [] []
  end.
Definition expert_first : Image := hd no_image (written expert_output).


(** * The command line *)

(** [s.lstrip("-")]. *)
Fixpoint lstrip_dash (s : string) : string :=
  match s with
  | String "-" s' => lstrip_dash s'
  | _ => s
  end.

(** [parse_image_opt]: the callback of the image options; [images] is
    [parser.values.images]. *)
Definition parse_image_opt (images : list (string * string))
    (opt_str value : string) : list (string * string) :=
  images ++ [(lstrip_dash opt_str, value)].

(** The option strings that [main] registers in the group of image
    options: ["--" + fn] and ["--" + fn + "-v%d" % v] for [v] in
    [range(MAX_VER + 1)], for every [fn] of [image_table]. *)
Definition image_options : list string :=
  flat_map
    (λ x : string * string * Z,
       ("--" +:+ x.1.1)
       :: map (λ v, "--" +:+ x.1.1 +:+ ("-v" +:+ fmt_d v)) (seqZ 0 (MAX_VER + 1)))
    image_list.

(** What [parser.parse_args()] returns in [opt]; a flag that was not given
    is false. *)
Record options : Type := mkOptions {
  opt_d : bool;
  opt_x : bool;
  opt_p : string;
  opt_v : bool;
  opt_e : bool;
  opt_images : list (string * string)
}.

(** What [main] does after [parser.parse_args()]: [parser.error] (a message
    and exit status 2), the [IndexError] of [args[0]], or one of the two
    calls. *)
Inductive command : Type :=
| ParserError (msg : string)
| IndexError
| DumpStream (verbose : bool) (infn : string) (do_dump do_extract : bool)
             (prefix : string)
| MakeStream (infnt : list string) (outfn : string)
             (image_tuples : list (string * string)) (expert : bool).

Definition main_command (opt : options) (args : list string) : command :=
  if (opt_d opt || opt_x opt) && (1 <? length args)%nat
  then ParserError "no output file allowed with -d/-x"
  else if (3 <? length args)%nat
  then ParserError "only two input and one output file allowed"
  else if opt_d opt || opt_x opt then
    if opt_e opt then ParserError "-e not applicable with -d/-x"
    else if bool_decide (opt_images opt ≠ [])
    then ParserError "cannot specify images with -d/-x"
    else match args with
         | [] => IndexError
         | infn :: _ => DumpStream (opt_v opt) infn (opt_d opt) (opt_x opt) (opt_p opt)
         end
  else
    match args with
    | [] => ParserError "must specify a file"
    | [outfn] =>
        if bool_decide (opt_images opt = [])
        then ParserError
               "must specify input .bfb or at least one image option with output file"
        else MakeStream [] outfn (opt_images opt) (opt_e opt)
    | [infn; outfn] =>
        if opt_e opt then ParserError "input file not permitted with -e"
        else MakeStream [infn] outfn (opt_images opt) (opt_e opt)
    | infn :: infn2 :: outfn :: _ =>
        if opt_e opt then ParserError "input file not permitted with -e"
        else MakeStream [infn; infn2] outfn (opt_images opt) (opt_e opt)
    end.

(** * Vocabulary of the further statements *)

(** The bytes that [Image.write] appends to the output file. *)
Definition record_bytes (img : Image) : list byte := (Image_write img []).2.

(** The header of [img] describes its data: the length, and the CRC over
    the data and its padding of zero bytes. *)
Definition sealed (img : Image) : Prop :=
  ∃ b, bits img = Some b ∧
       image_len (header img) = Z.of_nat (length b) ∧
       image_crc (header img)
       = crc32 (replicate (Z.to_nat (num_padding_bytes (Z.of_nat (length b)))) x00)
               (crc32 b 0).

(** The line that [dump_stream] prints for an image. *)
Definition dump_line (verbose : bool) (img : Image) : string :=
  if verbose then ImageHdr_dump (header img)
  else fmt_10d (get_image_length img) +:+ " " +:+ (dump_names img).2.

(** What [dump_stream] has printed and written after the images [imgs]. *)
Definition dumped_images (verbose do_dump do_extract : bool) (prefix : string)
    (imgs : list Image) : dumped :=
  mkDumped
    (if do_dump then map (dump_line verbose) imgs else [])
    (if do_extract
     then map (λ img, (prefix +:+ (dump_names img).1, default [] (bits img))) imgs
     else []).


(** A header whose fields do not fit their widths. *)
Definition wide_hdr : ImageHdr :=
  mkImageHdr 17 18 (256 + 62) (16 + 1) (32 + 2) (2 ^ 32 + 5) (2 ^ 33 + 9) 7.

(** The image that [Image.__set_from_file] builds from the data of a
    source, an image ID and a version. *)
Definition source_image (id : Z) (data : list byte) (ver : Z) : Image :=
  let length := Z.of_nat (length data) in
  mkImage
    (ImageHdr_init id length
       (crc32 (replicate (Z.to_nat (num_padding_bytes length)) x00) (crc32 data 0))
       ver)
    (Some data).

(** The option string resolves to a name of the table and a version from 0
    to [MAX_VER]. *)
Definition option_resolves (opt_str : string) : bool :=
  match split_idstr (lstrip_dash opt_str) with
  | Ok (name, ver) =>
      bool_decide (is_Some (image_table !! name)) && (0 <=? ver) && (ver <=? MAX_VER)
  | Raise _ => false
  end.

(** The sources of a run without input stream, and its output. *)
Definition fresh_tuples : list (string * string) :=
  [("bl2-v1", "=second"); ("sys", "=PN12345"); ("bl2", "=first")]%string.
Definition fresh_output : output :=
  match make_stream no_files [] fresh_tuples false with
  | (_, Some out) => out
  | _ => mkOutput [] []
  end.

(** A file system that holds the output of the run without input stream
    under the name ["fresh.bfb"]. *)
Definition fresh_fs (fn : string) : option (list byte) :=
  if bool_decide (fn = "fresh.bfb"%string) then Some (outfile fresh_output)
  else None.

(** A stream of one good record followed by five stray bytes. *)
Definition stray_stream : list byte :=
  record_bytes (source_image 29 (utf8 "PN12345") 0) ++ [x01; x02; x03; x04; x05].


(** The type and version under which [make_stream] files an image. *)
Definition image_key (img : Image) : Z * Z := (get_image_id img, get_image_ver img).

(** Sources of one type and version given twice, and the output of the run
    over the old stream. *)
Definition twice_tuples : list (string * string) :=
  [("bl31-v0", "=early"); ("bl31", "=late"); ("bl2", "=boot")]%string.
Definition twice_output : output :=
  match make_stream old_fs ["old.bfb"%string] twice_tuples false with
  | (_, Some out) => out
  | _ => mkOutput [] []
  end.

(** * Proofs *)

(** ** Sanity checks of the formatting and CRC models *)

Example fmt_check :
  fmt_d 42 = "42"%string ∧ fmt_d (-7) = "-7"%string ∧ fmt_d 0 = "0"%string ∧
  fmt_x 255 = "ff"%string ∧ fmt_x 0 = "0"%string ∧
  fmt_08x 3735928559 = "deadbeef"%string ∧ fmt_08x 4660 = "00001234"%string ∧
  fmt_10d 12 = "        12"%string ∧ fmt_x 78187493530 = "123456789a"%string.
Proof. repeat split; reflexivity. Qed.

Example crc32_check :
  crc32 [x31; x32; x33; x34; x35; x36; x37; x38; x39] 0 = 0xCBF43926 ∧
  crc32 [x36; x37; x38; x39] (crc32 [x31; x32; x33; x34; x35] 0) = 0xCBF43926.
Proof. split; vm_compute; reflexivity. Qed.


(** ** Bit-level reasoning *)

Lemma byte_to_Z_range b : 0 ≤ byte_to_Z b < 256.
Proof.
  unfold byte_to_Z. pose proof (Byte.to_N_bounded b) as Hb.
  split; [apply N2Z.is_nonneg|]. lia.
Qed.

Lemma byte_to_of_Z z : byte_to_Z (byte_of_Z z) = z mod 256.
Proof.
  unfold byte_to_Z, byte_of_Z.
  assert (0 ≤ z mod 256 < 256) as Hz by (apply Z.mod_pos_bound; lia).
  destruct (Byte.of_N (Z.to_N (z mod 256))) as [b|] eqn:E.
  - apply Byte.to_of_N in E. rewrite E. lia.
  - apply Byte.of_N_None_iff in E. lia.
Qed.

Lemma byte_of_to_Z b : byte_of_Z (byte_to_Z b) = b.
Proof.
  unfold byte_of_Z. rewrite Z.mod_small by apply byte_to_Z_range.
  unfold byte_to_Z. rewrite N2Z.id, Byte.of_to_N. reflexivity.
Qed.

(** Split a goal on every integer comparison in it, keeping the branches
    that are arithmetically possible. *)
Ltac split_cmp :=
  repeat match goal with
  | |- context [?a <=? ?b] => destruct (Z.leb_spec a b); try lia
  | |- context [?a <? ?b] => destruct (Z.ltb_spec a b); try lia
  end.

(** Prove an equation between words bit by bit. *)
Ltac bit_rewrite :=
  repeat first
    [ rewrite Z.land_spec | rewrite Z.lor_spec
    | match goal with
      | |- context [Z.testbit (Z.shiftr ?a ?n) ?m] =>
          rewrite (Z.shiftr_spec a n m) by lia
      | |- context [Z.testbit (Z.shiftl ?a ?n) ?m] =>
          rewrite (Z.shiftl_spec a n m) by lia
      | |- context [Z.testbit (Z.ones ?n) ?m] =>
          rewrite (Z.testbit_ones n m) by lia
      | |- context [Z.testbit ?a ?m] =>
          rewrite (Z.testbit_neg_r a m) by lia
      end ].

Ltac bitwise :=
  apply Z.bits_inj'; intros i Hi;
  repeat (progress (bit_rewrite; split_cmp));
  rewrite ?andb_false_r, ?andb_true_r, ?orb_false_r, ?orb_false_l,
          ?Z.testbit_0_l;
  try reflexivity;
  try (f_equal; lia).

Lemma land_ones_small a n : 0 ≤ n → 0 ≤ a < 2 ^ n → Z.land a (Z.ones n) = a.
Proof. intros Hn Ha. rewrite Z.land_ones by lia. apply Z.mod_small. lia. Qed.

Lemma le_word_le_bytes n w :
  le_word (le_bytes n w) = Z.land w (Z.ones (8 * Z.of_nat n)).
Proof.
  revert w. induction n as [|n IH]; intros w.
  - simpl. rewrite Z.land_0_r. reflexivity.
  - cbn [le_bytes le_word]. rewrite IH, byte_to_of_Z.
    change 256 with (2 ^ 8). rewrite <- Z.land_ones by lia.
    bitwise.
Qed.

Lemma length_le_bytes n w : length (le_bytes n w) = n.
Proof. revert w. induction n; intros; simpl; auto. Qed.

Lemma pack_Q_inv w bs :
  pack_Q w = Ok bs → 0 ≤ w < 2 ^ 64 ∧ length bs = 8%nat ∧ le_word bs = w.
Proof.
  unfold pack_Q. intros H.
  destruct (Z.leb_spec 0 w), (Z.ltb_spec w (2 ^ 64)); cbn [andb] in H; try discriminate.
  assert (bs = le_bytes 8 w) as -> by congruence.
  split; [lia|]. split; [apply length_le_bytes|].
  rewrite le_word_le_bytes. apply land_ones_small; lia.
Qed.

Lemma pack_Q_ok w : 0 ≤ w < 2 ^ 64 → pack_Q w = Ok (le_bytes 8 w).
Proof.
  intros H. unfold pack_Q.
  destruct (Z.leb_spec 0 w), (Z.ltb_spec w (2 ^ 64)); cbn [andb]; try lia. reflexivity.
Qed.

(** [struct.unpack] inverts [struct.pack]. *)
Lemma unpack_pack_QQQ w0 w1 w2 bs :
  pack_QQQ w0 w1 w2 = Ok bs →
  length bs = 24%nat ∧ unpack_QQQ bs = (w0, w1, w2).
Proof.
  unfold pack_QQQ. intros H.
  destruct (pack_Q w0) as [b0|] eqn:E0; [|discriminate].
  destruct (pack_Q w1) as [b1|] eqn:E1; [|discriminate].
  destruct (pack_Q w2) as [b2|] eqn:E2; [|discriminate].
  cbn in H. injection H as <-.
  apply pack_Q_inv in E0 as (_ & L0 & <-).
  apply pack_Q_inv in E1 as (_ & L1 & <-).
  apply pack_Q_inv in E2 as (_ & L2 & <-).
  split; [rewrite !length_app; lia|].
  unfold unpack_QQQ.
  rewrite take_app_length' by done.
  rewrite drop_app_length' by done.
  rewrite take_app_length' by done.
  replace 16%nat with (length b0 + 8)%nat by lia.
  rewrite <- drop_drop, drop_app_length.
  rewrite drop_app_length' by done.
  rewrite take_ge by lia. reflexivity.
Qed.

(** The fields of the two packed words, read back with the shifts and
    masks of the decoder. *)
Ltac word_fields :=
  unfold ImageHdr_w0, ImageHdr_w1;
  generalize ImageHdr_magic (ImageHdr_length / 8); intros;
  change 0xFFFFFFFF with (Z.ones 32); change 0xF with (Z.ones 4);
  change 0xFF with (Z.ones 8); bitwise.

Section header_words.
Variable h : ImageHdr.

Lemma w0_magic : Z.land (ImageHdr_w0 h) 0xFFFFFFFF = ImageHdr_magic.
Proof.
  transitivity (Z.land ImageHdr_magic (Z.ones 32)); [|reflexivity]. word_fields.
Qed.

Lemma w0_major :
  Z.land (Z.shiftr (ImageHdr_w0 h) 32) 0xF = Z.land (major h) 0xF.
Proof. word_fields. Qed.

Lemma w0_minor :
  Z.land (Z.shiftr (ImageHdr_w0 h) 36) 0xF = Z.land (minor h) 0xF.
Proof. word_fields. Qed.

Lemma w0_next_img_ver :
  Z.land (Z.shiftr (ImageHdr_w0 h) 44) 0xF = Z.land (next_img_ver h) 0xF.
Proof. word_fields. Qed.

Lemma w0_cur_img_ver :
  Z.land (Z.shiftr (ImageHdr_w0 h) 48) 0xF = Z.land (cur_img_ver h) 0xF.
Proof. word_fields. Qed.

Lemma w0_length :
  Z.land (Z.shiftr (ImageHdr_w0 h) 52) 0xF = ImageHdr_length / 8.
Proof.
  transitivity (Z.land (ImageHdr_length / 8) (Z.ones 4)); [|reflexivity].
  word_fields.
Qed.

Lemma w0_image_id :
  Z.land (Z.shiftr (ImageHdr_w0 h) 56) 0xFF = Z.land (image_id h) 0xFF.
Proof. word_fields. Qed.

Lemma w1_image_len :
  Z.land (ImageHdr_w1 h) 0xFFFFFFFF = Z.land (image_len h) 0xFFFFFFFF.
Proof. word_fields. Qed.

Lemma w1_image_crc :
  Z.land (Z.shiftr (ImageHdr_w1 h) 32) 0xFFFFFFFF
  = Z.land (image_crc h) 0xFFFFFFFF.
Proof. word_fields. Qed.

Lemma w0_range : 0 ≤ ImageHdr_w0 h < 2 ^ 64.
Proof.
  assert (Z.land (ImageHdr_w0 h) (Z.ones 64) = ImageHdr_w0 h) as <-
    by word_fields.
  rewrite Z.land_ones by lia. apply Z.mod_pos_bound. lia.
Qed.

Lemma w1_range : 0 ≤ ImageHdr_w1 h < 2 ^ 64.
Proof.
  assert (Z.land (ImageHdr_w1 h) (Z.ones 64) = ImageHdr_w1 h) as <-
    by word_fields.
  rewrite Z.land_ones by lia. apply Z.mod_pos_bound. lia.
Qed.
End header_words.

(** [ImageHdr.get_bits] raises only on a [following_images] that does not
    fit 64 bits. *)
Lemma ImageHdr_get_bits_ok h :
  0 ≤ following_images h < 2 ^ 64 →
  ImageHdr_get_bits h
  = Ok (le_bytes 8 (ImageHdr_w0 h) ++ le_bytes 8 (ImageHdr_w1 h)
        ++ le_bytes 8 (following_images h)).
Proof.
  intros H. unfold ImageHdr_get_bits, pack_QQQ.
  rewrite (pack_Q_ok _ (w0_range h)), (pack_Q_ok _ (w1_range h)), (pack_Q_ok _ H).
  reflexivity.
Qed.

Lemma ImageHdr_get_bits_length h bs :
  ImageHdr_get_bits h = Ok bs → length bs = 24%nat.
Proof. intros H. apply unpack_pack_QQQ in H. tauto. Qed.

(** What the decoder makes of the 24 bytes of any header, whatever its
    fields: the masked fields, once the four checks pass. *)
Lemma ImageHdr_decode_encode h bs rest :
  ImageHdr_get_bits h = Ok bs →
  Z.land (major h) 0xF = 1 →
  Z.land (minor h) 0xF ≤ 2 →
  ImageHdr_set_from_file (bs ++ rest)
  = Ok (mkImageHdr (Z.land (major h) 0xF) (Z.land (minor h) 0xF)
          (Z.land (image_id h) 0xFF) (Z.land (next_img_ver h) 0xF)
          (Z.land (cur_img_ver h) 0xF) (Z.land (image_len h) 0xFFFFFFFF)
          (Z.land (image_crc h) 0xFFFFFFFF) (following_images h), rest).
Proof.
  intros Hbs Hmajor Hminor.
  destruct (unpack_pack_QQQ _ _ _ _ Hbs) as [Hlen Hun].
  unfold ImageHdr_set_from_file, read.
  replace (Z.to_nat ImageHdr_length) with (length bs) by (by rewrite Hlen).
  rewrite take_app_length, drop_app_length, Hun.
  rewrite bool_decide_eq_false_2 by (intros ->; discriminate).
  rewrite Hlen. change (Z.of_nat 24 <? ImageHdr_length) with false. cbv iota.
  rewrite w0_magic, w0_major, w0_minor, w0_length, w0_image_id,
    w0_next_img_ver, w0_cur_img_ver, w1_image_len, w1_image_crc.
  rewrite Z.eqb_refl, Hmajor. cbn [negb].
  change (1 =? ImageHdr_default_major) with true. cbn [negb].
  destruct (Z.ltb_spec ImageHdr_default_minor (Z.land (minor h) 15)) as [Hlt|_];
    [unfold ImageHdr_default_minor, MINOR_VER in Hlt; lia|].
  rewrite Z.eqb_refl. cbn [negb].
  destruct (Z.leb_spec (Z.land (minor h) 15) 2); [reflexivity|lia].
Qed.

(** C1. Header codec round trip: a header whose fields fit their declared
    bit widths and that the decoder accepts (major 1, minor at most 2) is
    encoded by [ImageHdr.get_bits] into 24 bytes, and decoding these bytes
    yields the same header, field by field, consuming exactly those bytes. *)
Theorem header_roundtrip (h : ImageHdr) :
  fits_widths h → major h = 1 → minor h ≤ 2 →
  ∃ bs, ImageHdr_get_bits h = Ok bs ∧ length bs = 24%nat ∧
        ∀ rest, ImageHdr_set_from_file (bs ++ rest) = Ok (h, rest).
Proof.
  intros (Hmaj & Hmin & Hnx & Hcu & Hid & Hlen & Hcrc & Hfol) Hmajor Hminor.
  destruct (ImageHdr_get_bits h) as [bs|] eqn:Hbs;
    [|rewrite ImageHdr_get_bits_ok in Hbs by done; discriminate].
  exists bs. split; [reflexivity|]. split; [by eapply ImageHdr_get_bits_length|].
  intros rest.
  assert (Z.land (major h) 0xF = major h) as E1 by (apply (land_ones_small _ 4); lia).
  assert (Z.land (minor h) 0xF = minor h) as E2 by (apply (land_ones_small _ 4); lia).
  assert (Z.land (image_id h) 0xFF = image_id h) as E3
    by (apply (land_ones_small _ 8); lia).
  assert (Z.land (next_img_ver h) 0xF = next_img_ver h) as E4
    by (apply (land_ones_small _ 4); lia).
  assert (Z.land (cur_img_ver h) 0xF = cur_img_ver h) as E5
    by (apply (land_ones_small _ 4); lia).
  assert (Z.land (image_len h) 0xFFFFFFFF = image_len h) as E6
    by (apply (land_ones_small _ 32); lia).
  assert (Z.land (image_crc h) 0xFFFFFFFF = image_crc h) as E7
    by (apply (land_ones_small _ 32); lia).
  rewrite (ImageHdr_decode_encode h bs rest Hbs) by lia.
  rewrite E1, E2, E3, E4, E5, E6, E7.
  destruct h; reflexivity.
Qed.

Lemma header_roundtrip_witness :
  ∃ bs, ImageHdr_get_bits sample_hdr = Ok bs ∧ length bs = 24%nat ∧
        ∀ rest, ImageHdr_set_from_file (bs ++ rest) = Ok (sample_hdr, rest).
Proof.
  apply (header_roundtrip sample_hdr).
  - unfold fits_widths; simpl; lia.
  - reflexivity.
  - simpl; lia.
Defined.

(** ** The header decoder *)

Lemma le_word_range bs : 0 ≤ le_word bs < 2 ^ (8 * Z.of_nat (length bs)).
Proof.
  induction bs as [|b bs IH]; [simpl; lia|].
  cbn [le_word length]. pose proof (byte_to_Z_range b) as Hb.
  assert (Z.land (byte_to_Z b) (Z.shiftl (le_word bs) 8) = 0) as Hdisj.
  { rewrite <- (land_ones_small (byte_to_Z b) 8) by lia. bitwise. }
  pose proof (Z.add_lor_land (byte_to_Z b) (Z.shiftl (le_word bs) 8)) as Hadd.
  rewrite Hdisj, Z.shiftl_mul_pow2 in Hadd by lia.
  replace (8 * Z.of_nat (S (length bs))) with (8 + 8 * Z.of_nat (length bs)) by lia.
  rewrite Z.pow_add_r, Z.shiftl_mul_pow2 by lia. change (2 ^ 8) with 256 in *. lia.
Qed.

Lemma land_ones_range a n : 0 ≤ n → 0 ≤ Z.land a (Z.ones n) < 2 ^ n.
Proof. intros. rewrite Z.land_ones by lia. apply Z.mod_pos_bound. lia. Qed.

(** The four outcomes of [ImageHdr.__set_from_file]. *)
Lemma ImageHdr_set_from_file_cases (s : list byte) :
  (s = [] ∧ ImageHdr_set_from_file s = Raise NoHdr) ∨
  ((0 < length s < 24)%nat ∧
   ImageHdr_set_from_file s = Raise (BadHdr "ImageHdr too short")) ∨
  ((24 ≤ length s)%nat ∧ bad_header_fields s ∧
   ∃ msg, ImageHdr_set_from_file s = Raise (BadHdr msg)) ∨
  ((24 ≤ length s)%nat ∧ ¬ bad_header_fields s ∧
   ∃ h, ImageHdr_set_from_file s = Ok (h, drop 24 s) ∧
        fits_widths h ∧ major h = 1 ∧ minor h ≤ 2).
Proof.
  unfold ImageHdr_set_from_file, read.
  change (Z.to_nat ImageHdr_length) with 24%nat.
  destruct s as [|b s]; [left; done|right].
  rewrite bool_decide_eq_false_2 by done.
  rewrite length_take.
  destruct (Z.ltb_spec (Z.of_nat (24 `min` length (b :: s))) ImageHdr_length)
    as [Hshort|Hlong]; unfold ImageHdr_length in *.
  { left. split; [cbn [length] in *; lia|done]. }
  right. assert (24 ≤ length (b :: s))%nat as Hlen by lia.
  unfold unpack_QQQ. rewrite take_take. change (8 `min` 24)%nat with 8%nat.
  unfold bad_header_fields, raw_magic, raw_major, raw_minor, raw_hdr_length, raw_w0.
  set (w0 := le_word (take 8 (b :: s))).
  set (w1 := le_word _). set (w2 := le_word _).
  unfold ImageHdr_magic, ImageHdr_default_major, ImageHdr_default_minor,
    MAJOR_VER, MINOR_VER.
  change (24 `div` 8) with 3.
  destruct (Z.eqb_spec (Z.land w0 4294967295) 0x13026642) as [Hmagic|Hmagic];
    cbn [negb]; [|left; eauto 10].
  destruct (Z.eqb_spec (Z.land (w0 ≫ 32) 15) 1) as [Hmajor|Hmajor];
    cbn [negb]; [|left; eauto 10].
  destruct (Z.ltb_spec 2 (Z.land (w0 ≫ 36) 15)) as [Hminor|Hminor];
    [left; eauto 10|].
  destruct (Z.eqb_spec (Z.land (w0 ≫ 52) 15) 3) as [Hl|Hl];
    cbn [negb]; [|left; eauto 10].
  right. split; [done|]. split; [lia|].
  eexists. split; [reflexivity|]. cbn [major minor].
  split; [|split; [done|lia]].
  destruct (Z.leb_spec (Z.land (w0 ≫ 36) 15) 2); [|lia].
  unfold fits_widths;
    cbn [major minor next_img_ver cur_img_ver image_id image_len image_crc
         following_images].
  pose proof (land_ones_range (w0 ≫ 32) 4 ltac:(lia)). pose proof (land_ones_range (w0 ≫ 36) 4 ltac:(lia)).
  pose proof (land_ones_range (w0 ≫ 44) 4 ltac:(lia)). pose proof (land_ones_range (w0 ≫ 48) 4 ltac:(lia)).
  pose proof (land_ones_range (w0 ≫ 56) 8 ltac:(lia)). pose proof (land_ones_range w1 32 ltac:(lia)).
  pose proof (land_ones_range (w1 ≫ 32) 32 ltac:(lia)).
  pose proof (le_word_range (take 8 (drop 16 (take 24 (b :: s))))) as Hw2.
  rewrite length_take, length_drop, length_take in Hw2.
  replace (8 `min` (24 `min` length (b :: s) - 16))%nat with 8%nat in Hw2 by lia.
  change (Z.ones 4) with 15 in *. change (Z.ones 8) with 255 in *.
  change (Z.ones 32) with 4294967295 in *. fold w2 in Hw2.
  change (8 * Z.of_nat 8) with 64 in Hw2.
  repeat split; lia.
Qed.

(** What an accepted header satisfies. *)
Lemma ImageHdr_set_from_file_Ok (s rest : list byte) (h : ImageHdr) :
  ImageHdr_set_from_file s = Ok (h, rest) →
  (24 ≤ length s)%nat ∧ rest = drop 24 s ∧
  fits_widths h ∧ major h = 1 ∧ minor h ≤ 2.
Proof.
  intros Hok.
  destruct (ImageHdr_set_from_file_cases s)
    as [[_ E]|[[_ E]|[(_ & _ & msg & E)|(Hlen & _ & h' & E & Hfits)]]];
    rewrite E in Hok; try discriminate.
  by injection Hok as <- <-.
Qed.

(** ** The image type table *)

Section dict_of_pairs.
Context `{Countable K} {V : Type}.
Implicit Types (l : list (K * V)) (m : gmap K V).

Lemma foldl_insert_notin l m k :
  k ∉ l.*1 → foldl insert_pair m l !! k = m !! k.
Proof.
  revert m. induction l as [|[k' v'] l IH]; intros m Hk; [done|].
  cbn in *. apply not_elem_of_cons in Hk as [Hne Hk].
  rewrite IH by done. unfold insert_pair. cbn. by rewrite lookup_insert_ne.
Qed.

Lemma foldl_insert_lookup l m k v :
  foldl insert_pair m l !! k = Some v → (k, v) ∈ l ∨ m !! k = Some v.
Proof.
  revert m. induction l as [|[k' v'] l IH]; intros m Hk; [by right|].
  cbn in Hk. apply IH in Hk as [Hin|Hm]; [left; by constructor|].
  unfold insert_pair in Hm. cbn in Hm.
  destruct (decide (k' = k)) as [->|Hne].
  - rewrite lookup_insert_eq in Hm. injection Hm as ->. left. constructor.
  - rewrite lookup_insert_ne in Hm by done. by right.
Qed.

Lemma dict_of_pairs_lookup l k v :
  NoDup l.*1 → dict_of_pairs l !! k = Some v ↔ (k, v) ∈ l.
Proof.
  intros Hnd. unfold dict_of_pairs. split.
  - intros Hk. apply foldl_insert_lookup in Hk as [?|Hm]; [done|].
    by rewrite lookup_empty in Hm.
  - idtac. generalize (∅ : gmap K V).
    induction l as [|[k' v'] l IH]; intros m Hin; [by apply elem_of_nil in Hin|].
    cbn in Hnd. apply NoDup_cons in Hnd as [Hk' Hnd].
    apply elem_of_cons in Hin as [[= -> ->]|Hin].
    + cbn. rewrite foldl_insert_notin by done. unfold insert_pair. cbn.
      apply lookup_insert_eq.
    + cbn. by apply IH.
Qed.
End dict_of_pairs.

Lemma image_list_names_NoDup : NoDup (map (λ x, x.1.1) image_list).
Proof. apply (bool_decide_unpack _). vm_compute. reflexivity. Qed.

Lemma image_list_ids_NoDup : NoDup (map (λ x, x.2) image_list).
Proof. apply (bool_decide_unpack _). vm_compute. reflexivity. Qed.

Lemma image_table_lookup name desc id :
  image_table !! name = Some (desc, id) ↔ (name, desc, id) ∈ image_list.
Proof.
  unfold image_table. rewrite dict_of_pairs_lookup.
  - rewrite list_elem_of_fmap. split.
    + intros ([[n d] i] & [= -> -> ->] & Hin). done.
    + intros Hin. by exists (name, desc, id).
  - rewrite <- list_fmap_compose.
    erewrite list_fmap_ext; [apply image_list_names_NoDup|].
    by intros ? [[??]?].
Qed.

Lemma rev_image_table_lookup name desc id :
  rev_image_table !! id = Some (name, desc) ↔ (name, desc, id) ∈ image_list.
Proof.
  unfold rev_image_table. rewrite dict_of_pairs_lookup.
  - rewrite list_elem_of_fmap. split.
    + intros ([[n d] i] & [= -> -> ->] & Hin). done.
    + intros Hin. by exists (name, desc, id).
  - rewrite <- list_fmap_compose.
    erewrite list_fmap_ext; [apply image_list_ids_NoDup|].
    by intros ? [[??]?].
Qed.

(** The two tables are inverse to each other. *)
Lemma rev_image_table_image_table name desc id :
  rev_image_table !! id = Some (name, desc) ↔
  image_table !! name = Some (desc, id).
Proof. by rewrite rev_image_table_lookup, image_table_lookup. Qed.

Lemma id_in_table_lookup id : id_in_table id ↔ is_Some (rev_image_table !! id).
Proof.
  split.
  - intros (n & d & Hin). exists (n, d). by apply rev_image_table_lookup.
  - intros [[n d] Hl]. exists n, d. by apply rev_image_table_lookup.
Qed.

Lemma name_in_table_lookup name :
  name_in_table name ↔ is_Some (image_table !! name).
Proof.
  split.
  - intros (d & i & Hin). exists (d, i). by apply image_table_lookup.
  - intros [[d i] Hl]. exists d, i. by apply image_table_lookup.
Qed.

(** Every image ID of the table is a bit index of a 64-bit word. *)
Lemma image_list_id_range name desc id :
  (name, desc, id) ∈ image_list → 0 ≤ id < 64.
Proof.
  assert (Forall (λ x, 0 ≤ x.2 < 64) image_list) as Hall.
  { apply (bool_decide_unpack _). vm_compute. reflexivity. }
  intros Hin. rewrite Forall_forall in Hall. apply (Hall _ Hin).
Qed.

(** One name per ID and one ID per name. *)
Lemma image_list_id_inj n1 d1 n2 d2 id :
  (n1, d1, id) ∈ image_list → (n2, d2, id) ∈ image_list → n1 = n2.
Proof.
  rewrite <- !rev_image_table_lookup. congruence.
Qed.

Lemma image_list_name_inj n d1 id1 d2 id2 :
  (n, d1, id1) ∈ image_list → (n, d2, id2) ∈ image_list → id1 = id2.
Proof.
  rewrite <- !image_table_lookup. congruence.
Qed.

(** ** C8: the decoder and the image type table *)

(** C8, as stated, fails: the header decoder accepts a 24-byte header whose
    image ID (200) is not a numeric ID of the image type table. *)
Lemma decoder_accepts_unknown_id :
  ¬ (∀ (bs rest : list byte) (h : ImageHdr),
       length bs = 24%nat → ImageHdr_set_from_file bs = Ok (h, rest) →
       id_in_table (image_id h)).
Proof.
  intros Hclaim.
  specialize (Hclaim unknown_id_header [] _ eq_refl eq_refl).
  apply id_in_table_lookup in Hclaim. vm_compute in Hclaim.
  by destruct Hclaim.
Qed.

(** C8, amended. For every input that the header decoder accepts, the
    decoded image_id is a number from 0 to 255; the decoder does not look
    it up in the image type table. *)
Theorem decoded_image_id_byte (bs rest : list byte) (h : ImageHdr) :
  ImageHdr_set_from_file bs = Ok (h, rest) → 0 ≤ image_id h < 256.
Proof.
  intros Hdec.
  destruct (ImageHdr_set_from_file_cases bs)
    as [[_ E]|[[_ E]|[(_ & _ & msg & E)|(_ & _ & h' & E & Hfits & _)]]];
    rewrite E in Hdec; try discriminate.
  injection Hdec as <- _. unfold fits_widths in Hfits. change (2 ^ 8) with 256 in Hfits. tauto.
Qed.

Lemma decoded_image_id_byte_witness :
  0 ≤ image_id (mkImageHdr 1 2 200 0 0 0 0 0) < 256.
Proof.
  apply (decoded_image_id_byte unknown_id_header []). reflexivity.
Defined.

(** ** Padding and CRC *)

Lemma num_padding_bytes_spec (L : Z) :
  num_padding_bytes L = (8 - L mod 8) mod 8.
Proof.
  unfold num_padding_bytes.
  rewrite <- Z.ldiff_land. change 7 with (Z.ones 3) at 2.
  rewrite Z.ldiff_ones_r, Z.shiftr_div_pow2, Z.shiftl_mul_pow2 by lia.
  change (2 ^ 3) with 8. Z.div_mod_to_equations. lia.
Qed.

Lemma num_padding_bytes_range (L : Z) : 0 ≤ num_padding_bytes L < 8.
Proof. rewrite num_padding_bytes_spec. apply Z.mod_pos_bound. lia. Qed.

Lemma lxor_range a b n :
  0 ≤ n → 0 ≤ a < 2 ^ n → 0 ≤ b < 2 ^ n → 0 ≤ Z.lxor a b < 2 ^ n.
Proof.
  intros Hn Ha Hb.
  assert (Z.land (Z.lxor a b) (Z.ones n) = Z.lxor a b) as <-.
  { rewrite <- (land_ones_small a n), <- (land_ones_small b n) by lia.
    apply Z.bits_inj'; intros i Hi.
    rewrite !Z.land_spec, !Z.lxor_spec, !Z.land_spec, !Z.testbit_ones by lia.
    split_cmp; rewrite ?andb_false_r, ?andb_true_r; reflexivity. }
  by apply land_ones_range.
Qed.

Lemma crc32_shift_range c : 0 ≤ c < 2 ^ 32 → 0 ≤ crc32_shift c < 2 ^ 32.
Proof.
  intros Hc. unfold crc32_shift.
  assert (0 ≤ Z.shiftr c 1 < 2 ^ 32).
  { rewrite Z.shiftr_div_pow2 by lia. change (2 ^ 1) with 2.
    Z.div_mod_to_equations. lia. }
  destruct (Z.testbit c 0); [apply lxor_range; lia|done].
Qed.

Lemma crc32_byte_range c b : 0 ≤ c < 2 ^ 32 → 0 ≤ crc32_byte c b < 2 ^ 32.
Proof.
  intros Hc. unfold crc32_byte.
  assert (0 ≤ Z.lxor c (byte_to_Z b) < 2 ^ 32) as Hx.
  { pose proof (byte_to_Z_range b). apply lxor_range; lia. }
  revert Hx. generalize (Z.lxor c (byte_to_Z b)). intros x Hx.
  do 8 (apply crc32_shift_range in Hx). exact Hx.
Qed.

(** [binascii.crc32] returns an unsigned 32-bit number. *)
Lemma crc32_range data value : 0 ≤ crc32 data value < 2 ^ 32.
Proof.
  unfold crc32. apply lxor_range; [lia| |lia].
  assert (0 ≤ Z.lxor (Z.land value 0xFFFFFFFF) 0xFFFFFFFF < 2 ^ 32) as Hinit.
  { apply lxor_range; [lia| |lia]. apply (land_ones_range value 32). lia. }
  revert Hinit. generalize (Z.lxor (Z.land value 0xFFFFFFFF) 0xFFFFFFFF).
  induction data as [|b data IH]; intros c Hc; [done|].
  cbn [foldl]. apply IH. by apply crc32_byte_range.
Qed.

(** ** C2: parsing one record from a stream *)

Lemma bind_Ok {A B} (a : A) (k : A → result B) : (Ok a ≫= k) = k a.
Proof. reflexivity. Qed.

Lemma bind_Raise {A B} (e : exn) (k : A → result B) : (Raise e ≫= k) = Raise e.
Proof. reflexivity. Qed.

(** Every outcome of [Image.__set_from_stream], by the bytes the stream
    holds.  In the last case the image is accepted; the padding that is
    checksummed and skipped is what the stream still holds, at most
    [num_padding_bytes] bytes. *)
Theorem Image_set_from_stream_outcomes (s : list byte) :
  (s = [] ∧ Image_set_from_stream s = Raise NoHdr) ∨
  ((0 < length s < 24)%nat ∧
   Image_set_from_stream s = Raise (BadHdr "ImageHdr too short")) ∨
  ((24 ≤ length s)%nat ∧ bad_header_fields s ∧
   ∃ msg, Image_set_from_stream s = Raise (BadHdr msg)) ∨
  ((24 ≤ length s)%nat ∧ ¬ bad_header_fields s ∧
   ∃ h, ImageHdr_set_from_file s = Ok (h, drop 24 s) ∧
     ((Z.of_nat (length s) < 24 + image_len h ∧
       Image_set_from_stream s = Raise (Exception (too_short_msg h))) ∨
      (24 + image_len h ≤ Z.of_nat (length s) ∧
       stream_crc h s ≠ image_crc h ∧
       Image_set_from_stream s
       = Raise (Exception (crc_mismatch_msg h (stream_crc h s)))) ∨
      (24 + image_len h ≤ Z.of_nat (length s) ∧
       stream_crc h s = image_crc h ∧
       Image_set_from_stream s
       = Ok (mkImage h (Some (stream_payload h s)),
             drop (24 + Z.to_nat (image_len h)
                   + Z.to_nat (num_padding_bytes (image_len h))) s)))).
Proof.
  unfold Image_set_from_stream.
  destruct (ImageHdr_set_from_file_cases s)
    as [[? E]|[[? E]|[(? & ? & msg & E)|(Hlen & Hok & h & E & Hfits & _)]]];
    rewrite E.
  - left. by rewrite bind_Raise.
  - right; left. by rewrite bind_Raise.
  - right; right; left. rewrite bind_Raise. eauto.
  - right; right; right. split; [done|]. split; [done|].
    exists h. split; [done|]. rewrite bind_Ok. cbv beta iota zeta. unfold read.
    destruct Hfits as (_ & _ & _ & _ & _ & Hil & _).
    rewrite length_take, length_drop.
    destruct (Z.eqb_spec (Z.of_nat (Z.to_nat (image_len h) `min` (length s - 24)))
                (image_len h)) as [Heq|Hne]; cbn [negb].
    + assert (24 + image_len h ≤ Z.of_nat (length s)) as Hfull by lia.
      right. fold (stream_payload h s).
      rewrite drop_drop.
      fold (stream_padding h s). fold (stream_crc h s).
      assert (Z.land (stream_crc h s) 0xFFFFFFFF = stream_crc h s) as ->.
      { apply (land_ones_small _ 32); [lia|apply crc32_range]. }
      destruct (Z.eqb_spec (stream_crc h s) (image_crc h)) as [Hcrc|Hcrc];
        cbn [negb].
      * right. rewrite drop_drop. done.
      * left. done.
    + left. split; [lia|done].
Qed.

(** The bytes an accepted image takes from the stream. *)
Lemma Image_set_from_stream_consumed (s rest : list byte) (img : Image) :
  Image_set_from_stream s = Ok (img, rest) →
  let L := get_image_length img in
  Z.of_nat (length s) - Z.of_nat (length rest)
  = 24 + L + Z.min (num_padding_bytes L) (Z.of_nat (length s) - 24 - L).
Proof.
  intros Hok.
  destruct (Image_set_from_stream_outcomes s)
    as [[_ E]|[[_ E]|[(_ & _ & msg & E)|(Hlen & _ & h & Hh & Hcases)]]];
    try (rewrite E in Hok; discriminate).
  destruct Hcases as [[_ E]|[(_ & _ & E)|(Hfull & _ & E)]];
    rewrite E in Hok; try discriminate.
  injection Hok as <- <-. unfold get_image_length; cbn [header].
  pose proof (num_padding_bytes_range (image_len h)).
  apply ImageHdr_set_from_file_Ok in Hh as (_ & _ & Hfits & _).
  destruct Hfits as (_ & _ & _ & _ & _ & Hil & _).
  rewrite length_drop. lia.
Qed.

(** When the stream holds the whole padding, an accepted image takes
    exactly header, payload and padding. *)
Lemma Image_set_from_stream_consumed_padded (s rest : list byte) (img : Image) :
  Image_set_from_stream s = Ok (img, rest) →
  let L := get_image_length img in
  24 + L + num_padding_bytes L ≤ Z.of_nat (length s) →
  Z.of_nat (length s) - Z.of_nat (length rest) = 24 + L + (8 - L mod 8) mod 8.
Proof.
  intros Hok L Hfull. rewrite <- num_padding_bytes_spec.
  rewrite (Image_set_from_stream_consumed s rest img Hok). fold L. lia.
Qed.

(** C2, at the input where the code departs from it: a 25-byte stream, the
    header of a one-byte image and the payload without its seven bytes of
    padding, whose CRC field is the CRC of the payload alone.  The image is
    accepted and 25 bytes are consumed, not 24 + 1 + 7 = 32. *)
Theorem unpadded_stream_accepted :
  Image_set_from_stream unpadded_stream
  = Ok (mkImage unpadded_hdr (Some [x41]), []) ∧
  length unpadded_stream = 25%nat ∧
  24 + image_len unpadded_hdr + (8 - image_len unpadded_hdr mod 8) mod 8 = 32.
Proof. repeat split; vm_compute; reflexivity. Qed.

(** What follows from it: [make_stream] copies the image with its seven
    bytes of padding and the CRC field as read, and the reader then refuses
    the stream that [make_stream] wrote. *)
Example unpadded_stream_rewritten :
  ∃ out, make_stream unpadded_fs ["in.bfb"%string] [] false = (Ok (), Some out) ∧
         length (outfile out) = 32%nat ∧
         ∃ msg, Image_set_from_stream (outfile out) = Raise (Exception msg).
Proof.
  eexists. split; [vm_compute; reflexivity|].
  split; [reflexivity|]. eexists. vm_compute. reflexivity.
Qed.

(** ** Dictionaries of images *)

Lemma store_image_eq (images : gmap string (gmap Z Image)) id img :
  store_image images id img
  = <[id := <[get_image_ver img := img]> (default ∅ (images !! id))]> images.
Proof.
  unfold store_image. case_bool_decide as Hid; [done|].
  rewrite lookup_insert_eq, insert_insert_eq.
  destruct (images !! id) eqn:E; [|done]. destruct Hid; eauto.
Qed.

Lemma filed_store (images : gmap string (gmap Z Image)) id img i v x :
  filed (store_image images id img) i v x ↔
  (i = id ∧ v = get_image_ver img ∧ x = img) ∨
  (¬ (i = id ∧ v = get_image_ver img) ∧ filed images i v x).
Proof.
  rewrite store_image_eq. unfold filed. split.
  - intros (m & Hm & Hx). destruct (decide (i = id)) as [->|Hne].
    + rewrite lookup_insert_eq in Hm. injection Hm as <-.
      destruct (decide (v = get_image_ver img)) as [->|Hv].
      * rewrite lookup_insert_eq in Hx. injection Hx as <-. by left.
      * rewrite lookup_insert_ne in Hx by done. right. split; [tauto|].
        destruct (images !! id) as [m|]; [by exists m|].
        cbn in Hx. by rewrite lookup_empty in Hx.
    + rewrite lookup_insert_ne in Hm by done. right. split; [tauto|]. eauto.
  - intros [(-> & -> & ->)|(Hne & m & Hm & Hx)].
    + eexists. rewrite lookup_insert_eq. split; [done|]. apply lookup_insert_eq.
    + destruct (decide (i = id)) as [->|Hi].
      * eexists. rewrite lookup_insert_eq. split; [done|].
        rewrite Hm. cbn. rewrite lookup_insert_ne by (intros <-; tauto). done.
      * exists m. by rewrite lookup_insert_ne.
Qed.

Lemma filed_empty i v x : ¬ filed ∅ i v x.
Proof. intros (m & Hm & _). by rewrite lookup_empty in Hm. Qed.

Lemma no_empty_entry_store images id img :
  no_empty_entry images → no_empty_entry (store_image images id img).
Proof.
  intros Hne i m. rewrite store_image_eq.
  destruct (decide (i = id)) as [->|Hi].
  - rewrite lookup_insert_eq. intros [= <-]. apply insert_non_empty.
  - rewrite lookup_insert_ne by done. apply Hne.
Qed.

(** ** Sorting the versions *)

Lemma sorted_versions_elem (m : gmap Z Image) v :
  v ∈ sorted_versions m ↔ is_Some (m !! v).
Proof.
  unfold sorted_versions. rewrite merge_sort_Permutation.
  rewrite list_elem_of_fmap. split.
  - intros ([k x] & -> & Hin). apply elem_of_map_to_list in Hin. eauto.
  - intros [x Hx]. exists (v, x). split; [done|]. by apply elem_of_map_to_list.
Qed.

Lemma sorted_versions_NoDup (m : gmap Z Image) : NoDup (sorted_versions m).
Proof.
  unfold sorted_versions. rewrite merge_sort_Permutation.
  apply NoDup_fst_map_to_list.
Qed.

Lemma StronglySorted_le_lt (l : list Z) :
  StronglySorted Z.le l → NoDup l → StronglySorted Z.lt l.
Proof.
  induction 1 as [|x l Hs IH Hall]; intros Hnd; constructor.
  - apply IH. by apply NoDup_cons in Hnd as [_ ?].
  - apply NoDup_cons in Hnd as [Hx _].
    rewrite Forall_forall in Hall |- *. intros y Hy.
    specialize (Hall y Hy). assert (x ≠ y) by (intros ->; done). lia.
Qed.

(** [sorted(images.keys())] is strictly ascending. *)
Lemma sorted_versions_sorted (m : gmap Z Image) :
  StronglySorted Z.lt (sorted_versions m).
Proof.
  apply StronglySorted_le_lt; [|apply sorted_versions_NoDup].
  apply StronglySorted_merge_sort; apply _.
Qed.

Lemma sorted_images_elem (m : gmap Z Image) img :
  img ∈ sorted_images m ↔ ∃ v, m !! v = Some img.
Proof.
  unfold sorted_images. fold (sorted_versions m).
  rewrite list_elem_of_omap. split.
  - intros (v & _ & Hv). eauto.
  - intros (v & Hv). exists v. split; [|done]. apply sorted_versions_elem. eauto.
Qed.

(** No key is lost in [[images[x] for x in sorted(images.keys())]], and the
    version of each image is its key. *)
Lemma sorted_images_versions (m : gmap Z Image) :
  (∀ v img, m !! v = Some img → get_image_ver img = v) →
  map get_image_ver (sorted_images m) = sorted_versions m.
Proof.
  intros Hkey. unfold sorted_images. fold (sorted_versions m).
  assert (Forall (λ v, is_Some (m !! v)) (sorted_versions m)) as Hall.
  { apply Forall_forall. intros v. apply sorted_versions_elem. }
  induction Hall as [|v l [img Hv] _ IH]; [done|].
  cbn. rewrite Hv. cbn. f_equal; [by apply Hkey|done].
Qed.

Lemma sorted_images_nil (m : gmap Z Image) :
  sorted_images m = [] ↔ size m = 0%nat.
Proof.
  rewrite map_size_empty_iff. split.
  - intros Hnil. apply map_empty. intros v.
    destruct (m !! v) as [img|] eqn:E; [|done].
    assert (img ∈ sorted_images m) as Hin by (apply sorted_images_elem; eauto).
    rewrite Hnil in Hin. by apply elem_of_nil in Hin.
  - intros ->. unfold sorted_images. by rewrite map_to_list_empty.
Qed.

(** ** The reading loops *)

Lemma Image_set_from_stream_shorter s img rest :
  Image_set_from_stream s = Ok (img, rest) → (length rest < length s)%nat.
Proof.
  intros Hok. pose proof (Image_set_from_stream_consumed s rest img Hok) as Hc.
  cbv zeta in Hc.
  destruct (Image_set_from_stream_outcomes s)
    as [[_ E]|[[_ E]|[(_ & _ & msg & E)|(Hlen & _ & h & Hh & Hcases)]]];
    try (rewrite E in Hok; discriminate).
  destruct Hcases as [[_ E]|[(_ & _ & E)|(Hfull & _ & E)]];
    rewrite E in Hok; try discriminate.
  injection Hok as <- <-. rewrite length_drop. lia.
Qed.

Lemma Image_set_from_stream_NoHdr s :
  Image_set_from_stream s = Raise NoHdr ↔ s = [].
Proof.
  destruct (Image_set_from_stream_outcomes s)
    as [[-> E]|[[Hl E]|[(Hl & _ & msg & E)|(Hl & _ & h & Hh & Hcases)]]].
  - done.
  - rewrite E. split; [done|]. intros ->. cbn in Hl. lia.
  - rewrite E. split; [done|]. intros ->. cbn in Hl. lia.
  - split; [|intros ->; cbn in Hl; lia].
    destruct Hcases as [[_ E]|[(_ & _ & E)|(Hfull & _ & E)]]; by rewrite E.
Qed.

(** The loop over one input file files the images of the stream, in
    order, each under the name of its ID. *)
Lemma read_infile_fold fuel s d f d' f' :
  read_infile fuel s d f = Ok (d', f') →
  ∃ l : list (string * Image),
    stream_prefix s l.*2 [] ∧ Forall (λ x, type_of x.2 x.1) l ∧
    (d', f') = foldl file_image (d, f) l.
Proof.
  revert s d f. induction fuel as [|fuel IH]; intros s d f Hr; [done|].
  cbn [read_infile] in Hr. unfold Image_of_stream in Hr.
  destruct (Image_set_from_stream s) as [[img s']|e] eqn:Himg.
  - destruct (rev_image_table !! get_image_id img) as [[name desc]|] eqn:Hrev;
      [|done].
    apply IH in Hr as (l & Hpre & Hty & Hfold).
    exists ((name, img) :: l). split; [by econstructor|].
    split; [|done]. constructor; [|done]. by exists desc.
  - destruct e; try done. injection Hr as <- <-.
    apply Image_set_from_stream_NoHdr in Himg as ->.
    exists []. split; [constructor|]. split; [constructor|done].
Qed.

(** The fuel given to the loop is enough. *)
Lemma read_infile_fuel fuel s d f :
  (length s < fuel)%nat → read_infile fuel s d f ≠ Raise OutOfFuel.
Proof.
  revert s d f. induction fuel as [|fuel IH]; intros s d f Hlt; [lia|].
  cbn [read_infile]. unfold Image_of_stream.
  destruct (Image_set_from_stream s) as [[img s']|e] eqn:Himg.
  - destruct (rev_image_table !! get_image_id img) as [[name desc]|]; [|done].
    apply IH. apply Image_set_from_stream_shorter in Himg. lia.
  - destruct e; try done.
    destruct (Image_set_from_stream_outcomes s)
      as [[_ E]|[[_ E]|[(_ & _ & msg & E)|(_ & _ & h & _ & Hcases)]]];
      try (rewrite E in Himg; discriminate).
    destruct Hcases as [[_ E]|[(_ & _ & E)|(_ & _ & E)]];
      rewrite E in Himg; discriminate.
Qed.

Lemma read_infiles_fold fs infnt d f d' f' :
  read_infiles fs infnt d f = Ok (d', f') →
  ∃ l : list (string * Image),
    Forall (λ x, type_of x.2 x.1 ∧ from_stream fs infnt x.2) l ∧
    (d', f') = foldl file_image (d, f) l.
Proof.
  revert d f. induction infnt as [|infn infnt IH]; intros d f Hr.
  - injection Hr as <- <-. by exists [].
  - cbn [read_infiles] in Hr. destruct (fs infn) as [data|] eqn:Hfs; [|done].
    destruct (read_infile _ data d f) as [[d1 f1]|] eqn:H1; [|done].
    rewrite bind_Ok in Hr.
    apply read_infile_fold in H1 as (l1 & Hpre & Hty & Hfold1).
    apply IH in Hr as (l2 & Hall2 & Hfold2).
    exists (l1 ++ l2). split.
    + apply Forall_app. split.
      * apply Forall_forall. intros [name img] Hin.
        rewrite Forall_forall in Hty. split; [by apply (Hty _ Hin)|].
        exists infn, data, l1.*2, []. split; [left|]. split; [done|].
        split; [done|]. apply list_elem_of_fmap. by exists (name, img).
      * eapply Forall_impl; [exact Hall2|]. intros [name img] [? Hfrom].
        split; [done|]. destruct Hfrom as (infn' & data' & imgs & rest & ? & ?).
        exists infn', data', imgs, rest. split; [by right|done].
    + by rewrite foldl_app, <- Hfold1.
Qed.

Lemma read_cmdline_fold fs image_tuples d order f d' order' f' :
  read_cmdline fs image_tuples d order f = Ok (d', order', f') →
  ∃ l : list (string * Image),
    Forall2 (λ t x, Image_of_file fs t.2 t.1 = Ok x.2 ∧ type_of x.2 x.1)
            image_tuples l ∧
    (d', f') = foldl file_image (d, f) l ∧
    order' = foldl note_order order l.*1.
Proof.
  revert d order f.
  induction image_tuples as [|[idver fn] image_tuples IH]; intros d order f Hr.
  - injection Hr as <- <- <-. by exists [].
  - cbn [read_cmdline] in Hr.
    destruct (Image_of_file fs fn idver) as [img|] eqn:Himg; [|done].
    rewrite bind_Ok in Hr.
    destruct (rev_image_table !! get_image_id img) as [[name desc]|] eqn:Hrev;
      [|done].
    apply IH in Hr as (l & Hall & Hfold & Horder).
    exists ((name, img) :: l). split; [|done].
    constructor; [|done]. split; [done|]. by exists desc.
Qed.

Lemma testbit_shiftl_1 (id n : Z) :
  0 ≤ id → Z.testbit (Z.shiftl 1 id) n = true ↔ n = id.
Proof.
  intros Hid. destruct (Z.ltb_spec n 0) as [Hneg|Hpos].
  - rewrite Z.testbit_neg_r by done. split; [done|lia].
  - rewrite Z.shiftl_spec by done. change 1 with (Z.ones 1).
    rewrite Z.testbit_ones by lia.
    rewrite andb_true_iff, Z.leb_le, Z.ltb_lt. lia.
Qed.

Lemma type_of_id_range img name : type_of img name → 0 ≤ get_image_id img < 64.
Proof.
  intros [desc Hrev]. apply rev_image_table_lookup in Hrev.
  by eapply image_list_id_range.
Qed.

Lemma type_of_inj img1 img2 name :
  type_of img1 name → type_of img2 name → get_image_id img1 = get_image_id img2.
Proof.
  intros [d1 H1] [d2 H2]. apply rev_image_table_lookup in H1, H2.
  by eapply image_list_name_inj.
Qed.

Lemma type_of_fun img name1 name2 :
  type_of img name1 → type_of img name2 → name1 = name2.
Proof. intros [d1 H1] [d2 H2]. congruence. Qed.

Section file_images.
Implicit Types (l : list (string * Image)) (d : gmap string (gmap Z Image)).

Lemma fold_file_image_snoc l x d f :
  foldl file_image (d, f) (l ++ [x])
  = file_image (foldl file_image (d, f) l) x.
Proof. by rewrite foldl_app. Qed.

(** Where a filed image comes from. *)
Lemma fold_filed l d f i v x :
  filed (foldl file_image (d, f) l).1 i v x →
  filed d i v x ∨ ((i, x) ∈ l ∧ v = get_image_ver x).
Proof.
  induction l as [|y l IH] using rev_ind; [by left|].
  rewrite fold_file_image_snoc. unfold file_image at 1. cbn [fst].
  rewrite filed_store. intros [(-> & -> & ->)|[_ Hf]].
  - right. split; [|done]. apply elem_of_app. right. destruct y. by left.
  - apply IH in Hf as [?|[? ?]]; [by left|right].
    split; [|done]. apply elem_of_app. by left.
Qed.

(** A filed image stays, or gives way to a later one of the same type
    and version. *)
Lemma fold_filed_complete l d f i x :
  (i, x) ∈ l →
  ∃ x', filed (foldl file_image (d, f) l).1 i (get_image_ver x) x' ∧
        (i, x') ∈ l ∧ get_image_ver x' = get_image_ver x.
Proof.
  induction l as [|y l IH] using rev_ind; [by intros ?%elem_of_nil|].
  rewrite fold_file_image_snoc. unfold file_image at 1. cbn [fst].
  intros Hin.
  destruct (decide (i = y.1 ∧ get_image_ver x = get_image_ver y.2))
    as [[-> Hv]|Hne].
  - exists y.2. rewrite filed_store. split; [left; done|].
    split; [|done]. apply elem_of_app. right. destruct y. by left.
  - apply elem_of_app in Hin as [Hin|Hin%list_elem_of_singleton].
    + destruct (IH Hin) as (x' & Hf & Hin' & Hv). exists x'.
      rewrite filed_store. split; [right; done|].
      split; [|done]. apply elem_of_app. by left.
    + subst y. cbn in Hne. tauto.
Qed.

Lemma fold_no_empty_entry l d f :
  no_empty_entry d → no_empty_entry (foldl file_image (d, f) l).1.
Proof.
  intros Hd. induction l as [|y l IH] using rev_ind; [done|].
  rewrite fold_file_image_snoc. by apply no_empty_entry_store.
Qed.

(** The bits of [fim_map] are those set before and the image IDs filed. *)
Lemma fold_fim l d f n :
  Forall (λ x, type_of x.2 x.1) l →
  Z.testbit (foldl file_image (d, f) l).2 n = true ↔
  Z.testbit f n = true ∨ ∃ x, x ∈ l ∧ get_image_id x.2 = n.
Proof.
  induction l as [|y l IH] using rev_ind; intros Hty.
  - cbn. split; [by left|]. intros [?|(x & Hx%elem_of_nil & _)]; done.
  - apply Forall_app in Hty as [Hty Hy]. rewrite Forall_singleton in Hy.
    rewrite fold_file_image_snoc. unfold file_image at 1. cbn [snd].
    rewrite Z.lor_spec, orb_true_iff, (IH Hty).
    pose proof (type_of_id_range _ _ Hy).
    rewrite testbit_shiftl_1 by lia.
    split.
    + intros [[?|(x & Hx & Hid)]| ->]; [by left|right..].
      * exists x. split; [|done]. apply elem_of_app. by left.
      * exists y. split; [|done]. apply elem_of_app. right. by left.
    + intros [?|(x & Hx & Hid)]; [by left; left|].
      apply elem_of_app in Hx as [Hx|Hx%list_elem_of_singleton].
      * left; right. eauto.
      * right. by subst.
Qed.

End file_images.

(** ** The writing loops *)

Lemma write_Ok img out out' :
  write img out = (Ok (), out') → written out' = written out ++ [img].
Proof.
  unfold write. destruct (Image_write img (outfile out)) as [[[]|e] bytes];
    intros [= <-]; done.
Qed.

(** The loop over the versions of one type writes the stamped images. *)
Lemma emit_images_Ok images f out f' out' :
  emit_images images f out = (Ok f', out') →
  ∃ rs, stamp_images images f = (rs, f') ∧ written out' = written out ++ rs.
Proof.
  revert f out. induction images as [|img images IH]; intros f out Hemit.
  - injection Hemit as <- <-. exists []. by rewrite app_nil_r.
  - cbn [emit_images stamp_images] in *. destruct images as [|next images].
    + fold (stamp img 0 (Z.land f (Z.lnot (Z.shiftl 1 (get_image_id img)))))
        in Hemit.
      destruct (write _ out) as [[[]|e] out1] eqn:Hw; [|done].
      injection Hemit as <- <-. apply write_Ok in Hw. eauto.
    + fold (stamp img (get_image_ver next) f) in Hemit.
      destruct (write _ out) as [[[]|e] out1] eqn:Hw; [|done].
      apply write_Ok in Hw. apply IH in Hemit as (rs & -> & Hout).
      eexists. split; [done|]. by rewrite Hout, Hw, <- app_assoc.
Qed.

(** The loop over the types writes the stamped images of each type. *)
Lemma emit_types_Ok order din dcmd f out f' out' :
  emit_types order din dcmd f out = (Ok f', out') →
  ∃ rss,
    stamp_types (map (λ i, sorted_images (merged_images din dcmd i)) order) f
    = (rss, f') ∧
    written out' = written out ++ concat rss.
Proof.
  revert f out. induction order as [|i order IH]; intros f out Hemit.
  - injection Hemit as <- <-. exists []. by rewrite app_nil_r.
  - cbn [emit_types map stamp_types] in *. case_bool_decide as Hsize.
    + apply sorted_images_nil in Hsize. rewrite Hsize. cbn [stamp_images].
      apply IH in Hemit as (rss & -> & Hout). exists ([] :: rss). done.
    + destruct (emit_images _ f out) as [[f1|e] out1] eqn:H1; [|done].
      apply emit_images_Ok in H1 as (rs & -> & Hout1).
      apply IH in Hemit as (rss & -> & Hout). exists (rs :: rss).
      split; [done|]. by rewrite Hout, Hout1, <- app_assoc.
Qed.

Lemma stamp_same_but_stamps img next fim :
  same_but_stamps (stamp img next fim) img ∧
  minor (header (stamp img next fim)) = MINOR_VER ∧
  next_img_ver (header (stamp img next fim)) = next ∧
  following_images (header (stamp img next fim)) = fim.
Proof. by repeat split. Qed.

(** Only the three stamps differ between an image written and what it was
    before. *)
Lemma stamp_images_frame images f :
  Forall2 (λ r img, same_but_stamps r img ∧ minor (header r) = MINOR_VER)
          (stamp_images images f).1 images.
Proof.
  revert f. induction images as [|img images IH]; intros f; [constructor|].
  cbn [stamp_images]. destruct images as [|next images].
  - constructor; [|constructor]. split; by repeat split.
  - specialize (IH f). destruct (stamp_images (next :: images) f) as [rs f1].
    constructor; [|done]. split; by repeat split.
Qed.

Lemma same_but_stamps_ver r img :
  same_but_stamps r img → get_image_ver r = get_image_ver img.
Proof. unfold same_but_stamps, get_image_ver. tauto. Qed.

Lemma same_but_stamps_id r img :
  same_but_stamps r img → get_image_id r = get_image_id img.
Proof. unfold same_but_stamps, get_image_id. tauto. Qed.

Lemma stamp_images_versions images f :
  map get_image_ver (stamp_images images f).1 = map get_image_ver images.
Proof.
  pose proof (stamp_images_frame images f) as Hfr.
  induction Hfr as [|r img rs imgs [Hs _] _ IH]; [done|].
  cbn. by rewrite IH, (same_but_stamps_ver _ _ Hs).
Qed.

Lemma stamp_images_ids images f :
  map get_image_id (stamp_images images f).1 = map get_image_id images.
Proof.
  pose proof (stamp_images_frame images f) as Hfr.
  induction Hfr as [|r img rs imgs [Hs _] _ IH]; [done|].
  cbn. by rewrite IH, (same_but_stamps_id _ _ Hs).
Qed.

(** Each image written names the version of the next, the last names 0. *)
Lemma stamp_images_next images f :
  map (λ r, next_img_ver (header r)) (stamp_images images f).1
  = next_versions (map get_image_ver images).
Proof.
  revert f. induction images as [|img images IH]; intros f; [done|].
  cbn [stamp_images]. destruct images as [|next images]; [done|].
  specialize (IH f). destruct (stamp_images (next :: images) f) as [rs f1].
  cbn [fst map next_versions] in *. rewrite IH. done.
Qed.

(** ** The order of types *)

Lemma first_occurrences_elem l x : x ∈ first_occurrences l ↔ x ∈ l.
Proof.
  induction l as [|y l IH]; [done|]. cbn [first_occurrences].
  rewrite !elem_of_cons, list_elem_of_filter, IH.
  destruct (decide (x = y)); tauto.
Qed.

Lemma first_occurrences_NoDup l : NoDup (first_occurrences l).
Proof.
  induction l as [|y l IH]; [constructor|]. cbn [first_occurrences].
  apply NoDup_cons. split; [|by apply NoDup_filter].
  rewrite list_elem_of_filter. tauto.
Qed.

(** The list that the loop over the sources keeps is the list of the type
    names in the order of their first occurrence. *)
Lemma foldl_note_order acc l :
  foldl note_order acc l = acc ++ filter (λ y, y ∉ acc) (first_occurrences l).
Proof.
  revert acc. induction l as [|x l IH]; intros acc.
  - cbn. by rewrite app_nil_r.
  - cbn [foldl first_occurrences]. rewrite IH. unfold note_order.
    case_bool_decide as Hx.
    + rewrite filter_cons_False by tauto.
      rewrite list_filter_filter_l; [done|]. intros y Hy ->. done.
    + rewrite filter_cons_True by done. rewrite <- app_assoc. cbn.
      do 2 f_equal. rewrite list_filter_filter. apply list_filter_iff.
      intros y. rewrite elem_of_app, list_elem_of_singleton. tauto.
Qed.

Lemma foldl_note_order_nil l :
  foldl note_order [] l = first_occurrences l.
Proof.
  rewrite foldl_note_order. cbn.
  induction (first_occurrences l) as [|x k IH]; [done|].
  rewrite filter_cons_True by apply not_elem_of_nil. by rewrite IH.
Qed.

(** ** Merging the two dictionaries *)

Lemma merged_images_lookup din dcmd i v x :
  merged_images din dcmd i !! v = Some x ↔
  filed dcmd i v x ∨ ((∀ c, ¬ filed dcmd i v c) ∧ filed din i v x).
Proof.
  unfold merged_images, filed.
  destruct (dcmd !! i) as [mc|] eqn:Ec, (din !! i) as [mi|] eqn:Ei;
    rewrite ?lookup_union_Some_raw, ?lookup_empty.
  - split.
    + intros [?|[Hn [?|[_ ?]]]]; [left; eauto| |done].
      right. split; [|eauto]. intros c (m & [= <-] & ?). congruence.
    + intros [(m & [= <-] & ?)|[Hn (m & [= <-] & ?)]]; [by left|].
      right. split; [|by left]. destruct (mc !! v) eqn:E; [|done].
      destruct (Hn i0). eauto.
  - split.
    + intros [?|[_ ?]]; [left; eauto|done].
    + intros [(m & [= <-] & ?)|[_ (m & ? & _)]]; [by left|done].
  - split.
    + intros [?|[_ ?]]; [|done]. right. split; [|eauto]. by intros c (m & ? & _).
    + intros [(m & ? & _)|[_ (m & [= <-] & ?)]]; [done|by left].
  - split; [done|]. by intros [(m & ? & _)|[_ (m & ? & _)]].
Qed.

Lemma elem_of_concat {A} (x : A) (ls : list (list A)) :
  x ∈ concat ls ↔ ∃ l, l ∈ ls ∧ x ∈ l.
Proof.
  induction ls as [|l ls IH]; cbn.
  - split; [by intros ?%elem_of_nil|]. by intros (l & ?%elem_of_nil & _).
  - rewrite elem_of_app, IH. split.
    + intros [?|(l' & ? & ?)]; [exists l; split; [left|done]|].
      exists l'. split; [by right|done].
    + intros (l' & [->|?]%elem_of_cons & ?); [by left|right; eauto].
Qed.

(** ** What a successful run of make_stream did *)

Lemma make_stream_Ok fs infnt image_tuples expert out :
  make_stream fs infnt image_tuples expert = (Ok (), Some out) →
  ∃ (lin lcmd : list (string * Image)) din f0 dcmd f1 rss f2,
    read_infiles fs infnt ∅ 0 = Ok (din, f0) ∧
    read_cmdline fs image_tuples ∅ [] f0
    = Ok (dcmd, first_occurrences lcmd.*1, f1) ∧
    (din, f0) = foldl file_image (∅, 0) lin ∧
    (dcmd, f1) = foldl file_image (∅, f0) lcmd ∧
    Forall (λ x, type_of x.2 x.1 ∧ from_stream fs infnt x.2) lin ∧
    Forall2 (λ t x, Image_of_file fs t.2 t.1 = Ok x.2 ∧ type_of x.2 x.1)
            image_tuples lcmd ∧
    stamp_types
      (map (λ i, sorted_images (merged_images din dcmd i))
           (image_order_of expert (first_occurrences lcmd.*1))) f1
    = (rss, f2) ∧
    written out = concat rss.
Proof.
  unfold make_stream. intros Hm.
  destruct (read_infiles fs infnt ∅ 0) as [[din f0]|] eqn:Hin; [|done].
  destruct (read_cmdline fs image_tuples ∅ [] f0) as [[[dcmd order] f1]|]
    eqn:Hcmd; [|done].
  destruct (emit_types _ din dcmd f1 _) as [[f2|e] out'] eqn:Hemit; [|done].
  injection Hm as <-.
  pose proof Hin as (lin & Hlin & Ein)%read_infiles_fold.
  pose proof Hcmd as (lcmd & Hlcmd & Ecmd & Eorder)%read_cmdline_fold.
  rewrite foldl_note_order_nil in Eorder. subst order.
  apply emit_types_Ok in Hemit as (rss & Hst & Hw).
  exists lin, lcmd, din, f0, dcmd, f1, rss, f2. done.
Qed.

(** What the two dictionaries hold after the reading loops. *)
Lemma filed_infile fs infnt (lin : list (string * Image)) din f0 i v x :
  (din, f0) = foldl file_image (∅, 0) lin →
  Forall (λ x, type_of x.2 x.1 ∧ from_stream fs infnt x.2) lin →
  filed din i v x →
  type_of x i ∧ get_image_ver x = v ∧ from_stream fs infnt x.
Proof.
  intros Hfold Hall Hf. replace din with (foldl file_image (∅, 0) lin).1 in Hf
    by (by rewrite <- Hfold).
  apply fold_filed in Hf as [Hf|[Hin ->]]; [by apply filed_empty in Hf|].
  rewrite Forall_forall in Hall. destruct (Hall _ Hin). done.
Qed.

Lemma filed_cmdline fs image_tuples (lcmd : list (string * Image)) dcmd f0 f1
    i v x :
  (dcmd, f1) = foldl file_image (∅, f0) lcmd →
  Forall2 (λ t x, Image_of_file fs t.2 t.1 = Ok x.2 ∧ type_of x.2 x.1)
          image_tuples lcmd →
  filed dcmd i v x →
  type_of x i ∧ get_image_ver x = v ∧ from_source fs image_tuples x ∧
  i ∈ lcmd.*1.
Proof.
  intros Hfold Hall Hf. replace dcmd with (foldl file_image (∅, f0) lcmd).1 in Hf
    by (by rewrite <- Hfold).
  apply fold_filed in Hf as [Hf|[Hin ->]]; [by apply filed_empty in Hf|].
  apply list_elem_of_lookup in Hin as [k Hk].
  destruct (Forall2_lookup_r _ _ _ _ _ Hall Hk) as ([idver fn] & Ht & Himg & Hty).
  split; [done|]. split; [done|]. split.
  - exists idver, fn. split; [|done]. by eapply list_elem_of_lookup_2.
  - apply list_elem_of_fmap. exists (i, x). split; [done|].
    by eapply list_elem_of_lookup_2.
Qed.

Lemma stamp_types_Forall2 (P : list Image → list Image → Prop) runs f rss f' :
  (∀ run g, P run (stamp_images run g).1) →
  stamp_types runs f = (rss, f') → Forall2 P runs rss.
Proof.
  intros HP. revert f rss.
  induction runs as [|run runs IH]; intros f rss Hst.
  - injection Hst as <- <-. constructor.
  - cbn [stamp_types] in Hst. pose proof (HP run f) as Hrun.
    destruct (stamp_images run f) as [rs f1].
    destruct (stamp_types runs f1) as [rss' f2] eqn:Hrest.
    injection Hst as <- <-. constructor; [done|]. by eapply IH.
Qed.

Lemma merged_images_filed fs infnt image_tuples
    (lin lcmd : list (string * Image)) din f0 dcmd f1 i v x :
  (din, f0) = foldl file_image (∅, 0) lin →
  (dcmd, f1) = foldl file_image (∅, f0) lcmd →
  Forall (λ x, type_of x.2 x.1 ∧ from_stream fs infnt x.2) lin →
  Forall2 (λ t x, Image_of_file fs t.2 t.1 = Ok x.2 ∧ type_of x.2 x.1)
          image_tuples lcmd →
  merged_images din dcmd i !! v = Some x →
  type_of x i ∧ get_image_ver x = v ∧
  (from_stream fs infnt x ∨ from_source fs image_tuples x).
Proof.
  intros Hin Hcmd Hlin Hlcmd [Hf|[_ Hf]]%merged_images_lookup.
  - destruct (filed_cmdline _ _ _ _ _ _ _ _ _ Hcmd Hlcmd Hf) as (? & ? & ? & _).
    auto.
  - destruct (filed_infile _ _ _ _ _ _ _ _ Hin Hlin Hf) as (? & ? & ?). auto.
Qed.

(** Every type that has a source image is in the order of emission, and
    in default mode every type that has an image at all. *)
Lemma image_order_complete fs infnt image_tuples expert
    (lin lcmd : list (string * Image)) din f0 dcmd f1 i v x :
  (din, f0) = foldl file_image (∅, 0) lin →
  (dcmd, f1) = foldl file_image (∅, f0) lcmd →
  Forall (λ x, type_of x.2 x.1 ∧ from_stream fs infnt x.2) lin →
  Forall2 (λ t x, Image_of_file fs t.2 t.1 = Ok x.2 ∧ type_of x.2 x.1)
          image_tuples lcmd →
  filed dcmd i v x ∨ (expert = false ∧ filed din i v x) →
  i ∈ image_order_of expert (first_occurrences lcmd.*1).
Proof.
  intros Hin Hcmd Hlin Hlcmd Hf.
  assert (type_of x i ∧ (filed dcmd i v x ∨ expert = false)) as [[desc Hty] Hcase].
  { destruct Hf as [Hf|[-> Hf]].
    - destruct (filed_cmdline _ _ _ _ _ _ _ _ _ Hcmd Hlcmd Hf) as (? & _). auto.
    - destruct (filed_infile _ _ _ _ _ _ _ _ Hin Hlin Hf) as (? & _). auto. }
  assert (i ∈ map (λ x : string * string * Z, x.1.1) image_list) as Htable.
  { apply rev_image_table_lookup in Hty. apply list_elem_of_fmap.
    by exists (i, desc, get_image_id x). }
  destruct expert; [|done]. destruct Hcase as [Hf'|?]; [|done].
  cbn. apply first_occurrences_elem.
  by destruct (filed_cmdline _ _ _ _ _ _ _ _ _ Hcmd Hlcmd Hf') as (_ & _ & _ & ?).
Qed.

(** ** The chains of versions *)

(** The images written, type by type: their versions and the versions
    they name. *)
Lemma make_stream_chains fs infnt image_tuples expert din f0 dcmd order f1 out :
  read_infiles fs infnt ∅ 0 = Ok (din, f0) →
  read_cmdline fs image_tuples ∅ [] f0 = Ok (dcmd, order, f1) →
  make_stream fs infnt image_tuples expert = (Ok (), Some out) →
  (∀ i v x, filed dcmd i v x ∨ (expert = false ∧ filed din i v x) →
            i ∈ image_order_of expert order) ∧
  ∃ runs, written out = concat runs ∧
    Forall2 (λ i run,
        let versions := sorted_versions (merged_images din dcmd i) in
        StronglySorted Z.lt versions ∧
        (∀ v, v ∈ versions ↔ is_Some (merged_images din dcmd i !! v)) ∧
        Forall (λ r, type_of r i) run ∧
        map get_image_ver run = versions ∧
        map (λ r, next_img_ver (header r)) run = next_versions versions)
      (image_order_of expert order) runs.
Proof.
  intros Hin Hcmd Hmk.
  destruct (make_stream_Ok _ _ _ _ _ Hmk)
    as (lin & lcmd & din' & f0' & dcmd' & f1' & rss & f2 & Hin' & Hcmd' &
        Elin & Elcmd & Hlin & Hlcmd & Hst & Hw).
  rewrite Hin in Hin'. injection Hin' as <- <-.
  rewrite Hcmd in Hcmd'. injection Hcmd' as <- -> <-.
  split.
  { intros i v x. by eapply image_order_complete. }
  exists rss. split; [done|].
  apply (stamp_types_Forall2
           (λ run rs, map get_image_ver rs = map get_image_ver run ∧
                      map get_image_id rs = map get_image_id run ∧
                      map (λ r, next_img_ver (header r)) rs
                      = next_versions (map get_image_ver run))) in Hst.
  2:{ intros run g. split; [apply stamp_images_versions|].
      split; [apply stamp_images_ids|apply stamp_images_next]. }
  apply Forall2_fmap_l in Hst. eapply Forall2_impl; [exact Hst|].
  intros i rs (Hver & Hid & Hnext). cbn zeta.
  assert (∀ v x, merged_images din dcmd i !! v = Some x →
                 type_of x i ∧ get_image_ver x = v) as Hkey.
  { intros v x Hx.
    destruct (merged_images_filed _ _ _ _ _ _ _ _ _ _ _ _ Elin Elcmd Hlin Hlcmd Hx)
      as (? & ? & _). done. }
  rewrite sorted_images_versions in Hver, Hnext by (intros; by eapply Hkey).
  split; [apply sorted_versions_sorted|].
  split; [apply sorted_versions_elem|].
  split; [|done].
  apply Forall_forall. intros r Hr.
  apply list_elem_of_lookup in Hr as [k Hk].
  assert (map get_image_id rs !! k = Some (get_image_id r)) as Hk'
    by (by rewrite list_lookup_fmap, Hk).
  rewrite Hid, list_lookup_fmap in Hk'.
  destruct (sorted_images (merged_images din dcmd i) !! k) as [x|] eqn:Hx;
    [|done].
  injection Hk' as Hidx.
  apply list_elem_of_lookup_2, sorted_images_elem in Hx as [v Hx].
  destruct (Hkey _ _ Hx) as [[desc Hty] _]. exists desc.
  unfold get_image_id in *. by rewrite <- Hidx.
Qed.

(** ** C3: version chaining *)

(** C3. Version chaining: make_stream writes the images type by type in
    [image_order]; for each type [i] the images written are those of the
    merged set of versions in strictly ascending order of version, in
    default and in expert mode alike; each names in [next_img_ver] the
    version of the image written after it, and the last names 0.  Every
    type that has an image is in the order (in expert mode: every type
    that a source names). *)
Theorem version_chaining fs infnt image_tuples expert din f0 dcmd order f1 out :
  read_infiles fs infnt ∅ 0 = Ok (din, f0) →
  read_cmdline fs image_tuples ∅ [] f0 = Ok (dcmd, order, f1) →
  make_stream fs infnt image_tuples expert = (Ok (), Some out) →
  (∀ i v x, filed dcmd i v x ∨ (expert = false ∧ filed din i v x) →
            i ∈ image_order_of expert order) ∧
  ∃ runs, written out = concat runs ∧
    Forall2 (λ i run,
        let versions := sorted_versions (merged_images din dcmd i) in
        StronglySorted Z.lt versions ∧
        (∀ v, v ∈ versions ↔ is_Some (merged_images din dcmd i !! v)) ∧
        Forall (λ r, type_of r i) run ∧
        map get_image_ver run = versions ∧
        map (λ r, next_img_ver (header r)) run = next_versions versions)
      (image_order_of expert order) runs.
Proof. apply make_stream_chains. Qed.

(** ** Sources *)

(** No name of the table ends in a version suffix. *)
Lemma table_names_no_suffix name :
  is_Some (image_table !! name) → strip_version name = name.
Proof.
  assert (Forall (λ x, strip_version x.1.1 = x.1.1) image_list) as Hall.
  { apply (bool_decide_unpack _). vm_compute. reflexivity. }
  intros [[desc id] Hl%image_table_lookup].
  rewrite Forall_forall in Hall. apply (Hall _ Hl).
Qed.

(** The name that [Image.__set_from_file] looks up is the option without
    its version suffix, whenever that name is in the table. *)
Lemma split_idstr_Ok idstr name ver :
  split_idstr idstr = Ok (name, ver) → is_Some (image_table !! name) →
  name = strip_version idstr.
Proof.
  unfold split_idstr. intros Hs Hname.
  pose proof (table_names_no_suffix idstr) as Hno. unfold strip_version in *.
  destruct (rsplit1 "-" idstr) as [[img [|c digits]]|]; try by injection Hs as <-.
  destruct (Ascii.eqb_spec c "v") as [->|Hc].
  2:{ destruct c as [[] [] [] [] [] [] [] []]; try (by injection Hs as <-).
      done. }
  destruct (isdigit digits); [|by injection Hs as <-].
  case_bool_decide as Himg.
  - destruct (int digits); [|done]. rewrite bind_Ok in Hs. by injection Hs as <-.
  - injection Hs as <- <-. rewrite Hno in Himg by done. done.
Qed.

(** A source that is filed was built by [Image.__set_from_file]. *)
Lemma Image_of_file_filed fs fn idver img name :
  Image_of_file fs fn idver = Ok img → type_of img name →
  name = strip_version idver ∧ is_Some (bits img) ∧
  Image_set_from_file fs fn idver = Ok img.
Proof.
  unfold Image_of_file. intros Himg [desc Hty]. case_bool_decide as Hfn.
  { injection Himg as <-. vm_compute in Hty. done. }
  split; [|split; [|done]]; unfold Image_set_from_file in Himg;
    destruct (load_source fs fn) as [data|]; try done;
    rewrite bind_Ok in Himg;
    destruct (split_idstr idver) as [[idstr ver]|] eqn:Hsplit; try done;
    rewrite bind_Ok in Himg;
    destruct (image_table !! idstr) as [[d id]|] eqn:Htab; try done;
    injection Himg as <-.
  - unfold get_image_id, ImageHdr_init in Hty. cbn [header image_id] in Hty.
    apply rev_image_table_image_table in Htab.
    assert (name = idstr) as -> by congruence.
    eapply split_idstr_Ok; [done|]. apply rev_image_table_image_table in Htab. eauto.
  - cbn. eauto.
Qed.

(** ** C5: the order of types *)

(** C5. Emission order of image types: the images written are those of the
    types of [image_order], type after type; in default mode the order is
    the declaration order of the image type table, whatever the order of
    the sources; in expert mode it is the order in which the sources first
    name each distinct type (an option names the type it has without its
    version suffix), and every type of the order has an image written. *)
Theorem emission_order fs infnt image_tuples expert out :
  make_stream fs infnt image_tuples expert = (Ok (), Some out) →
  ∃ runs, written out = concat runs ∧
    Forall2 (λ i run, Forall (λ r, type_of r i) run ∧
                      (expert = true → run ≠ []))
      (if expert
       then first_occurrences (map (λ t, strip_version t.1) image_tuples)
       else map (λ x, x.1.1) image_list)
      runs.
Proof.
  intros Hmk.
  destruct (make_stream_Ok _ _ _ _ _ Hmk)
    as (lin & lcmd & din & f0 & dcmd & f1 & rss & f2 & Hin & Hcmd &
        Elin & Elcmd & Hlin & Hlcmd & Hst & Hw).
  destruct (make_stream_chains _ _ _ _ _ _ _ _ _ _ Hin Hcmd Hmk)
    as (_ & runs & Hw' & Hruns).
  assert (lcmd.*1 = map (λ t, strip_version t.1) image_tuples) as Hnames.
  { clear -Hlcmd. induction Hlcmd as [|[idver fn] [name img] ts l [Himg Hty] _ IH];
      [done|]. cbn in *. rewrite IH. f_equal.
    by destruct (Image_of_file_filed _ _ _ _ _ Himg Hty) as (-> & _). }
  exists runs. split; [done|].
  assert (image_order_of expert (first_occurrences lcmd.*1)
          = if expert
            then first_occurrences (map (λ t, strip_version t.1) image_tuples)
            else map (λ x, x.1.1) image_list) as <-.
  { unfold image_order_of. by rewrite Hnames. }
  apply Forall2_same_length_lookup. split; [by eapply Forall2_length|].
  intros k i run Hi Hrun.
  destruct (Forall2_lookup_lr _ _ _ _ _ _ Hruns Hi Hrun)
    as (_ & Hvs & Hty & Hver & _).
  split; [done|]. intros -> ->. cbn in Hi.
  apply list_elem_of_lookup_2, first_occurrences_elem, list_elem_of_fmap in Hi
    as ([i' x] & -> & Hx). cbn in *.
  destruct (fold_filed_complete lcmd ∅ f0 _ _ Hx) as (x' & Hf & _).
  rewrite <- Elcmd in Hf. cbn in Hf.
  assert (get_image_ver x ∈ sorted_versions (merged_images din dcmd i')) as Hin'.
  { apply Hvs. exists x'. apply merged_images_lookup. by left. }
  rewrite <- Hver in Hin'. by apply elem_of_nil in Hin'.
Qed.

(** ** C7: the frame of the assembler *)

(** C7. Assembler frame property: every image that make_stream writes has
    minor 2 in its header and is an image read from an input stream or
    built from a source, with the same major, image_id, image_len,
    image_crc, cur_img_ver and payload; only next_img_ver,
    following_images and minor may differ. *)
Theorem assembler_frame fs infnt image_tuples expert out r :
  make_stream fs infnt image_tuples expert = (Ok (), Some out) →
  r ∈ written out →
  minor (header r) = 2 ∧
  ∃ r0, (from_stream fs infnt r0 ∨ from_source fs image_tuples r0) ∧
        same_but_stamps r r0.
Proof.
  intros Hmk Hr.
  destruct (make_stream_Ok _ _ _ _ _ Hmk)
    as (lin & lcmd & din & f0 & dcmd & f1 & rss & f2 & Hin & Hcmd &
        Elin & Elcmd & Hlin & Hlcmd & Hst & Hw).
  apply (stamp_types_Forall2
           (λ run rs, Forall2 (λ r img, same_but_stamps r img ∧
                                        minor (header r) = MINOR_VER) rs run))
    in Hst; [|intros; apply stamp_images_frame].
  apply Forall2_fmap_l in Hst.
  rewrite Hw in Hr. apply elem_of_concat in Hr as (rs & Hrs & Hr).
  apply list_elem_of_lookup in Hrs as [k Hk].
  destruct (Forall2_lookup_r _ _ _ _ _ Hst Hk) as (i & _ & Hfr).
  apply list_elem_of_lookup in Hr as [j Hj].
  destruct (Forall2_lookup_l _ _ _ _ _ Hfr Hj) as (r0 & Hr0 & Hsame & Hminor).
  split; [done|]. exists r0. split; [|done].
  apply list_elem_of_lookup_2, sorted_images_elem in Hr0 as [v Hv].
  by destruct (merged_images_filed _ _ _ _ _ _ _ _ _ _ _ _ Elin Elcmd Hlin Hlcmd Hv)
    as (_ & _ & ?).
Qed.

(** ** C6: merge priority *)

Lemma filter_none {A} (P : A → Prop) `{∀ x, Decision (P x)} (l : list A) :
  (∀ x, x ∈ l → ¬ P x) → filter P l = [].
Proof.
  induction l as [|x l IH]; intros Hl; [done|].
  rewrite filter_cons_False by (apply Hl; left). apply IH.
  intros y Hy. apply Hl. by right.
Qed.

(** Filtering a list that is related element by element to a list without
    duplicates keeps the one element related to [c]. *)
Lemma filter_related_unique {A B} (P : A → Prop) `{∀ x, Decision (P x)}
    (R : A → B → Prop) (rs : list A) (imgs : list B) (c : B) :
  Forall2 R rs imgs →
  (∀ r x, R r x → x ∈ imgs → (P r ↔ x = c)) →
  NoDup imgs → c ∈ imgs →
  ∃ r, filter P rs = [r] ∧ R r c.
Proof.
  intros HR. induction HR as [|r x rs imgs Hrx HR IH]; intros HP Hnd Hc.
  { by apply elem_of_nil in Hc. }
  apply NoDup_cons in Hnd as [Hx Hnd].
  assert (P r ↔ x = c) as Hiff by (apply HP; [done|left]).
  destruct (decide (P r)) as [Heq%Hiff|Hne]; [subst x|rewrite Hiff in Hne].
  - exists r. split; [|done].
    rewrite filter_cons_True by (eapply HP; [done|left|done]).
    f_equal. apply filter_none. intros r' Hr' HPr'.
    apply list_elem_of_lookup in Hr' as [k Hk].
    destruct (Forall2_lookup_l _ _ _ _ _ HR Hk) as (x' & Hx' & Hr'x').
    apply list_elem_of_lookup_2 in Hx'.
    assert (x' = c) as -> by (eapply HP; [done|by right|done]). done.
  - apply elem_of_cons in Hc as [->|Hc]; [done|].
    destruct IH as (r' & Hf & Hr'); [|done..|].
    { intros r' x' ? ?. apply HP; [done|by right]. }
    exists r'. split; [|done]. rewrite filter_cons_False; [done|].
    intros HPr'. apply Hne. eapply HP; [done|left|done].
Qed.

(** The images written, type by type, as stamped copies of the merged
    images of each type. *)
Lemma make_stream_runs fs infnt image_tuples expert din f0 dcmd order f1 out :
  read_infiles fs infnt ∅ 0 = Ok (din, f0) →
  read_cmdline fs image_tuples ∅ [] f0 = Ok (dcmd, order, f1) →
  make_stream fs infnt image_tuples expert = (Ok (), Some out) →
  NoDup (image_order_of expert order) ∧
  (∀ i v x, merged_images din dcmd i !! v = Some x →
            type_of x i ∧ get_image_ver x = v) ∧
  ∃ runs, written out = concat runs ∧
    Forall2 (λ i run,
        Forall2 (λ r x, same_but_stamps r x ∧ minor (header r) = MINOR_VER)
                run (sorted_images (merged_images din dcmd i)))
      (image_order_of expert order) runs.
Proof.
  intros Hin Hcmd Hmk.
  destruct (make_stream_Ok _ _ _ _ _ Hmk)
    as (lin & lcmd & din' & f0' & dcmd' & f1' & rss & f2 & Hin' & Hcmd' &
        Elin & Elcmd & Hlin & Hlcmd & Hst & Hw).
  rewrite Hin in Hin'. injection Hin' as <- <-.
  rewrite Hcmd in Hcmd'. injection Hcmd' as <- -> <-.
  split.
  { destruct expert; [apply first_occurrences_NoDup|apply image_list_names_NoDup]. }
  split.
  { intros i v x Hx.
    by destruct (merged_images_filed _ _ _ _ _ _ _ _ _ _ _ _ Elin Elcmd Hlin Hlcmd Hx)
      as (? & ? & _). }
  exists rss. split; [done|].
  apply (stamp_types_Forall2
           (λ run rs, Forall2 (λ r img, same_but_stamps r img ∧
                                        minor (header r) = MINOR_VER) rs run))
    in Hst; [|intros; apply stamp_images_frame].
  by apply Forall2_fmap_l in Hst.
Qed.

Lemma sorted_images_NoDup (m : gmap Z Image) :
  (∀ v x, m !! v = Some x → get_image_ver x = v) → NoDup (sorted_images m).
Proof.
  intros Hkey. apply (NoDup_fmap_1 get_image_ver).
  change (NoDup (map get_image_ver (sorted_images m))).
  rewrite sorted_images_versions by done. apply sorted_versions_NoDup.
Qed.

(** C6. Merge priority: when the input streams hold an image [a] and the
    sources an image [c] of the same type [i] and the same version [v],
    the images written hold exactly one image of that image ID and
    version, and it is [c] with its payload, as built from a source; the
    image [a] read from the input stream is not written. *)
Theorem merge_priority fs infnt image_tuples expert din f0 dcmd order f1 out
    i v a c :
  read_infiles fs infnt ∅ 0 = Ok (din, f0) →
  read_cmdline fs image_tuples ∅ [] f0 = Ok (dcmd, order, f1) →
  make_stream fs infnt image_tuples expert = (Ok (), Some out) →
  filed din i v a → filed dcmd i v c →
  from_stream fs infnt a ∧ from_source fs image_tuples c ∧
  get_image_id a = get_image_id c ∧
  get_image_ver a = v ∧ get_image_ver c = v ∧
  ∃ r, filter (λ r, get_image_id r = get_image_id c ∧ get_image_ver r = v)
              (written out) = [r] ∧
       same_but_stamps r c ∧ bits r = bits c.
Proof.
  intros Hin Hcmd Hmk Ha Hc.
  destruct (make_stream_runs _ _ _ _ _ _ _ _ _ _ Hin Hcmd Hmk)
    as (Hnd & Hkey & runs & Hw & Hruns).
  destruct (make_stream_chains _ _ _ _ _ _ _ _ _ _ Hin Hcmd Hmk) as (Hord & _).
  destruct (make_stream_Ok _ _ _ _ _ Hmk)
    as (lin & lcmd & din' & f0' & dcmd' & f1' & rss & f2 & Hin' & Hcmd' &
        Elin & Elcmd & Hlin & Hlcmd & _).
  rewrite Hin in Hin'. injection Hin' as <- <-.
  rewrite Hcmd in Hcmd'. injection Hcmd' as <- -> <-.
  destruct (filed_infile _ _ _ _ _ _ _ _ Elin Hlin Ha) as (Hta & Hva & Hfa).
  destruct (filed_cmdline _ _ _ _ _ _ _ _ _ Elcmd Hlcmd Hc)
    as (Htc & Hvc & Hfc & _).
  split; [done|]. split; [done|]. split; [by eapply type_of_inj|].
  split; [done|]. split; [done|].
  assert (merged_images din dcmd i !! v = Some c) as Hm
    by (apply merged_images_lookup; by left).
  assert (i ∈ image_order_of expert (first_occurrences lcmd.*1)) as Hi
    by (eapply Hord; by left).
  apply list_elem_of_split in Hi as (o1 & o2 & Ho).
  rewrite Ho in Hnd, Hruns.
  apply NoDup_app in Hnd as (_ & Ho1 & [Ho2 _]%NoDup_cons).
  apply Forall2_app_inv_l in Hruns as (rss1 & rss' & Hr1 & Hr' & ->).
  apply Forall2_cons_inv_l in Hr' as (rs & rss2 & Hrs & Hr2 & ->).
  assert (∀ os rss0 r, Forall2 (λ i run,
              Forall2 (λ r x, same_but_stamps r x ∧ minor (header r) = MINOR_VER)
                run (sorted_images (merged_images din dcmd i))) os rss0 →
            r ∈ concat rss0 → get_image_id r = get_image_id c → i ∈ os) as Hother.
  { intros os rss0 r Hall (run & Hrun & Hr)%elem_of_concat Hid.
    apply list_elem_of_lookup in Hrun as [k Hk].
    destruct (Forall2_lookup_r _ _ _ _ _ Hall Hk) as (j & Hj & Hfr).
    apply list_elem_of_lookup in Hr as [k' Hk'].
    destruct (Forall2_lookup_l _ _ _ _ _ Hfr Hk') as (x & Hx & Hsame & _).
    apply list_elem_of_lookup_2, sorted_images_elem in Hx as [w Hx].
    destruct (Hkey _ _ _ Hx) as [[dj Htj] _].
    rewrite <- (same_but_stamps_id _ _ Hsame), Hid in Htj.
    destruct Htc as [dc Htc]. assert (j = i) as -> by congruence.
    by eapply list_elem_of_lookup_2. }
  rewrite Hw, concat_app, concat_cons, !filter_app.
  rewrite (filter_none _ (concat rss1)), (filter_none _ (concat rss2)).
  2:{ intros r Hr [Hid _]. apply Ho2. by eapply Hother. }
  2:{ intros r Hr [Hid _]. apply (Ho1 i); [by eapply Hother|left]. }
  rewrite app_nil_l, app_nil_r.
  destruct (filter_related_unique
              (λ r, get_image_id r = get_image_id c ∧ get_image_ver r = v)
              _ rs _ c Hrs) as (r & Hf & Hsame & _).
  - intros r x [Hsame _] [w Hx]%sorted_images_elem.
    destruct (Hkey _ _ _ Hx) as [Htx Hvx].
    rewrite (same_but_stamps_id _ _ Hsame), (same_but_stamps_ver _ _ Hsame).
    split.
    + intros [_ Hv]. assert (w = v) as -> by congruence. congruence.
    + intros ->. split; [done|]. by destruct (Hkey _ _ _ Hm).
  - apply sorted_images_NoDup. intros w x Hx. by destruct (Hkey _ _ _ Hx).
  - apply sorted_images_elem. eauto.
  - exists r. split; [done|]. split; [done|]. unfold same_but_stamps in Hsame. tauto.
Qed.

(** ** C4: the bitmap of following images *)

Lemma has_id_app l1 l2 n : has_id (l1 ++ l2) n ↔ has_id l1 n ∨ has_id l2 n.
Proof. unfold has_id. by rewrite map_app, elem_of_app. Qed.

Lemma has_id_nil n : ¬ has_id [] n.
Proof. unfold has_id. cbn. apply not_elem_of_nil. Qed.

Lemma has_id_elem l n : has_id l n ↔ ∃ x, x ∈ l ∧ get_image_id x = n.
Proof.
  unfold has_id. change (map get_image_id l) with (get_image_id <$> l).
  rewrite list_elem_of_fmap. split.
  - intros (x & -> & Hx). eauto.
  - intros (x & Hx & <-). eauto.
Qed.

Lemma testbit_clear (f id n : Z) :
  0 ≤ id →
  Z.testbit (Z.land f (Z.lnot (Z.shiftl 1 id))) n = true ↔
  Z.testbit f n = true ∧ n ≠ id.
Proof.
  intros Hid. destruct (Z.ltb_spec n 0) as [Hneg|Hpos].
  - rewrite !Z.testbit_neg_r by done. split; [done|]. by intros [? _].
  - rewrite Z.land_spec, Z.lnot_spec, andb_true_iff, negb_true_iff by done.
    rewrite <- not_true_iff_false, testbit_shiftl_1 by done. done.
Qed.

Lemma stamp_images_nil images f :
  (stamp_images images f).1 = [] ↔ images = [].
Proof.
  pose proof (stamp_images_frame images f) as Hfr.
  apply Forall2_length in Hfr. split.
  - intros Hnil. rewrite Hnil in Hfr. by destruct images.
  - by intros ->.
Qed.

(** The bitmap that the images of one type carry: the bitmap the loop
    starts with, but for the last image, which has the bit of the type
    cleared, as has the bitmap that the loop leaves. *)
Lemma stamp_images_fim images f rs f' :
  stamp_images images f = (rs, f') →
  (∀ x y, x ∈ images → y ∈ images → get_image_id x = get_image_id y) →
  (images = [] → f' = f) ∧
  (∀ x, x ∈ images → f' = Z.land f (Z.lnot (Z.shiftl 1 (get_image_id x)))) ∧
  ∀ l1 r l2, rs = l1 ++ r :: l2 →
    following_images (header r) = match l2 with [] => f' | _ => f end.
Proof.
  revert rs. induction images as [|img images IH]; intros rs Hst Hsame.
  { injection Hst as <- <-. split; [done|]. split; [by intros ? ?%elem_of_nil|].
    by intros [|??] ??. }
  split; [done|]. cbn [stamp_images] in Hst. destruct images as [|next images].
  - injection Hst as <- <-. split.
    + intros x ->%list_elem_of_singleton. done.
    + intros [|? [|??]] r l2; [|done..]. intros [= <- <-]. done.
  - pose proof (stamp_images_nil (next :: images) f) as Hnil.
    destruct (stamp_images (next :: images) f) as [rs1 f1] eqn:Hrest.
    injection Hst as <- <-.
    destruct (IH rs1 eq_refl) as (_ & Hf' & Hfol).
    { intros x y Hx Hy. apply Hsame; by right. }
    split.
    + intros x Hx. rewrite (Hsame x next Hx) by (right; left).
      apply Hf'. left.
    + intros [|r1 l1] r l2.
      * intros [= <- <-]. cbn in Hnil. destruct rs1; [|done].
        by destruct Hnil as [Hnil _]; specialize (Hnil eq_refl).
      * intros [= <- ->]. by eapply Hfol.
Qed.

Lemma stamp_types_ids runs f rss f' :
  stamp_types runs f = (rss, f') →
  Forall2 (λ run rs, map get_image_id rs = map get_image_id run) runs rss.
Proof.
  apply stamp_types_Forall2. intros run g. apply stamp_images_ids.
Qed.

Lemma Forall2_ids_has_id runs rss n :
  Forall2 (λ run rs, map get_image_id rs = map get_image_id run) runs rss →
  has_id (concat rss) n ↔ has_id (concat runs) n.
Proof.
  induction 1 as [|run rs runs rss Hid _ IH]; [done|].
  cbn [concat]. rewrite !has_id_app, IH. unfold has_id. by rewrite Hid.
Qed.

(** The bitmap stamped on an image is the set of the image IDs of the
    images written after it. *)
Lemma stamp_types_fim runs f rss f' :
  stamp_types runs f = (rss, f') → separate_types runs →
  (∀ n, Z.testbit f n = true ↔ has_id (concat runs) n) →
  ∀ l1 r l2 n, concat rss = l1 ++ r :: l2 →
    Z.testbit (following_images (header r)) n = true ↔ has_id l2 n.
Proof.
  revert f rss. induction runs as [|run runs IH]; intros f rss Hst Hsep Hf.
  { injection Hst as <- <-. by intros [|??] ???. }
  cbn [stamp_types] in Hst.
  destruct (stamp_images run f) as [rs f1] eqn:Hrun.
  destruct (stamp_types runs f1) as [rss' f2] eqn:Hrest.
  injection Hst as <- <-.
  destruct Hsep as (Hsame & Hother & Hpos & Hsep).
  destruct (stamp_images_fim _ _ _ _ Hrun Hsame) as (Hnil & Hf1 & Hfol).
  pose proof (stamp_images_ids run f) as Hids. rewrite Hrun in Hids. cbn in Hids.
  assert (∀ n, has_id (concat rss') n ↔ has_id (concat runs) n) as Hrest_ids.
  { intros n. eapply Forall2_ids_has_id, stamp_types_ids, Hrest. }
  assert (∀ n, Z.testbit f1 n = true ↔ has_id (concat runs) n) as Hf1_bits.
  { intros n. destruct run as [|x run].
    - rewrite Hnil by done. apply Hf.
    - rewrite (Hf1 x) by left. rewrite testbit_clear by (apply Hpos; left).
      rewrite Hf. cbn [concat]. rewrite has_id_app. split.
      + intros [[Hn|Hn] Hne]; [|done]. apply has_id_elem in Hn as (y & Hy & <-).
        destruct Hne. apply Hsame; [done|left].
      + intros Hn. split; [by right|]. apply has_id_elem in Hn as (y & Hy & <-).
        intros Heq. by apply (Hother x y); [left| |]. }
  intros l1 r l2 n Hsplit. cbn [concat] in Hsplit.
  apply app_eq_inv in Hsplit as [(k & -> & Hk)|(k & -> & Hk)];
    [|by eapply IH].
  destruct k as [|r' k]; [by eapply (IH _ _ Hrest Hsep Hf1_bits [])|].
  injection Hk as <- ->. rewrite (Hfol _ _ _ eq_refl).
  destruct k as [|y k].
  { cbn. by rewrite Hf1_bits, Hrest_ids. }
  rewrite Hf. cbn [concat]. rewrite !has_id_app, Hrest_ids.
  assert (has_id (y :: k) n ↔ has_id run n) as ->; [|done].
  assert (∀ z, z ∈ y :: k → ∃ x, x ∈ run ∧ get_image_id x = get_image_id z)
    as Hback.
  { intros z Hz. apply has_id_elem. unfold has_id. rewrite <- Hids.
    apply has_id_elem. exists z. split; [|done].
    apply elem_of_app. right. by right. }
  split.
  - intros (z & Hz & <-)%has_id_elem. apply has_id_elem.
    destruct (Hback z Hz) as (x & ? & ?). eauto.
  - intros (x & Hx & <-)%has_id_elem. apply has_id_elem. exists y.
    split; [left|]. destruct (Hback y) as (x' & Hx' & <-); [left|].
    by apply Hsame.
Qed.

Lemma bitmap_of_testbit l n :
  (∀ x, x ∈ l → 0 ≤ get_image_id x) →
  Z.testbit (bitmap_of l) n = true ↔ has_id l n.
Proof.
  induction l as [|x l IH]; intros Hpos.
  - cbn. rewrite Z.testbit_0_l. split; [done|]. by intros ?%has_id_nil.
  - cbn [bitmap_of foldr]. fold (bitmap_of l).
    assert (0 ≤ get_image_id x) by (apply Hpos; left).
    rewrite Z.lor_spec, orb_true_iff. rewrite testbit_shiftl_1 by done.
    rewrite IH by (intros; apply Hpos; by right).
    change (x :: l) with ([x] ++ l). rewrite has_id_app.
    unfold has_id at 2. cbn. rewrite list_elem_of_singleton. done.
Qed.

(** The images of the types of a duplicate-free order are separate. *)
Lemma merged_separate_types din dcmd order :
  NoDup order →
  (∀ i v x, merged_images din dcmd i !! v = Some x → type_of x i) →
  separate_types (map (λ i, sorted_images (merged_images din dcmd i)) order).
Proof.
  intros Hnd Hty.
  assert (∀ i x, x ∈ sorted_images (merged_images din dcmd i) → type_of x i)
    as Hrun.
  { intros i x [v Hx]%sorted_images_elem. by eapply Hty. }
  induction order as [|i order IH]; [done|].
  apply NoDup_cons in Hnd as [Hi Hnd]. cbn [map separate_types].
  split; [|split; [|split; [|by apply IH]]].
  - intros x y Hx Hy. eapply type_of_inj; by apply Hrun.
  - intros x y Hx (run & Hrun' & Hy)%elem_of_concat Hid.
    change (map ?f order) with (f <$> order) in Hrun'.
    apply list_elem_of_fmap in Hrun' as (j & -> & Hj).
    apply Hrun in Hx as [dx Hx], Hy as [dy Hy]. rewrite Hid in Hx.
    assert (i = j) as -> by congruence. done.
  - intros x Hx. apply Hrun in Hx. apply type_of_id_range in Hx. lia.
Qed.

Lemma merged_images_is_Some din dcmd i v x :
  filed din i v x ∨ filed dcmd i v x →
  is_Some (merged_images din dcmd i !! v).
Proof.
  intros Hf.
  destruct (dcmd !! i ≫= (λ m : gmap Z Image, m !! v)) as [c|] eqn:Hc.
  - exists c. apply merged_images_lookup. left. unfold filed.
    destruct (dcmd !! i) as [m|]; [|done]. cbn in Hc. by exists m.
  - assert (∀ c, ¬ filed dcmd i v c) as Hno.
    { intros c (m & Hm & Hv). rewrite Hm in Hc. cbn in Hc. congruence. }
    destruct Hf as [Hf|Hf]; [|by destruct (Hno x)].
    exists x. apply merged_images_lookup. by right.
Qed.

(** C4, as stated, fails: in expert mode with an input stream, the types
    that only the input stream holds keep their bit in every image
    written, and no image of these types is written.  Here the input
    stream holds [bl2] and [bl31], the only source is a [bl31], and the one
    image written has the bit of [bl2] set. *)
Lemma following_images_expert_counterexample :
  ¬ (∀ fs infnt image_tuples expert out l1 r l2,
       make_stream fs infnt image_tuples expert = (Ok (), Some out) →
       written out = l1 ++ r :: l2 →
       following_images (header r) = bitmap_of l2).
Proof.
  intros Hclaim.
  assert (make_stream old_fs ["old.bfb"%string] [("bl31", "=new")]%string true
          = (Ok (), Some expert_output)) as Hmk by (vm_compute; reflexivity).
  assert (written expert_output = [] ++ expert_first :: []) as Hsplit
    by (vm_compute; reflexivity).
  specialize (Hclaim _ _ _ _ _ _ _ _ Hmk Hsplit). clear Hmk Hsplit.
  vm_compute in Hclaim. discriminate Hclaim.
Qed.

(** After the reading loops, [fim_map] has the bits of the image IDs of
    the images that will be written, provided every type read from an
    input stream is in the order of emission. *)
Lemma fim_map_after_reading fs infnt image_tuples expert
    (lin lcmd : list (string * Image)) din f0 dcmd f1 n :
  (din, f0) = foldl file_image (∅, 0) lin →
  (dcmd, f1) = foldl file_image (∅, f0) lcmd →
  Forall (λ x, type_of x.2 x.1 ∧ from_stream fs infnt x.2) lin →
  Forall2 (λ t x, Image_of_file fs t.2 t.1 = Ok x.2 ∧ type_of x.2 x.1)
          image_tuples lcmd →
  (expert = true → infnt = []) →
  Z.testbit f1 n = true ↔
  has_id (concat (map (λ i, sorted_images (merged_images din dcmd i))
                      (image_order_of expert (first_occurrences lcmd.*1)))) n.
Proof.
  intros Elin Elcmd Hlin Hlcmd Hexp.
  assert (Forall (λ x : string * Image, type_of x.2 x.1) lin) as Hty_in.
  { eapply Forall_impl; [exact Hlin|]. by intros ? [? _]. }
  assert (Forall (λ x : string * Image, type_of x.2 x.1) lcmd) as Hty_cmd.
  { clear -Hlcmd. induction Hlcmd as [|???? [_ ?]]; by constructor. }
  replace f1 with (foldl file_image (∅, f0) lcmd).2 by (by rewrite <- Elcmd).
  rewrite fold_fim by done.
  replace f0 with (foldl file_image (∅, 0) lin).2 by (by rewrite <- Elin).
  rewrite fold_fim by done. rewrite Z.testbit_0_l.
  rewrite has_id_elem. split.
  - intros Hbit.
    assert (∃ i x, (filed dcmd i (get_image_ver x) x
                    ∨ (expert = false ∧ filed din i (get_image_ver x) x))
                   ∧ get_image_id x = n) as (i & x & Hf & Hid).
    { destruct Hbit as [[?|([i x] & Hx & Hid)]|([i x] & Hx & Hid)]; [done|..].
      - assert (expert = false) as Hdef.
        { destruct expert; [|done]. rewrite Forall_forall in Hlin.
          destruct (Hlin _ Hx) as (_ & infn & ? & ? & ? & Hinfn & _).
          rewrite Hexp in Hinfn by done. by apply elem_of_nil in Hinfn. }
        destruct (fold_filed_complete lin ∅ 0 _ _ Hx) as (x' & Hf & Hx' & Hv).
        rewrite <- Elin in Hf. cbn [fst] in Hf.
        exists i, x'. rewrite Hv. split; [by right|].
        rewrite Forall_forall in Hty_in. rewrite <- Hid.
        eapply type_of_inj; [apply (Hty_in _ Hx')|apply (Hty_in _ Hx)].
      - destruct (fold_filed_complete lcmd ∅ f0 _ _ Hx) as (x' & Hf & Hx' & Hv).
        rewrite <- Elcmd in Hf. cbn [fst] in Hf.
        exists i, x'. rewrite Hv. split; [by left|].
        rewrite Forall_forall in Hty_cmd. rewrite <- Hid.
        eapply type_of_inj; [apply (Hty_cmd _ Hx')|apply (Hty_cmd _ Hx)]. }
    pose proof (image_order_complete _ _ _ _ _ _ _ _ _ _ _ _ _
                  Elin Elcmd Hlin Hlcmd Hf) as Hi.
    destruct (merged_images_is_Some din dcmd i (get_image_ver x) x) as [y Hy];
      [tauto|].
    exists y. split.
    + apply elem_of_concat. eexists. split.
      * change (map ?g ?l) with (g <$> l). apply list_elem_of_fmap. eauto.
      * apply sorted_images_elem. eauto.
    + destruct (merged_images_filed _ _ _ _ _ _ _ _ _ _ _ _ Elin Elcmd Hlin Hlcmd Hy)
        as (Hty & _).
      rewrite <- Hid. eapply type_of_inj; [exact Hty|].
      destruct Hf as [Hf|[_ Hf]].
      * by destruct (filed_cmdline _ _ _ _ _ _ _ _ _ Elcmd Hlcmd Hf) as (? & _).
      * by destruct (filed_infile _ _ _ _ _ _ _ _ Elin Hlin Hf) as (? & _).
  - intros (y & (run & Hrun & Hy)%elem_of_concat & Hid).
    change (map ?g ?l) with (g <$> l) in Hrun.
    apply list_elem_of_fmap in Hrun as (i & -> & _).
    apply sorted_images_elem in Hy as [v Hy].
    apply merged_images_lookup in Hy as [Hf|[_ Hf]].
    + right. replace dcmd with (foldl file_image (∅, f0) lcmd).1 in Hf
        by (by rewrite <- Elcmd).
      apply fold_filed in Hf as [Hf|[Hin _]]; [by apply filed_empty in Hf|].
      by exists (i, y).
    + left; right. replace din with (foldl file_image (∅, 0) lin).1 in Hf
        by (by rewrite <- Elin).
      apply fold_filed in Hf as [Hf|[Hin _]]; [by apply filed_empty in Hf|].
      by exists (i, y).
Qed.

(** C4, amended. Following-images bitmap invariant, for make_stream in
    default mode, or in expert mode without input streams (the command
    line admits no input stream in expert mode): every image written has
    [following_images] equal to the bitmap of the image IDs of the images
    written after it; bit [n] is set exactly when an image of ID [n] is
    written later. *)
Theorem following_images_bitmap fs infnt image_tuples expert out l1 r l2 :
  make_stream fs infnt image_tuples expert = (Ok (), Some out) →
  (expert = true → infnt = []) →
  written out = l1 ++ r :: l2 →
  following_images (header r) = bitmap_of l2 ∧
  ∀ n, Z.testbit (following_images (header r)) n = true ↔
       ∃ y, y ∈ l2 ∧ get_image_id y = n.
Proof.
  intros Hmk Hexp Hsplit.
  destruct (make_stream_Ok _ _ _ _ _ Hmk)
    as (lin & lcmd & din & f0 & dcmd & f1 & rss & f2 & Hin & Hcmd &
        Elin & Elcmd & Hlin & Hlcmd & Hst & Hw).
  destruct (make_stream_runs _ _ _ _ _ _ _ _ _ _ Hin Hcmd Hmk)
    as (Hnd & Hkey & _).
  destruct (make_stream_chains _ _ _ _ _ _ _ _ _ _ Hin Hcmd Hmk)
    as (_ & runs & Hw' & Hruns).
  assert (∀ n, Z.testbit (following_images (header r)) n = true ↔ has_id l2 n)
    as Hbits.
  { intros n. eapply (stamp_types_fim _ _ _ _ Hst).
    - apply merged_separate_types; [done|]. intros i v x Hx.
      by destruct (Hkey _ _ _ Hx).
    - intros m. by eapply fim_map_after_reading.
    - by rewrite <- Hw. }
  split; [|intros n; by rewrite Hbits, has_id_elem].
  apply Z.bits_inj'. intros n _. apply eq_true_iff_eq.
  rewrite Hbits, bitmap_of_testbit; [done|].
  intros y Hy.
  assert (y ∈ concat runs) as (run & Hrun & Hy')%elem_of_concat.
  { rewrite <- Hw', Hsplit. apply elem_of_app. right. by right. }
  apply list_elem_of_lookup in Hrun as [k Hk].
  destruct (Forall2_lookup_r _ _ _ _ _ Hruns Hk) as (i & _ & _ & _ & Hty & _).
  rewrite Forall_forall in Hty. apply Hty, type_of_id_range in Hy'. lia.
Qed.

(** ** C9: sources of unknown type *)

Lemma split_idstr_unknown idstr :
  ¬ name_in_table (strip_version idstr) →
  split_idstr idstr = Ok (idstr, 0) ∧ image_table !! idstr = None.
Proof.
  intros Hno. rewrite name_in_table_lookup in Hno.
  assert (image_table !! idstr = None) as Hnone.
  { destruct (image_table !! idstr) eqn:E; [|done]. destruct Hno.
    rewrite table_names_no_suffix by eauto. eauto. }
  split; [|done]. unfold split_idstr. unfold strip_version in Hno.
  destruct (rsplit1 "-" idstr) as [[img [|c digits]]|]; try done.
  destruct (Ascii.eqb_spec c "v") as [->|Hc].
  2:{ by destruct c as [[] [] [] [] [] [] [] []]. }
  destruct (isdigit digits); [|done].
  by rewrite bool_decide_eq_false_2.
Qed.

Lemma read_cmdline_Ok fs image_tuples d order f res idver fn :
  read_cmdline fs image_tuples d order f = Ok res →
  (idver, fn) ∈ image_tuples →
  ∃ img name, Image_of_file fs fn idver = Ok img ∧ type_of img name.
Proof.
  destruct res as [[d' order'] f']. intros Hr Hin.
  apply read_cmdline_fold in Hr as (l & Hall & _).
  apply list_elem_of_lookup in Hin as [k Hk].
  destruct (Forall2_lookup_l _ _ _ _ _ Hall Hk) as ([name img] & _ & ? & ?).
  eauto.
Qed.

(** C9. A source whose type name, without its version suffix, is not in
    the image type table: [Image.__set_from_file] raises the lookup error
    of [image_table] (UnknownImageType) as soon as the payload is loaded,
    and never returns an image; make_stream then fails before it opens the
    output file, so no byte is written. *)
Theorem unknown_image_type fs infile idstr :
  ¬ name_in_table (strip_version idstr) →
  (∀ data, load_source fs infile = Ok data →
           Image_set_from_file fs infile idstr = Raise (KeyError_name idstr)) ∧
  (∀ img, Image_set_from_file fs infile idstr ≠ Ok img) ∧
  (∀ infnt image_tuples expert,
     (idstr, infile) ∈ image_tuples →
     ∃ e, make_stream fs infnt image_tuples expert = (Raise e, None)).
Proof.
  intros Hno. destruct (split_idstr_unknown _ Hno) as [Hsplit Hnone].
  assert (∀ data, load_source fs infile = Ok data →
            Image_set_from_file fs infile idstr = Raise (KeyError_name idstr))
    as Hkey.
  { intros data Hload. unfold Image_set_from_file.
    rewrite Hload, bind_Ok, Hsplit, bind_Ok, Hnone. done. }
  assert (∀ img, Image_set_from_file fs infile idstr ≠ Ok img) as Hfail.
  { intros img Himg. destruct (load_source fs infile) as [data|] eqn:Hload.
    - rewrite (Hkey data eq_refl) in Himg. done.
    - unfold Image_set_from_file in Himg. by rewrite Hload in Himg. }
  split; [done|]. split; [done|].
  intros infnt image_tuples expert Hin. unfold make_stream.
  destruct (read_infiles fs infnt ∅ 0) as [[din f0]|e]; [|eauto].
  destruct (read_cmdline fs image_tuples ∅ [] f0) as [res|e] eqn:Hcmd; [|eauto].
  destruct (read_cmdline_Ok _ _ _ _ _ _ _ _ Hcmd Hin) as (img & name & Himg & Hty).
  destruct (Image_of_file_filed _ _ _ _ _ Himg Hty) as (_ & _ & Hset).
  by destruct (Hfail img).
Qed.

Lemma unknown_image_type_witness :
  (∀ data, load_source no_files "=payload" = Ok data →
           Image_set_from_file no_files "=payload" "foo-v1"
           = Raise (KeyError_name "foo-v1")) ∧
  (∀ img, Image_set_from_file no_files "=payload" "foo-v1" ≠ Ok img) ∧
  (∀ infnt image_tuples expert,
     ("foo-v1"%string, "=payload"%string) ∈ image_tuples →
     ∃ e, make_stream no_files infnt image_tuples expert = (Raise e, None)).
Proof.
  apply (unknown_image_type no_files "=payload" "foo-v1").
  rewrite name_in_table_lookup. vm_compute. by intros [? ?].
Defined.

(** ** C10: input streams with an unknown image ID *)

(** The reading loop goes through the images of known types. *)
Lemma read_infile_reach fuel data imgs s d f :
  stream_prefix data imgs s →
  Forall (λ x, id_in_table (get_image_id x)) imgs →
  (length data < fuel)%nat →
  ∃ fuel' d' f', (length s < fuel')%nat ∧
    read_infile fuel data d f = read_infile fuel' s d' f'.
Proof.
  intros Hpre. revert fuel d f.
  induction Hpre as [s|s img s' imgs rest Himg Hpre IH]; intros fuel d f Hknown Hlt.
  { by exists fuel, d, f. }
  apply Forall_cons in Hknown as [[[name desc] Hrev]%id_in_table_lookup Hknown].
  destruct fuel as [|fuel]; [lia|]. cbn [read_infile]. unfold Image_of_stream.
  rewrite Himg, Hrev. apply IH; [done|].
  apply Image_set_from_stream_shorter in Himg. lia.
Qed.

Lemma read_infile_known_stream fs fn d f :
  known_stream fs fn →
  ∃ data d' f', fs fn = Some data ∧
    read_infile (S (length data)) data d f = Ok (d', f').
Proof.
  intros (data & imgs & Hfs & Hpre & Hknown). exists data.
  destruct (read_infile_reach (S (length data)) data imgs [] d f Hpre Hknown)
    as (fuel' & d' & f' & Hfuel & ->); [lia|].
  exists d', f'. split; [done|]. destruct fuel' as [|fuel']; [cbn in Hfuel; lia|].
  done.
Qed.

Lemma read_infiles_known fs pre rest d f :
  Forall (known_stream fs) pre →
  ∃ d' f', read_infiles fs (pre ++ rest) d f = read_infiles fs rest d' f'.
Proof.
  intros Hpre. revert d f. induction Hpre as [|fn pre Hfn _ IH]; intros d f.
  { by exists d, f. }
  destruct (read_infile_known_stream fs fn d f Hfn) as (data & d1 & f1 & Hfs & Hr).
  cbn [app read_infiles]. rewrite Hfs, Hr, bind_Ok. apply IH.
Qed.

Lemma append_empty_r (a : string) : a +:+ EmptyString = a.
Proof.
  induction a as [|x a IH]; [done|].
  change (String x (a +:+ EmptyString) = String x a). by rewrite IH.
Qed.

(** C10. An input stream holds, after images of known types, an image that
    parses but whose image_id is not in the image type table (the input
    files before it hold images of known types only): make_stream fails
    with the lookup error of [rev_image_table] for this ID and does not
    open the output file.  dump_stream, at the same image, makes the name
    ['image_id_N'] (with the version suffix when minor is 2) and goes on
    with the rest of the stream. *)
Theorem unknown_id_in_input_stream fs infnt image_tuples expert
    pre infn post data imgs s img rest :
  infnt = pre ++ infn :: post →
  Forall (known_stream fs) pre →
  fs infn = Some data →
  stream_prefix data imgs s →
  Forall (λ x, id_in_table (get_image_id x)) imgs →
  Image_set_from_stream s = Ok (img, rest) →
  ¬ id_in_table (get_image_id img) →
  make_stream fs infnt image_tuples expert
  = (Raise (KeyError_id (get_image_id img)), None) ∧
  (∃ suffix, (dump_names img).1
             = ("image_id_" +:+ fmt_d (get_image_id img)) +:+ suffix) ∧
  ∀ verbose do_dump do_extract prefix fuel w,
    ∃ w', dump_image verbose do_dump do_extract prefix img w = (Ok (), w') ∧
          dump_loop (S fuel) s verbose do_dump do_extract prefix w
          = dump_loop fuel rest verbose do_dump do_extract prefix w'.
Proof.
  intros -> Hpre Hfs Hreach Hknown Himg Hid.
  rewrite id_in_table_lookup in Hid.
  assert (rev_image_table !! get_image_id img = None) as Hrev.
  { destruct (rev_image_table !! get_image_id img); [|done]. destruct Hid; eauto. }
  split; [|split].
  - unfold make_stream.
    destruct (read_infiles_known fs pre (infn :: post) ∅ 0 Hpre) as (d & f & ->).
    cbn [read_infiles]. rewrite Hfs.
    destruct (read_infile_reach (S (length data)) data imgs s d f Hreach Hknown)
      as (fuel' & d' & f' & Hfuel & ->); [lia|].
    destruct fuel' as [|fuel']; [lia|]. cbn [read_infile].
    unfold Image_of_stream. rewrite Himg, Hrev. done.
  - unfold dump_names. rewrite Hrev. destruct (2 <=? minor (header img)).
    + eexists. reflexivity.
    + exists EmptyString. symmetry. apply append_empty_r.
  - intros verbose do_dump do_extract prefix fuel w.
    assert (is_Some (bits img)) as [b Hb].
    { destruct (Image_set_from_stream_outcomes s)
        as [[_ E]|[[_ E]|[(_ & _ & msg & E)|(_ & _ & h & _ & Hcases)]]];
        try (rewrite E in Himg; discriminate).
      destruct Hcases as [[_ E]|[(_ & _ & E)|(_ & _ & E)]];
        rewrite E in Himg; try discriminate.
      injection Himg as <- _. eauto. }
    cbn [dump_loop]. unfold Image_of_stream. rewrite Himg.
    unfold dump_image. destruct (dump_names img) as [fn desc].
    rewrite Hb. destruct do_extract; eauto.
Qed.

Lemma unknown_id_in_input_stream_witness :
  make_stream (λ _, Some unknown_id_header) ["in.bfb"%string] [] false
  = (Raise (KeyError_id 200), None) ∧
  (∃ suffix, (dump_names (mkImage (mkImageHdr 1 2 200 0 0 0 0 0) (Some []))).1
             = ("image_id_" +:+ fmt_d 200) +:+ suffix) ∧
  ∀ verbose do_dump do_extract prefix fuel w,
    ∃ w', dump_image verbose do_dump do_extract prefix
            (mkImage (mkImageHdr 1 2 200 0 0 0 0 0) (Some [])) w = (Ok (), w') ∧
          dump_loop (S fuel) unknown_id_header verbose do_dump do_extract prefix w
          = dump_loop fuel [] verbose do_dump do_extract prefix w'.
Proof.
  apply (unknown_id_in_input_stream (λ _, Some unknown_id_header)
           ["in.bfb"%string] [] false [] "in.bfb"%string [] unknown_id_header
           [] unknown_id_header (mkImage (mkImageHdr 1 2 200 0 0 0 0 0) (Some []))
           []).
  - reflexivity.
  - constructor.
  - reflexivity.
  - constructor.
  - constructor.
  - vm_compute. reflexivity.
  - rewrite id_in_table_lookup. vm_compute. by intros [? ?].
Defined.

(** ** The sample run *)

Lemma sample_read_infiles :
  read_infiles old_fs ["old.bfb"%string] ∅ 0
  = Ok (sample_infile_images.1, sample_infile_images.2).
Proof. vm_compute. reflexivity. Qed.

Lemma sample_read_cmdline :
  read_cmdline old_fs new_tuples ∅ [] sample_infile_images.2
  = Ok (sample_cmdline_images.1.1, sample_cmdline_images.1.2,
        sample_cmdline_images.2).
Proof. vm_compute. reflexivity. Qed.

Lemma sample_make_stream :
  make_stream old_fs ["old.bfb"%string] new_tuples false
  = (Ok (), Some sample_output).
Proof. vm_compute. reflexivity. Qed.

Lemma version_chaining_witness :
  (∀ i v x, filed sample_cmdline_images.1.1 i v x
            ∨ (false = false ∧ filed sample_infile_images.1 i v x) →
            i ∈ image_order_of false sample_cmdline_images.1.2) ∧
  ∃ runs, written sample_output = concat runs ∧
    Forall2 (λ i run,
        let versions :=
          sorted_versions (merged_images sample_infile_images.1
                                         sample_cmdline_images.1.1 i) in
        StronglySorted Z.lt versions ∧
        (∀ v, v ∈ versions ↔
              is_Some (merged_images sample_infile_images.1
                                     sample_cmdline_images.1.1 i !! v)) ∧
        Forall (λ r, type_of r i) run ∧
        map get_image_ver run = versions ∧
        map (λ r, next_img_ver (header r)) run = next_versions versions)
      (image_order_of false sample_cmdline_images.1.2) runs.
Proof.
  apply (version_chaining old_fs ["old.bfb"%string] new_tuples false
           sample_infile_images.1 sample_infile_images.2
           sample_cmdline_images.1.1 sample_cmdline_images.1.2
           sample_cmdline_images.2 sample_output).
  - vm_compute. reflexivity.
  - vm_compute. reflexivity.
  - vm_compute. reflexivity.
Defined.

Lemma following_images_bitmap_witness :
  following_images (header sample_first) = bitmap_of sample_rest ∧
  ∀ n, Z.testbit (following_images (header sample_first)) n = true ↔
       ∃ y, y ∈ sample_rest ∧ get_image_id y = n.
Proof.
  apply (following_images_bitmap old_fs ["old.bfb"%string] new_tuples false
           sample_output [] sample_first sample_rest).
  - vm_compute. reflexivity.
  - discriminate.
  - vm_compute. reflexivity.
Defined.

Lemma emission_order_witness :
  ∃ runs, written sample_output = concat runs ∧
    Forall2 (λ i run, Forall (λ r, type_of r i) run ∧ (false = true → run ≠ []))
      (map (λ x, x.1.1) image_list) runs.
Proof.
  apply (emission_order old_fs ["old.bfb"%string] new_tuples false sample_output).
  vm_compute. reflexivity.
Defined.

Lemma merge_priority_witness :
  from_stream old_fs ["old.bfb"%string] sample_old_bl31 ∧
  from_source old_fs new_tuples sample_new_bl31 ∧
  get_image_id sample_old_bl31 = get_image_id sample_new_bl31 ∧
  get_image_ver sample_old_bl31 = 0 ∧ get_image_ver sample_new_bl31 = 0 ∧
  ∃ r, filter (λ r, get_image_id r = get_image_id sample_new_bl31
                    ∧ get_image_ver r = 0)
              (written sample_output) = [r] ∧
       same_but_stamps r sample_new_bl31 ∧ bits r = bits sample_new_bl31.
Proof.
  apply (merge_priority old_fs ["old.bfb"%string] new_tuples false
           sample_infile_images.1 sample_infile_images.2
           sample_cmdline_images.1.1 sample_cmdline_images.1.2
           sample_cmdline_images.2 sample_output "bl31"%string 0).
  - vm_compute. reflexivity.
  - vm_compute. reflexivity.
  - vm_compute. reflexivity.
  - exists (default ∅ (sample_infile_images.1 !! "bl31"%string)).
    split; vm_compute; reflexivity.
  - exists (default ∅ (sample_cmdline_images.1.1 !! "bl31"%string)).
    split; vm_compute; reflexivity.
Defined.

Lemma assembler_frame_witness :
  minor (header sample_first) = 2 ∧
  ∃ r0, (from_stream old_fs ["old.bfb"%string] r0
         ∨ from_source old_fs new_tuples r0) ∧
        same_but_stamps sample_first r0.
Proof.
  apply (assembler_frame old_fs ["old.bfb"%string] new_tuples false
           sample_output sample_first).
  - vm_compute. reflexivity.
  - vm_compute. left.
Defined.

(** The sample run writes [bl2] versions 0 and 1, then the new [bl31],
    then the boot arguments. *)
Example sample_output_images :
  map (λ r, (get_image_id r, get_image_ver r, next_img_ver (header r),
             following_images (header r), bits r))
      (written sample_output)
  = [(1, 0, 1, Z.lor (Z.lor (Z.shiftl 1 1) (Z.shiftl 1 3)) (Z.shiftl 1 59),
      Some (utf8 "first"));
     (1, 1, 0, Z.lor (Z.shiftl 1 3) (Z.shiftl 1 59), Some (utf8 "second"));
     (3, 0, 0, Z.shiftl 1 59, Some (utf8 "new"));
     (59, 0, 0, 0, Some (utf8 "console=ttyAMA0"))].
Proof. vm_compute. reflexivity. Qed.

(** ** make_stream does not fail once its inputs are read *)


Lemma Image_set_from_stream_bits s img rest :
  Image_set_from_stream s = Ok (img, rest) → is_Some (bits img).
Proof.
  intros Himg.
  destruct (Image_set_from_stream_outcomes s)
    as [[_ E]|[[_ E]|[(_ & _ & msg & E)|(_ & _ & h & _ & Hcases)]]];
    try (rewrite E in Himg; discriminate).
  destruct Hcases as [[_ E]|[(_ & _ & E)|(_ & _ & E)]];
    rewrite E in Himg; try discriminate.
  injection Himg as <- _. eauto.
Qed.

Lemma stream_prefix_elem s imgs rest x :
  stream_prefix s imgs rest → x ∈ imgs →
  ∃ s' rest', Image_set_from_stream s' = Ok (x, rest').
Proof.
  induction 1 as [|s img s' imgs rest Himg _ IH]; [by intros ?%elem_of_nil|].
  intros [->|Hx]%elem_of_cons; eauto.
Qed.

Lemma Image_write_Ok img bytes b :
  bits img = Some b → 0 ≤ following_images (header img) < 2 ^ 64 →
  ∃ hb, ImageHdr_get_bits (header img) = Ok hb ∧
        Image_write img bytes = (Ok (), bytes ++ hb ++ b ++ get_padding img).
Proof.
  intros Hb Hf. unfold Image_write. rewrite ImageHdr_get_bits_ok by done.
  eexists. split; [done|]. by rewrite Hb, <- app_assoc.
Qed.




(** * Further properties *)

(** ** Padding *)

(** X1. The padding law of [num_padding_bytes], for every integer length:
    the padding is from 0 to 7 bytes, it is [(8 - L mod 8) mod 8], and it
    completes the length to a multiple of 8. *)
Theorem padding_law (L : Z) :
  0 ≤ num_padding_bytes L < 8 ∧
  num_padding_bytes L = (8 - L mod 8) mod 8 ∧
  (L + num_padding_bytes L) mod 8 = 0.
Proof.
  split; [apply num_padding_bytes_range|]. split; [apply num_padding_bytes_spec|].
  rewrite num_padding_bytes_spec. Z.div_mod_to_equations. lia.
Qed.

(** ** The header encoder *)

(** X2. [ImageHdr.get_bits] raises exactly when [following_images] is not
    an unsigned 64-bit number; the masks keep the two other words in range
    whatever the fields hold, negative numbers included, and the result has
    the three words in little-endian order. *)
Theorem get_bits_errors (h : ImageHdr) :
  ImageHdr_get_bits h
  = if bool_decide (0 ≤ following_images h < 2 ^ 64)
    then Ok (le_bytes 8 (ImageHdr_w0 h) ++ le_bytes 8 (ImageHdr_w1 h)
             ++ le_bytes 8 (following_images h))
    else Raise StructError.
Proof.
  case_bool_decide as Hf; [by apply ImageHdr_get_bits_ok|].
  unfold ImageHdr_get_bits, pack_QQQ.
  rewrite (pack_Q_ok _ (w0_range h)), (pack_Q_ok _ (w1_range h)), !bind_Ok.
  unfold pack_Q.
  destruct (Z.leb_spec 0 (following_images h)),
    (Z.ltb_spec (following_images h) (2 ^ 64)); try done. lia.
Qed.

(** X3. [ImageHdr.get_bits] truncates: the decoder reads back the low bits
    of every field (4 bits of major, minor and the two versions, 8 of
    image_id, 32 of image_len and image_crc), and accepts the bytes when
    the low bits of major are 1 and those of minor at most 2. *)
Theorem get_bits_truncates (h : ImageHdr) (bs rest : list byte) :
  ImageHdr_get_bits h = Ok bs →
  Z.land (major h) 0xF = 1 →
  Z.land (minor h) 0xF ≤ 2 →
  ImageHdr_set_from_file (bs ++ rest)
  = Ok (mkImageHdr (major h mod 2 ^ 4) (minor h mod 2 ^ 4)
          (image_id h mod 2 ^ 8) (next_img_ver h mod 2 ^ 4)
          (cur_img_ver h mod 2 ^ 4) (image_len h mod 2 ^ 32)
          (image_crc h mod 2 ^ 32) (following_images h), rest).
Proof.
  intros Hbs Hmajor Hminor.
  rewrite (ImageHdr_decode_encode h bs rest Hbs Hmajor Hminor).
  change 0xF with (Z.ones 4). change 0xFF with (Z.ones 8).
  change 0xFFFFFFFF with (Z.ones 32).
  by rewrite !Z.land_ones by lia.
Qed.

Lemma get_bits_truncates_witness :
  ∃ bs, ImageHdr_get_bits wide_hdr = Ok bs ∧
    ImageHdr_set_from_file (bs ++ [x41])
    = Ok (mkImageHdr 1 2 62 1 2 5 9 7, [x41]).
Proof.
  destruct (ImageHdr_get_bits wide_hdr) as [bs|] eqn:Hbs; [|by vm_compute in Hbs].
  exists bs. split; [done|].
  rewrite (get_bits_truncates wide_hdr bs [x41] Hbs); [reflexivity| |].
  - reflexivity.
  - vm_compute. discriminate.
Defined.

(** ** Sources and their version suffix *)

Lemma rsplit1_append (sep : ascii) (l r : string) :
  rsplit1 sep r = None → rsplit1 sep (l +:+ String sep r) = Some (l, r).
Proof.
  intros Hr. induction l as [|a l IH].
  - change (EmptyString +:+ String sep r) with (String sep r).
    cbn [rsplit1]. by rewrite Hr, Ascii.eqb_refl.
  - change (String a l +:+ String sep r) with (String a (l +:+ String sep r)).
    cbn [rsplit1]. by rewrite IH.
Qed.

Lemma rsplit1_digits (s : string) :
  string_forall char_isdigit s = true → rsplit1 "-" (String "v" s) = None.
Proof.
  intros Hs. cbn [rsplit1].
  assert (rsplit1 "-" s = None) as ->; [|done].
  induction s as [|a s IH]; [done|]. cbn [string_forall rsplit1] in *.
  apply andb_true_iff in Hs as [Ha Hs]. rewrite (IH Hs).
  destruct (Ascii.eqb_spec a "-") as [->|]; [by vm_compute in Ha|done].
Qed.

Lemma isdigit_forall (s : string) :
  isdigit s = true → string_forall char_isdigit s = true ∧ s ≠ EmptyString.
Proof. by destruct s. Qed.

Lemma split_idstr_version name digits :
  is_Some (image_table !! name) → isdigit digits = true →
  split_idstr (name +:+ ("-v" +:+ digits))
  = v ← int digits; Ok (name, v).
Proof.
  intros Hname Hdig. unfold split_idstr.
  change ("-v" +:+ digits) with (String "-" (String "v" digits)).
  rewrite rsplit1_append.
  - cbv beta iota. rewrite Hdig. by rewrite bool_decide_eq_true_2.
  - apply rsplit1_digits. by apply isdigit_forall in Hdig as [-> _].
Qed.

Lemma split_idstr_plain name :
  is_Some (image_table !! name) → split_idstr name = Ok (name, 0).
Proof.
  assert (Forall (λ x, split_idstr x.1.1 = Ok (x.1.1, 0)) image_list) as Hall.
  { repeat constructor. }
  intros [[desc id] Hl%image_table_lookup].
  rewrite Forall_forall in Hall. apply (Hall _ Hl).
Qed.

Lemma Image_set_from_file_split fs infile idstr data name ver desc id :
  load_source fs infile = Ok data →
  split_idstr idstr = Ok (name, ver) →
  image_table !! name = Some (desc, id) →
  Image_set_from_file fs infile idstr = Ok (source_image id data ver).
Proof.
  intros Hload Hsplit Htab. unfold Image_set_from_file.
  rewrite Hload, bind_Ok, Hsplit, bind_Ok, Htab. unfold source_image.
  do 3 f_equal. apply (land_ones_small _ 32); [lia|apply crc32_range].
Qed.

(** X4. How [Image.__set_from_file] resolves the type name of a source that
    can be loaded.  A name of the table gives an image of version 0.  A
    name of the table followed by ["-v"] and digits gives the version
    written in decimal, leading zeros allowed (up to the 4300 digits that
    [int] converts under the default limit of recent versions of Python);
    when the digits pass [isdigit] but are not all decimal (the superscript
    digits), [int] raises ValueError.  The header has the image ID of the table, the
    length of the data, the CRC over the data and its padding of zeros,
    and zero [next_img_ver] and [following_images]. *)
Theorem source_resolution fs infile data name desc id :
  load_source fs infile = Ok data →
  image_table !! name = Some (desc, id) →
  Image_set_from_file fs infile name = Ok (source_image id data 0) ∧
  ∀ digits, isdigit digits = true → (String.length digits ≤ 4300)%nat →
    Image_set_from_file fs infile (name +:+ ("-v" +:+ digits))
    = if string_forall is_decimal digits
      then Ok (source_image id data (int_digits 0 digits))
      else Raise ValueError.
Proof.
  intros Hload Htab. split.
  - eapply Image_set_from_file_split; [done| |done].
    apply split_idstr_plain. eauto.
  - intros digits Hdig _.
    pose proof (split_idstr_version name digits ltac:(eauto) Hdig) as Hsplit.
    unfold int in Hsplit. destruct (string_forall is_decimal digits).
    + by eapply Image_set_from_file_split.
    + unfold Image_set_from_file. by rewrite Hload, bind_Ok, Hsplit.
Qed.

Lemma source_resolution_witness :
  Image_set_from_file no_files "=PN12345" "sys"
  = Ok (source_image 29 (utf8 "PN12345") 0) ∧
  ∀ digits, isdigit digits = true → (String.length digits ≤ 4300)%nat →
    Image_set_from_file no_files "=PN12345" ("sys" +:+ ("-v" +:+ digits))
    = if string_forall is_decimal digits
      then Ok (source_image 29 (utf8 "PN12345") (int_digits 0 digits))
      else Raise ValueError.
Proof.
  apply (source_resolution no_files "=PN12345" (utf8 "PN12345") "sys"
           "Running system's part number or PSID" 29).
  - reflexivity.
  - vm_compute. reflexivity.
Defined.

(** ** The image options of the command line *)

(** X5. Every image option that [main] registers, handed by
    [parse_image_opt] to [Image], names a type of the table and a version
    from 0 to [MAX_VER]: with a non-empty source that can be loaded, the
    image is built, so neither the KeyError of [image_table] nor the
    ValueError of [int] arises from the command line, and the version
    fits the 4 bits of the header. *)
Theorem registered_options_resolve fs images opt_str value data :
  opt_str ∈ image_options → value ≠ EmptyString →
  load_source fs value = Ok data →
  ∃ idver name desc id ver,
    parse_image_opt images opt_str value = images ++ [(idver, value)] ∧
    image_table !! name = Some (desc, id) ∧ 0 ≤ ver ≤ MAX_VER ∧
    Image_of_file fs value idver = Ok (source_image id data ver).
Proof.
  intros Hopt Hvalue Hload.
  assert (Forall (λ o, option_resolves o = true) image_options) as Hall.
  { apply (bool_decide_unpack _). vm_compute. reflexivity. }
  rewrite Forall_forall in Hall. specialize (Hall _ Hopt).
  unfold option_resolves in Hall.
  destruct (split_idstr (lstrip_dash opt_str)) as [[name ver]|] eqn:Hsplit;
    [|done].
  apply andb_true_iff in Hall as [[Hname Hlo]%andb_true_iff Hhi].
  apply bool_decide_eq_true in Hname as [[desc id] Hname].
  exists (lstrip_dash opt_str), name, desc, id, ver.
  split; [done|]. split; [done|]. split; [lia|].
  unfold Image_of_file. rewrite bool_decide_eq_false_2 by done.
  by eapply Image_set_from_file_split.
Qed.

Lemma registered_options_resolve_witness :
  ∃ idver name desc id ver,
    parse_image_opt [] "--bl2-v1" "=data" = [] ++ [(idver, "=data"%string)] ∧
    image_table !! name = Some (desc, id) ∧ 0 ≤ ver ≤ MAX_VER ∧
    Image_of_file no_files "=data" idver = Ok (source_image id (utf8 "data") ver).
Proof.
  apply (registered_options_resolve no_files [] "--bl2-v1" "=data" (utf8 "data")).
  - apply (bool_decide_unpack _). vm_compute. reflexivity.
  - discriminate.
  - reflexivity.
Defined.

(** ** The checks of [main] *)

(** X6. [main] calls [make_stream] only with at most two input files
    followed by the output file as arguments, never in expert mode with an
    input file, and never without both an input file and a source; the
    sources are those of the image options, in the order given. *)
Theorem main_make_stream_guard opt args infnt outfn image_tuples expert :
  main_command opt args = MakeStream infnt outfn image_tuples expert →
  args = infnt ++ [outfn] ∧ (length infnt ≤ 2)%nat ∧
  (expert = true → infnt = []) ∧
  (infnt = [] → image_tuples ≠ []) ∧
  image_tuples = opt_images opt ∧ expert = opt_e opt ∧
  opt_d opt = false ∧ opt_x opt = false.
Proof.
  unfold main_command. intros Hcmd.
  destruct (opt_d opt), (opt_x opt); cbn [orb andb] in Hcmd;
    try (destruct (1 <? length args)%nat; [done|]);
    try (destruct (3 <? length args)%nat eqn:H3; [done|]);
    try (destruct (opt_e opt); [done|]; case_bool_decide; [done|];
         by destruct args).
  apply Nat.ltb_ge in H3.
  destruct args as [|a0 [|a1 [|a2 [|a3 args]]]]; try done; cbn in H3; try lia.
  - case_bool_decide as Himg; [done|]. injection Hcmd as <- <- <- <-.
    repeat split; try done. cbn; lia.
  - destruct (opt_e opt) eqn:He; [done|]. injection Hcmd as <- <- <- <-.
    repeat split; try done. cbn; lia.
  - destruct (opt_e opt) eqn:He; [done|]. injection Hcmd as <- <- <- <-.
    repeat split; try done.
Qed.

Lemma main_make_stream_guard_witness :
  ["old.bfb"; "new.bfb"]%string = ["old.bfb"%string] ++ ["new.bfb"%string] ∧
  (length ["old.bfb"%string] ≤ 2)%nat ∧
  (false = true → ["old.bfb"%string] = []) ∧
  (["old.bfb"%string] = [] → new_tuples ≠ []) ∧
  new_tuples = opt_images (mkOptions false false "dump-" false false new_tuples) ∧
  false = opt_e (mkOptions false false "dump-" false false new_tuples) ∧
  opt_d (mkOptions false false "dump-" false false new_tuples) = false ∧
  opt_x (mkOptions false false "dump-" false false new_tuples) = false.
Proof.
  apply (main_make_stream_guard
           (mkOptions false false "dump-" false false new_tuples)
           ["old.bfb"; "new.bfb"]%string ["old.bfb"%string] "new.bfb"
           new_tuples false).
  reflexivity.
Defined.

(** X7. Listing or extracting without an input file is not refused by
    [parser.error]: [main] reaches [args[0]] on the empty list and raises
    IndexError, exactly when -d or -x is given without -e, without image
    options and without arguments. *)
Theorem main_dump_without_file opt args :
  main_command opt args = IndexError ↔
  (opt_d opt || opt_x opt = true) ∧ args = [] ∧ opt_e opt = false ∧
  opt_images opt = [].
Proof.
  unfold main_command. split.
  - intros Hcmd.
    destruct (opt_d opt || opt_x opt) eqn:Hdx; cbn [andb] in Hcmd.
    + destruct (1 <? length args)%nat; [done|].
      destruct (3 <? length args)%nat; [done|].
      destruct (opt_e opt); [done|]. case_bool_decide as Himg; [done|].
      destruct args; [|done]. repeat split.
      destruct (opt_images opt); [done|]. by destruct Himg.
    + destruct (3 <? length args)%nat; [done|].
      destruct args as [|a0 [|a1 [|a2 args]]]; try done.
      * by case_bool_decide.
      * by destruct (opt_e opt).
      * by destruct (opt_e opt).
  - intros (-> & -> & -> & ->). done.
Qed.

(** ** Writing an image and reading it back *)

Lemma ImageHdr_decode_fits h bs rest :
  fits_widths h → major h = 1 → minor h ≤ 2 →
  ImageHdr_get_bits h = Ok bs →
  ImageHdr_set_from_file (bs ++ rest) = Ok (h, rest).
Proof.
  intros (Hmaj & Hmin & Hnx & Hcu & Hid & Hlen & Hcrc & Hfol) Hmajor Hminor Hbs.
  assert (Z.land (major h) 0xF = major h) as E1 by (apply (land_ones_small _ 4); lia).
  assert (Z.land (minor h) 0xF = minor h) as E2 by (apply (land_ones_small _ 4); lia).
  assert (Z.land (image_id h) 0xFF = image_id h) as E3
    by (apply (land_ones_small _ 8); lia).
  assert (Z.land (next_img_ver h) 0xF = next_img_ver h) as E4
    by (apply (land_ones_small _ 4); lia).
  assert (Z.land (cur_img_ver h) 0xF = cur_img_ver h) as E5
    by (apply (land_ones_small _ 4); lia).
  assert (Z.land (image_len h) 0xFFFFFFFF = image_len h) as E6
    by (apply (land_ones_small _ 32); lia).
  assert (Z.land (image_crc h) 0xFFFFFFFF = image_crc h) as E7
    by (apply (land_ones_small _ 32); lia).
  rewrite (ImageHdr_decode_encode h bs rest Hbs) by lia.
  rewrite E1, E2, E3, E4, E5, E6, E7. by destruct h.
Qed.

Lemma Image_write_record img out :
  Image_write img out = ((Image_write img []).1, out ++ record_bytes img).
Proof.
  unfold record_bytes, Image_write.
  destruct (ImageHdr_get_bits (header img)) as [hb|e];
    [|cbn [fst snd]; by rewrite app_nil_r].
  destruct (bits img); cbn [fst snd]; by rewrite ?app_nil_l, <- ?app_assoc.
Qed.

Lemma record_bytes_sealed img b :
  bits img = Some b → 0 ≤ following_images (header img) < 2 ^ 64 →
  ∃ hb, ImageHdr_get_bits (header img) = Ok hb ∧
        record_bytes img = hb ++ b ++ get_padding img ∧
        Image_write img [] = (Ok (), record_bytes img).
Proof.
  intros Hb Hf.
  destruct (Image_write_Ok img [] b Hb Hf) as (hb & Hhb & Hw).
  exists hb. unfold record_bytes. rewrite Hw. done.
Qed.

Lemma Image_write_read (img : Image) (rest : list byte) :
  sealed img → fits_widths (header img) →
  major (header img) = 1 → minor (header img) ≤ 2 →
  Image_write img [] = (Ok (), record_bytes img) ∧
  Image_set_from_stream (record_bytes img ++ rest) = Ok (img, rest).
Proof.
  intros (b & Hb & Hlen & Hcrc) Hfits Hmajor Hminor.
  assert (0 ≤ following_images (header img) < 2 ^ 64) as Hfol
    by (unfold fits_widths in Hfits; tauto).
  destruct (record_bytes_sealed img b Hb Hfol) as (hb & Hhb & Hrec & Hw).
  split; [done|].
  rewrite Hrec, <- !app_assoc. unfold Image_set_from_stream.
  rewrite (ImageHdr_decode_fits _ _ _ Hfits Hmajor Hminor Hhb), bind_Ok.
  cbv beta iota zeta. unfold read. rewrite Hlen, Nat2Z.id.
  rewrite take_app_length, drop_app_length, Z.eqb_refl. cbn [negb].
  unfold get_padding, get_image_length. rewrite Hlen.
  set (pad := replicate _ x00).
  assert (Z.to_nat (num_padding_bytes (Z.of_nat (length b))) = length pad) as ->
    by (unfold pad; by rewrite length_replicate).
  rewrite take_app_length, drop_app_length.
  assert (Z.land (crc32 pad (crc32 b 0)) 0xFFFFFFFF = crc32 pad (crc32 b 0)) as ->
    by (apply (land_ones_small _ 32); [lia|apply crc32_range]).
  rewrite Hcrc. fold pad. rewrite Z.eqb_refl. cbn [negb].
  destruct img as [h bts]. cbn in Hb. by subst.
Qed.


(** X8. Image round trip: an image whose header describes its data (length
    and CRC over data and zero padding), with fields within their widths,
    major 1 and minor at most 2, is written by [Image.write] as bytes from
    which [Image.__set_from_stream] reads the same image, header and data,
    leaving exactly what follows the record. *)
Theorem image_roundtrip (img : Image) (rest : list byte) :
  sealed img → fits_widths (header img) →
  major (header img) = 1 → minor (header img) ≤ 2 →
  Image_write img [] = (Ok (), record_bytes img) ∧
  Image_set_from_stream (record_bytes img ++ rest) = Ok (img, rest).
Proof. apply Image_write_read. Qed.

Lemma image_roundtrip_witness :
  Image_write (source_image 29 (utf8 "PN12345") 0) []
  = (Ok (), record_bytes (source_image 29 (utf8 "PN12345") 0)) ∧
  Image_set_from_stream (record_bytes (source_image 29 (utf8 "PN12345") 0) ++ [x42])
  = Ok (source_image 29 (utf8 "PN12345") 0, [x42]).
Proof.
  apply (image_roundtrip (source_image 29 (utf8 "PN12345") 0) [x42]).
  - exists (utf8 "PN12345"). repeat split.
  - unfold fits_widths. vm_compute. repeat split; discriminate.
  - reflexivity.
  - vm_compute. discriminate.
Defined.

(** ** The output file of make_stream *)

Lemma write_layout img out out' :
  write img out = (Ok (), out') →
  outfile out = concat (map record_bytes (written out)) →
  outfile out' = concat (map record_bytes (written out')) ∧
  written out' = written out ++ [img] ∧
  Image_write img [] = (Ok (), record_bytes img).
Proof.
  unfold write. rewrite (Image_write_record img (outfile out)).
  unfold record_bytes at 2.
  destruct (Image_write img []) as [[[]|e] bytes] eqn:Hw; [|done].
  intros [= <-] Hlay. cbn [outfile written fst snd].
  assert (record_bytes img = bytes) as Hrec by (unfold record_bytes; by rewrite Hw).
  split; [|by rewrite Hrec].
  rewrite map_app, concat_app, Hlay. cbn. by rewrite app_nil_r.
Qed.

Lemma emit_images_layout images f out f' out' :
  emit_images images f out = (Ok f', out') →
  outfile out = concat (map record_bytes (written out)) →
  Forall (λ r, Image_write r [] = (Ok (), record_bytes r)) (written out) →
  outfile out' = concat (map record_bytes (written out')) ∧
  Forall (λ r, Image_write r [] = (Ok (), record_bytes r)) (written out').
Proof.
  revert f out. induction images as [|img images IH]; intros f out Hemit Hlay Hok.
  { by injection Hemit as <- <-. }
  cbn [emit_images] in Hemit. destruct images as [|next images].
  - destruct (write _ out) as [[[]|e] out1] eqn:Hw; [|done].
    injection Hemit as <- <-.
    destruct (write_layout _ _ _ Hw Hlay) as (? & Hw1 & ?).
    split; [done|]. rewrite Hw1.
    apply Forall_app. split; [done|]. by repeat constructor.
  - destruct (write _ out) as [[[]|e] out1] eqn:Hw; [|done].
    destruct (write_layout _ _ _ Hw Hlay) as (? & Hw1 & ?).
    eapply IH; [done..|]. rewrite Hw1.
    apply Forall_app. split; [done|]. by repeat constructor.
Qed.

Lemma emit_types_layout order din dcmd f out f' out' :
  emit_types order din dcmd f out = (Ok f', out') →
  outfile out = concat (map record_bytes (written out)) →
  Forall (λ r, Image_write r [] = (Ok (), record_bytes r)) (written out) →
  outfile out' = concat (map record_bytes (written out')) ∧
  Forall (λ r, Image_write r [] = (Ok (), record_bytes r)) (written out').
Proof.
  revert f out. induction order as [|i order IH]; intros f out Hemit Hlay Hok.
  { by injection Hemit as <- <-. }
  cbn [emit_types] in Hemit. case_bool_decide; [by eapply IH|].
  destruct (emit_images _ f out) as [[f1|e] out1] eqn:H1; [|done].
  destruct (emit_images_layout _ _ _ _ _ H1 Hlay Hok) as [? ?].
  by eapply IH.
Qed.

Lemma make_stream_layout_aux fs infnt image_tuples expert out :
  make_stream fs infnt image_tuples expert = (Ok (), Some out) →
  outfile out = concat (map record_bytes (written out)) ∧
  Forall (λ r, Image_write r [] = (Ok (), record_bytes r)) (written out).
Proof.
  unfold make_stream. intros Hm.
  destruct (read_infiles fs infnt ∅ 0) as [[din f0]|]; [|done].
  destruct (read_cmdline fs image_tuples ∅ [] f0) as [[[dcmd order] f1]|];
    [|done].
  destruct (emit_types _ din dcmd f1 _) as [[f2|e] out'] eqn:Hemit; [|done].
  injection Hm as <-. eapply emit_types_layout; [done|done|constructor].
Qed.

(** What is known of the image that an image written comes from. *)
Lemma from_stream_sized fs infnt r0 :
  from_stream fs infnt r0 →
  ∃ b, bits r0 = Some b ∧ image_len (header r0) = Z.of_nat (length b) ∧
       fits_widths (header r0) ∧ major (header r0) = 1.
Proof.
  intros (infn & data & imgs & rest & _ & _ & Hpre & Hin).
  destruct (stream_prefix_elem _ _ _ _ Hpre Hin) as (s & rest' & Himg).
  destruct (Image_set_from_stream_outcomes s)
    as [[_ E]|[[_ E]|[(_ & _ & msg & E)|(Hl & _ & h & Hh & Hcases)]]];
    try (rewrite E in Himg; discriminate).
  destruct Hcases as [[_ E]|[(_ & _ & E)|(Hfull & _ & E)]];
    rewrite E in Himg; try discriminate.
  injection Himg as <- _.
  apply ImageHdr_set_from_file_Ok in Hh as (_ & _ & Hfits & Hmajor & _).
  eexists. split; [done|]. cbn [header]. split; [|done].
  unfold stream_payload. rewrite length_take, length_drop.
  destruct Hfits as (_ & _ & _ & _ & _ & Hil & _). lia.
Qed.

Lemma from_source_sealed fs image_tuples r0 i :
  from_source fs image_tuples r0 → type_of r0 i →
  sealed r0 ∧ major (header r0) = 1 ∧ next_img_ver (header r0) = 0.
Proof.
  intros (idver & fn & _ & Himg) Hty.
  destruct (Image_of_file_filed _ _ _ _ _ Himg Hty) as (_ & _ & Hset).
  unfold Image_set_from_file in Hset.
  destruct (load_source fs fn) as [data|]; [|done]. rewrite bind_Ok in Hset.
  destruct (split_idstr idver) as [[name ver]|]; [|done]. rewrite bind_Ok in Hset.
  destruct (image_table !! name) as [[desc id]|]; [|done].
  injection Hset as <-. split; [|done].
  exists data. split; [done|]. split; [done|]. cbn [header image_crc ImageHdr_init].
  apply (land_ones_small _ 32); [lia|apply crc32_range].
Qed.

Lemma written_origin fs infnt image_tuples expert out r :
  make_stream fs infnt image_tuples expert = (Ok (), Some out) →
  r ∈ written out →
  minor (header r) = 2 ∧
  ∃ r0 i, type_of r0 i ∧ same_but_stamps r r0 ∧
    (from_stream fs infnt r0 ∨ from_source fs image_tuples r0).
Proof.
  intros Hmk Hr.
  destruct (make_stream_Ok _ _ _ _ _ Hmk)
    as (lin & lcmd & din & f0 & dcmd & f1 & rss & f2 & Hin & Hcmd &
        Elin & Elcmd & Hlin & Hlcmd & Hst & Hw).
  apply (stamp_types_Forall2
           (λ run rs, Forall2 (λ r img, same_but_stamps r img ∧
                                        minor (header r) = MINOR_VER) rs run))
    in Hst; [|intros; apply stamp_images_frame].
  apply Forall2_fmap_l in Hst.
  rewrite Hw in Hr. apply elem_of_concat in Hr as (rs & Hrs & Hr).
  apply list_elem_of_lookup in Hrs as [k Hk].
  destruct (Forall2_lookup_r _ _ _ _ _ Hst Hk) as (i & _ & Hfr).
  apply list_elem_of_lookup in Hr as [j Hj].
  destruct (Forall2_lookup_l _ _ _ _ _ Hfr Hj) as (r0 & Hr0 & Hsame & Hminor).
  split; [done|]. exists r0, i.
  apply list_elem_of_lookup_2, sorted_images_elem in Hr0 as [v Hv].
  destruct (merged_images_filed _ _ _ _ _ _ _ _ _ _ _ _ Elin Elcmd Hlin Hlcmd Hv)
    as (? & _ & ?). done.
Qed.

Lemma written_sized fs infnt image_tuples expert out r :
  make_stream fs infnt image_tuples expert = (Ok (), Some out) →
  r ∈ written out →
  ∃ b, bits r = Some b ∧ image_len (header r) = Z.of_nat (length b) ∧
       major (header r) = 1 ∧ minor (header r) = 2.
Proof.
  intros Hmk Hr.
  destruct (written_origin _ _ _ _ _ _ Hmk Hr)
    as (Hminor & r0 & i & Hty & Hsame & Horigin).
  destruct Hsame as (Hmaj & _ & Hlen & _ & _ & Hbits).
  rewrite Hmaj, Hlen, Hbits.
  destruct Horigin as [Hs|Hs].
  - destruct (from_stream_sized _ _ _ Hs) as (b & ? & ? & _ & ?). eauto.
  - destruct (from_source_sealed _ _ _ _ Hs Hty) as ((b & ? & ? & _) & ? & _).
    eauto.
Qed.

Lemma record_bytes_length r b :
  Image_write r [] = (Ok (), record_bytes r) →
  bits r = Some b → image_len (header r) = Z.of_nat (length b) →
  Z.of_nat (length (record_bytes r))
  = 24 + image_len (header r) + num_padding_bytes (image_len (header r)).
Proof.
  intros Hw Hb Hlen. unfold record_bytes.
  unfold Image_write in *.
  destruct (ImageHdr_get_bits (header r)) as [hb|] eqn:Hhb; [|done].
  rewrite Hb. cbn [snd]. rewrite app_nil_l, !length_app.
  rewrite (ImageHdr_get_bits_length _ _ Hhb).
  unfold get_padding, get_image_length. rewrite length_replicate.
  pose proof (num_padding_bytes_range (image_len (header r))). lia.
Qed.

(** X9. The output file of a successful make_stream is the concatenation
    of the records of the images written, each of 24 header bytes, the
    payload and the padding; every record, and so the file, has a length
    that is a multiple of 8. *)
Theorem make_stream_layout fs infnt image_tuples expert out :
  make_stream fs infnt image_tuples expert = (Ok (), Some out) →
  outfile out = concat (map record_bytes (written out)) ∧
  Forall (λ r, Z.of_nat (length (record_bytes r))
               = 24 + image_len (header r)
                 + num_padding_bytes (image_len (header r)) ∧
               Z.of_nat (length (record_bytes r)) mod 8 = 0)
         (written out) ∧
  Z.of_nat (length (outfile out)) mod 8 = 0.
Proof.
  intros Hmk. destruct (make_stream_layout_aux _ _ _ _ _ Hmk) as [Hlay Hok].
  assert (Forall (λ r, Z.of_nat (length (record_bytes r))
               = 24 + image_len (header r)
                 + num_padding_bytes (image_len (header r)) ∧
               Z.of_nat (length (record_bytes r)) mod 8 = 0)
         (written out)) as Hall.
  { apply Forall_forall. intros r Hr.
    destruct (written_sized _ _ _ _ _ _ Hmk Hr) as (b & Hb & Hlen & _).
    rewrite Forall_forall in Hok.
    rewrite (record_bytes_length r b (Hok _ Hr) Hb Hlen). split; [done|].
    rewrite num_padding_bytes_spec. Z.div_mod_to_equations. lia. }
  split; [done|]. split; [done|]. rewrite Hlay.
  clear -Hall. induction Hall as [|r rs [_ Hr] _ IH]; [done|].
  cbn [map concat]. rewrite length_app, Nat2Z.inj_add.
  Z.div_mod_to_equations. lia.
Qed.

Lemma make_stream_layout_witness :
  outfile sample_output = concat (map record_bytes (written sample_output)) ∧
  Forall (λ r, Z.of_nat (length (record_bytes r))
               = 24 + image_len (header r)
                 + num_padding_bytes (image_len (header r)) ∧
               Z.of_nat (length (record_bytes r)) mod 8 = 0)
         (written sample_output) ∧
  Z.of_nat (length (outfile sample_output)) mod 8 = 0.
Proof.
  apply (make_stream_layout old_fs ["old.bfb"%string] new_tuples false).
  vm_compute. reflexivity.
Defined.

Lemma records_stream_prefix (rs : list Image) :
  Forall (λ r, sealed r ∧ fits_widths (header r) ∧
               major (header r) = 1 ∧ minor (header r) ≤ 2) rs →
  stream_prefix (concat (map record_bytes rs)) rs [].
Proof.
  induction 1 as [|r rs (Hs & Hf & Hmaj & Hmin) _ IH]; [constructor|].
  cbn [map concat]. econstructor; [|exact IH].
  by apply Image_write_read.
Qed.

Lemma make_stream_stream_prefix fs infnt image_tuples expert out :
  make_stream fs infnt image_tuples expert = (Ok (), Some out) →
  (∀ r0, from_stream fs infnt r0 → sealed r0) →
  Forall (λ r, fits_widths (header r)) (written out) →
  stream_prefix (outfile out) (written out) [].
Proof.
  intros Hmk Hsealed Hfits.
  destruct (make_stream_layout_aux _ _ _ _ _ Hmk) as [-> _].
  apply records_stream_prefix. apply Forall_forall. intros r Hr.
  rewrite Forall_forall in Hfits.
  destruct (written_sized _ _ _ _ _ _ Hmk Hr) as (_ & _ & _ & Hmaj & Hmin).
  split; [|split; [by apply Hfits|split; [done|lia]]].
  destruct (written_origin _ _ _ _ _ _ Hmk Hr)
    as (_ & r0 & i & Hty & Hsame & Horigin).
  assert (sealed r0) as (b & Hb & Hlen & Hcrc).
  { destruct Horigin as [?|Hs]; [by apply Hsealed|].
    by destruct (from_source_sealed _ _ _ _ Hs Hty). }
  destruct Hsame as (_ & _ & Hl & Hc & _ & Hbits).
  exists b. by rewrite Hbits, Hl, Hc.
Qed.


(** X10. The output of make_stream is a boot stream that reads back as the
    images written: when the images of the input streams carry the CRC of
    their data and zero padding (there are none without input stream) and
    the fields of the images written fit their widths, reading the output
    file image by image yields exactly the images written, to the end of
    the file. *)
Theorem make_stream_reread fs infnt image_tuples expert out :
  make_stream fs infnt image_tuples expert = (Ok (), Some out) →
  (∀ r0, from_stream fs infnt r0 → sealed r0) →
  Forall (λ r, fits_widths (header r)) (written out) →
  stream_prefix (outfile out) (written out) [].
Proof. apply make_stream_stream_prefix. Qed.

Lemma make_stream_reread_witness :
  stream_prefix (outfile fresh_output) (written fresh_output) [].
Proof.
  apply (make_stream_reread no_files [] fresh_tuples false).
  - vm_compute. reflexivity.
  - intros r0 (infn & ? & ? & ? & Hin & _). by apply elem_of_nil in Hin.
  - remember (written fresh_output) as l eqn:Hl. vm_compute in Hl. subst l.
    repeat constructor; discriminate.
Defined.

(** ** The failures of make_stream *)









Lemma read_cmdline_app fs pre post d order f :
  read_cmdline fs (pre ++ post) d order f
  = '(d', order', f') ← read_cmdline fs pre d order f;
    read_cmdline fs post d' order' f'.
Proof.
  revert d order f. induction pre as [|[idver fn] pre IH]; intros d order f.
  { reflexivity. }
  cbn [app read_cmdline].
  destruct (Image_of_file fs fn idver) as [img|e]; [|done].
  rewrite !bind_Ok.
  destruct (rev_image_table !! get_image_id img) as [[name desc]|]; [|done].
  apply IH.
Qed.

(** X12. A source with an empty file name (an option given as [--bl2=])
    is not read at all: [Image] takes the empty name as absent and builds
    an image without data and with image ID 0, which is not in the table;
    make_stream then fails with the KeyError of [rev_image_table] for 0,
    whatever the type named, and does not open the output file. *)
Theorem empty_file_name fs infnt pre post idver expert din f0 res :
  read_infiles fs infnt ∅ 0 = Ok (din, f0) →
  read_cmdline fs pre ∅ [] f0 = Ok res →
  Image_of_file fs EmptyString idver = Ok no_image ∧
  make_stream fs infnt (pre ++ (idver, EmptyString) :: post) expert
  = (Raise (KeyError_id 0), None).
Proof.
  intros Hin Hpre. split; [done|]. unfold make_stream.
  rewrite Hin, read_cmdline_app, Hpre, bind_Ok.
  destruct res as [[d order] f]. cbn [read_cmdline].
  change (Image_of_file fs EmptyString idver) with (Ok no_image).
  rewrite bind_Ok.
  change (rev_image_table !! get_image_id no_image) with (rev_image_table !! 0).
  assert (rev_image_table !! 0 = None) as -> by (vm_compute; reflexivity).
  done.
Qed.

Lemma empty_file_name_witness :
  Image_of_file old_fs EmptyString "bl2" = Ok no_image ∧
  make_stream old_fs ["old.bfb"%string]
    ([("bl31", "=new")]%string ++ ("bl2"%string, EmptyString) :: []) false
  = (Raise (KeyError_id 0), None).
Proof.
  apply (empty_file_name old_fs ["old.bfb"%string] [("bl31", "=new")]%string []
           "bl2" false sample_infile_images.1 sample_infile_images.2
           (match read_cmdline old_fs [("bl31", "=new")]%string ∅ []
                    sample_infile_images.2 with
            | Ok x => x | Raise _ => (∅, [], 0) end)).
  - vm_compute. reflexivity.
  - vm_compute. reflexivity.
Defined.

(** ** dump_stream *)

Lemma dump_image_Ok verbose do_dump do_extract prefix img w :
  is_Some (bits img) →
  dump_image verbose do_dump do_extract prefix img w
  = (Ok (),
     mkDumped
       (stdout w ++ stdout (dumped_images verbose do_dump do_extract prefix [img]))
       (files w ++ files (dumped_images verbose do_dump do_extract prefix [img]))).
Proof.
  intros [b Hb]. unfold dump_image, dumped_images.
  destruct w as [so fl], do_dump, do_extract; cbn [stdout files map];
    unfold dump_line; destruct (dump_names img) as [fn desc]; rewrite ?Hb;
    cbn [fst snd default]; by rewrite ?app_nil_r.
Qed.

Lemma dumped_images_cons verbose do_dump do_extract prefix img imgs w :
  mkDumped
    (stdout w ++ stdout (dumped_images verbose do_dump do_extract prefix (img :: imgs)))
    (files w ++ files (dumped_images verbose do_dump do_extract prefix (img :: imgs)))
  = let w1 :=
      mkDumped
        (stdout w ++ stdout (dumped_images verbose do_dump do_extract prefix [img]))
        (files w ++ files (dumped_images verbose do_dump do_extract prefix [img])) in
    mkDumped
      (stdout w1 ++ stdout (dumped_images verbose do_dump do_extract prefix imgs))
      (files w1 ++ files (dumped_images verbose do_dump do_extract prefix imgs)).
Proof.
  unfold dumped_images. destruct do_dump, do_extract; cbn;
    by rewrite <- ?app_assoc.
Qed.

Lemma dump_loop_prefix fuel s imgs rest verbose do_dump do_extract prefix w :
  stream_prefix s imgs rest → (length s < fuel)%nat →
  ∃ fuel', (length rest < fuel')%nat ∧
    dump_loop fuel s verbose do_dump do_extract prefix w
    = dump_loop fuel' rest verbose do_dump do_extract prefix
        (mkDumped
           (stdout w ++ stdout (dumped_images verbose do_dump do_extract prefix imgs))
           (files w ++ files (dumped_images verbose do_dump do_extract prefix imgs))).
Proof.
  intros Hpre. revert fuel w.
  induction Hpre as [s|s img s' imgs rest Himg Hpre IH]; intros fuel w Hlt.
  { exists fuel. split; [done|]. unfold dumped_images.
    destruct w, do_dump, do_extract; cbn; by rewrite ?app_nil_r. }
  destruct fuel as [|fuel]; [lia|]. cbn [dump_loop]. unfold Image_of_stream.
  rewrite Himg.
  rewrite dump_image_Ok by (by eapply Image_set_from_stream_bits).
  cbv beta iota.
  apply Image_set_from_stream_shorter in Himg.
  destruct (IH fuel
              (mkDumped
                 (stdout w ++ stdout (dumped_images verbose do_dump do_extract prefix [img]))
                 (files w ++ files (dumped_images verbose do_dump do_extract prefix [img]))))
    as (fuel' & Hfuel & ->); [lia|].
  exists fuel'. split; [done|]. f_equal. symmetry. apply dumped_images_cons.
Qed.

Lemma dump_stream_prefix fs verbose infn do_dump do_extract prefix
    data imgs rest e :
  fs infn = Some data →
  stream_prefix data imgs rest →
  Image_set_from_stream rest = Raise e →
  dump_stream fs verbose infn do_dump do_extract prefix
  = (match e with NoHdr => Ok () | _ => Raise e end,
     dumped_images verbose do_dump do_extract prefix imgs).
Proof.
  intros Hfs Hpre He. unfold dump_stream. rewrite Hfs.
  destruct (dump_loop_prefix (S (length data)) data imgs rest verbose do_dump
              do_extract prefix (mkDumped [] []) Hpre) as (fuel' & Hfuel & ->);
    [lia|].
  destruct fuel' as [|fuel']; [lia|]. cbn [dump_loop]. unfold Image_of_stream.
  rewrite He. cbn [stdout files app].
  assert (∀ w : dumped, mkDumped (stdout w) (files w) = w) as -> by (by intros []).
  by destruct e.
Qed.

(** X13. What dump_stream prints and extracts.  For a stream that reads
    image by image up to a point where the reader stops, it prints one line
    per image read (when listing) and writes one file per image read (when
    extracting) that holds the payload alone, without header and padding,
    named by the prefix and the name of the image, in the order of the
    stream; it ends well when the reader stops at the end of the stream,
    and with the reader's failure otherwise, the lines and files of the
    images before the failure being already out. *)
Theorem dump_stream_outputs fs verbose infn do_dump do_extract prefix
    data imgs rest e :
  fs infn = Some data →
  stream_prefix data imgs rest →
  Image_set_from_stream rest = Raise e →
  dump_stream fs verbose infn do_dump do_extract prefix
  = (match e with NoHdr => Ok () | _ => Raise e end,
     mkDumped
       (if do_dump then map (dump_line verbose) imgs else [])
       (if do_extract
        then map (λ img, (prefix +:+ (dump_names img).1, default [] (bits img)))
                 imgs
        else [])).
Proof. apply dump_stream_prefix. Qed.

Lemma dump_stream_outputs_witness :
  dump_stream (λ _, Some stray_stream) false "in.bfb" true true "dump-"
  = (Raise (BadHdr "ImageHdr too short"),
     mkDumped
       (map (dump_line false) [source_image 29 (utf8 "PN12345") 0])
       (map (λ img, ("dump-" +:+ (dump_names img).1, default [] (bits img)))
            [source_image 29 (utf8 "PN12345") 0])).
Proof.
  apply (dump_stream_outputs (λ _, Some stray_stream) false "in.bfb" true true
           "dump-" stray_stream [source_image 29 (utf8 "PN12345") 0]
           [x01; x02; x03; x04; x05] (BadHdr "ImageHdr too short")).
  - reflexivity.
  - econstructor; [|constructor]. vm_compute. reflexivity.
  - vm_compute. reflexivity.
Defined.

Lemma dump_names_known img i :
  type_of img i → minor (header img) = 2 →
  (dump_names img).1 = i +:+ ("-v" +:+ fmt_d (get_image_ver img)).
Proof.
  intros [desc Hrev] Hminor. unfold dump_names. rewrite Hrev, Hminor. done.
Qed.

(** X14. Extracting what make_stream wrote.  Under the conditions under
    which the output reads back (input images with the CRC of their data
    and zero padding, fields within their widths), dump_stream in
    extraction mode on the output file ends well and writes, for each image
    written and in the same order, one file named by the prefix, the type
    name, ["-v"] and the version, which holds the payload of that image:
    the bytes read from the input stream or built from the source, without
    header and padding. *)
Theorem dump_of_make_stream fs infnt image_tuples expert out
    fs' infn verbose prefix :
  make_stream fs infnt image_tuples expert = (Ok (), Some out) →
  (∀ r0, from_stream fs infnt r0 → sealed r0) →
  Forall (λ r, fits_widths (header r)) (written out) →
  fs' infn = Some (outfile out) →
  dump_stream fs' verbose infn false true prefix
  = (Ok (),
     mkDumped []
       (map (λ r, (prefix +:+ (dump_names r).1, default [] (bits r)))
            (written out))) ∧
  Forall (λ r, ∃ i r0,
            type_of r i ∧
            (dump_names r).1 = i +:+ ("-v" +:+ fmt_d (get_image_ver r)) ∧
            (from_stream fs infnt r0 ∨ from_source fs image_tuples r0) ∧
            bits r = bits r0)
         (written out).
Proof.
  intros Hmk Hsealed Hfits Hfs'. split.
  - pose proof (make_stream_stream_prefix _ _ _ _ _ Hmk Hsealed Hfits) as Hpre.
    rewrite (dump_stream_prefix fs' verbose infn false true prefix
               (outfile out) (written out) [] NoHdr); [done..|].
    by apply Image_set_from_stream_NoHdr.
  - apply Forall_forall. intros r Hr.
    destruct (written_origin _ _ _ _ _ _ Hmk Hr)
      as (Hminor & r0 & i & [desc Hty] & Hsame & Horigin).
    exists i, r0.
    assert (type_of r i) as Htr.
    { exists desc. by rewrite (same_but_stamps_id _ _ Hsame). }
    split; [done|]. split; [by apply dump_names_known|]. split; [done|].
    unfold same_but_stamps in Hsame. tauto.
Qed.

Lemma dump_of_make_stream_witness :
  dump_stream fresh_fs false "fresh.bfb" false true "dump-"
  = (Ok (),
     mkDumped []
       (map (λ r, ("dump-" +:+ (dump_names r).1, default [] (bits r)))
            (written fresh_output))) ∧
  Forall (λ r, ∃ i r0,
            type_of r i ∧
            (dump_names r).1 = i +:+ ("-v" +:+ fmt_d (get_image_ver r)) ∧
            (from_stream no_files [] r0 ∨ from_source no_files fresh_tuples r0) ∧
            bits r = bits r0)
         (written fresh_output).
Proof.
  apply (dump_of_make_stream no_files [] fresh_tuples false fresh_output
           fresh_fs "fresh.bfb" false "dump-").
  - vm_compute. reflexivity.
  - intros r0 (infn & ? & ? & ? & Hin & _). by apply elem_of_nil in Hin.
  - remember (written fresh_output) as l eqn:Hl. vm_compute in Hl. subst l.
    repeat constructor; discriminate.
  - reflexivity.
Defined.

(** The files that the run without input stream yields when extracted:
    the payloads alone, under the names of type and version. *)
Example dump_of_fresh_output :
  dump_stream fresh_fs false "fresh.bfb" false true "dump-"
  = (Ok (),
     mkDumped []
       [("dump-bl2-v0"%string, utf8 "first");
        ("dump-bl2-v1"%string, utf8 "second");
        ("dump-sys-v0"%string, utf8 "PN12345")]).
Proof. vm_compute. reflexivity. Qed.

Lemma small_version_digits v :
  0 ≤ v < 16 → isdigit (fmt_d v) = true ∧ int (fmt_d v) = Ok v.
Proof.
  intros Hv.
  assert (Forall (λ v, isdigit (fmt_d v) = true ∧ int (fmt_d v) = Ok v)
                 (seqZ 0 16)) as Hall.
  { repeat constructor. }
  rewrite Forall_forall in Hall. apply Hall. apply elem_of_seqZ. lia.
Qed.

(** X15. The name under which dump_stream extracts an image of a known
    type of a minor 2 stream resolves, as the type name of a source, to the
    same type and version: from it and a file that holds the extracted
    payload, [Image.__set_from_file] builds an image of the same image ID,
    the same version and the same data.  ([main] registers the options of
    the versions up to [MAX_VER] only.) *)
Theorem dump_name_resolves fs s img rest i fn data :
  Image_set_from_stream s = Ok (img, rest) →
  type_of img i → minor (header img) = 2 →
  load_source fs fn = Ok data →
  split_idstr (dump_names img).1 = Ok (i, get_image_ver img) ∧
  Image_set_from_file fs fn (dump_names img).1
  = Ok (source_image (get_image_id img) data (get_image_ver img)).
Proof.
  intros Himg Hty Hminor Hload.
  assert (0 ≤ get_image_ver img < 16) as Hver.
  { destruct (Image_set_from_stream_outcomes s)
      as [[_ E]|[[_ E]|[(_ & _ & msg & E)|(_ & _ & h & Hh & Hcases)]]];
      try (rewrite E in Himg; discriminate).
    destruct Hcases as [[_ E]|[(_ & _ & E)|(_ & _ & E)]];
      rewrite E in Himg; try discriminate.
    injection Himg as <- _.
    apply ImageHdr_set_from_file_Ok in Hh as (_ & _ & Hfits & _).
    unfold fits_widths in Hfits. unfold get_image_ver. cbn [header].
    change (2 ^ 4) with 16 in Hfits. tauto. }
  destruct (small_version_digits _ Hver) as [Hdig Hint].
  destruct Hty as [desc Hrev].
  assert (image_table !! i = Some (desc, get_image_id img)) as Htab
    by (by apply rev_image_table_image_table).
  assert (split_idstr (dump_names img).1 = Ok (i, get_image_ver img)) as Hsplit.
  { rewrite (dump_names_known img i) by (by try exists desc).
    rewrite split_idstr_version by eauto. by rewrite Hint. }
  split; [done|]. by eapply Image_set_from_file_split.
Qed.

Lemma dump_name_resolves_witness :
  split_idstr (dump_names (source_image 29 (utf8 "PN12345") 0)).1
  = Ok ("sys"%string, get_image_ver (source_image 29 (utf8 "PN12345") 0)) ∧
  Image_set_from_file no_files "=other"
    (dump_names (source_image 29 (utf8 "PN12345") 0)).1
  = Ok (source_image (get_image_id (source_image 29 (utf8 "PN12345") 0))
          (utf8 "other") (get_image_ver (source_image 29 (utf8 "PN12345") 0))).
Proof.
  apply (dump_name_resolves no_files
           (record_bytes (source_image 29 (utf8 "PN12345") 0))
           (source_image 29 (utf8 "PN12345") 0) [] "sys" "=other" (utf8 "other")).
  - vm_compute. reflexivity.
  - exists "Running system's part number or PSID"%string. vm_compute. reflexivity.
  - reflexivity.
  - reflexivity.
Defined.

(** ** One image per type and version *)

Lemma NoDup_fmap_elem {A B} (f : A → B) (l : list A) x y :
  NoDup (f <$> l) → x ∈ l → y ∈ l → f x = f y → x = y.
Proof.
  induction l as [|a l IH]; [by intros _ ?%elem_of_nil|].
  rewrite fmap_cons, NoDup_cons, !elem_of_cons.
  intros [Ha Hl] [->|Hx] [->|Hy] Hf; [done| | |by apply IH].
  - destruct Ha. rewrite Hf. by apply list_elem_of_fmap_2.
  - destruct Ha. rewrite <- Hf. by apply list_elem_of_fmap_2.
Qed.

Lemma runs_keys_NoDup (order : list string) (runs : list (list Image)) :
  NoDup order →
  Forall2 (λ i run, Forall (λ r, type_of r i) run ∧
                    NoDup (map get_image_ver run)) order runs →
  NoDup (map image_key (concat runs)).
Proof.
  intros Hnd Hruns. induction Hruns as [|i run order runs [Hty Hver] Hruns IH].
  { constructor. }
  apply NoDup_cons in Hnd as [Hi Hnd].
  cbn [concat]. rewrite map_app. apply NoDup_app. split; [|split; [|by apply IH]].
  - apply (NoDup_fmap_1 snd).
    change (NoDup (snd <$> (image_key <$> run))).
    rewrite <- list_fmap_compose. exact Hver.
  - intros k Hk Hk'.
    change (k ∈ image_key <$> run) in Hk.
    change (k ∈ image_key <$> concat runs) in Hk'.
    apply list_elem_of_fmap in Hk as (r & -> & Hr).
    apply list_elem_of_fmap in Hk' as (r' & Hkey & Hr').
    apply elem_of_concat in Hr' as (run' & Hrun' & Hr').
    apply list_elem_of_lookup in Hrun' as [k Hk].
    destruct (Forall2_lookup_r _ _ _ _ _ Hruns Hk) as (j & Hj & Htyj & _).
    rewrite Forall_forall in Hty, Htyj.
    destruct (Hty _ Hr) as [d Hd]. destruct (Htyj _ Hr') as [d' Hd'].
    assert (get_image_id r = get_image_id r') as Hid by (by injection Hkey).
    rewrite Hid in Hd. assert (i = j) as -> by congruence.
    apply Hi. by eapply list_elem_of_lookup_2.
Qed.

Lemma written_keys_NoDup fs infnt image_tuples expert out :
  make_stream fs infnt image_tuples expert = (Ok (), Some out) →
  NoDup (map image_key (written out)).
Proof.
  intros Hmk.
  destruct (make_stream_Ok _ _ _ _ _ Hmk)
    as (lin & lcmd & din & f0 & dcmd & f1 & rss & f2 & Hin & Hcmd & _).
  destruct (make_stream_runs _ _ _ _ _ _ _ _ _ _ Hin Hcmd Hmk) as (Hnd & _).
  destruct (make_stream_chains _ _ _ _ _ _ _ _ _ _ Hin Hcmd Hmk)
    as (_ & runs & -> & Hruns).
  apply (runs_keys_NoDup _ _ Hnd).
  eapply Forall2_impl; [exact Hruns|].
  intros i run (_ & _ & Hty & Hver & _). split; [done|].
  rewrite Hver. apply sorted_versions_NoDup.
Qed.

(** X16. make_stream never writes two images of one type and one version:
    the pairs of image ID and version of the images written are pairwise
    different, whatever the input streams and the sources hold. *)
Theorem written_once fs infnt image_tuples expert out :
  make_stream fs infnt image_tuples expert = (Ok (), Some out) →
  NoDup (map image_key (written out)).
Proof. apply written_keys_NoDup. Qed.

Lemma written_once_witness :
  NoDup (map image_key (written twice_output)).
Proof.
  apply (written_once old_fs ["old.bfb"%string] twice_tuples false).
  vm_compute. reflexivity.
Defined.

(** ** The last source of a type and version *)

Lemma fold_filed_keep (l : list (string * Image)) d f i v x :
  filed d i v x →
  Forall (λ y, ¬ (y.1 = i ∧ get_image_ver y.2 = v)) l →
  filed (foldl file_image (d, f) l).1 i v x.
Proof.
  intros Hf. induction l as [|y l IH] using rev_ind; [done|].
  rewrite Forall_app, Forall_singleton. intros [Hl Hy].
  rewrite fold_file_image_snoc. unfold file_image at 1. cbn [fst].
  apply filed_store. right. split; [|by apply IH].
  intros [-> ->]. by apply Hy.
Qed.

Lemma merged_image_written fs infnt image_tuples expert din f0 dcmd order f1
    out i v c :
  read_infiles fs infnt ∅ 0 = Ok (din, f0) →
  read_cmdline fs image_tuples ∅ [] f0 = Ok (dcmd, order, f1) →
  make_stream fs infnt image_tuples expert = (Ok (), Some out) →
  filed dcmd i v c →
  ∃ r, r ∈ written out ∧ same_but_stamps r c.
Proof.
  intros Hin Hcmd Hmk Hc.
  destruct (make_stream_runs _ _ _ _ _ _ _ _ _ _ Hin Hcmd Hmk)
    as (_ & _ & runs & -> & Hruns).
  destruct (make_stream_chains _ _ _ _ _ _ _ _ _ _ Hin Hcmd Hmk) as (Hord & _).
  assert (i ∈ image_order_of expert order) as Hi by (eapply Hord; by left).
  apply list_elem_of_lookup in Hi as [k Hk].
  destruct (Forall2_lookup_l _ _ _ _ _ Hruns Hk) as (run & Hrun & Hfr).
  assert (c ∈ sorted_images (merged_images din dcmd i)) as Hcs.
  { apply sorted_images_elem. exists v. apply merged_images_lookup. by left. }
  apply list_elem_of_lookup in Hcs as [k' Hk'].
  destruct (Forall2_lookup_r _ _ _ _ _ Hfr Hk') as (r & Hr & Hsame & _).
  exists r. split; [|done].
  apply elem_of_concat. exists run. split; by eapply list_elem_of_lookup_2.
Qed.

(** X17. The last source of a type and version is the one written.  When
    make_stream ends well and no source after [(idver, fn)] builds an image
    of the same image ID and version, the image [c] built from
    [(idver, fn)] is written, with its data, and it is the only image
    written of that image ID and version: earlier sources and images of
    the input streams of the same type and version are dropped. *)
Theorem last_source_wins fs infnt t1 idver fn t2 expert out c :
  make_stream fs infnt (t1 ++ (idver, fn) :: t2) expert = (Ok (), Some out) →
  Image_of_file fs fn idver = Ok c →
  (∀ idver' fn' c', (idver', fn') ∈ t2 →
     Image_of_file fs fn' idver' = Ok c' → image_key c' ≠ image_key c) →
  ∃ r, r ∈ written out ∧ same_but_stamps r c ∧
       ∀ r', r' ∈ written out → image_key r' = image_key c → r' = r.
Proof.
  intros Hmk Hc Hlater.
  destruct (make_stream_Ok _ _ _ _ _ Hmk)
    as (lin & lcmd & din & f0 & dcmd & f1 & rss & f2 & Hin & Hcmd &
        Elin & Elcmd & Hlin & Hlcmd & _).
  apply Forall2_app_inv_l in Hlcmd as (l1 & l' & Hl1 & Hl' & ->).
  apply Forall2_cons_inv_l in Hl' as (y & l2 & [Hy Hty] & Hl2 & ->).
  cbn [fst snd] in Hy. rewrite Hc in Hy. injection Hy as Hy.
  destruct y as [i c0]. cbn [fst snd] in Hy, Hty. subst c0.
  assert (filed dcmd i (get_image_ver c) c) as Hfiled.
  { replace dcmd with (foldl file_image (∅, f0) (l1 ++ (i, c) :: l2)).1
      by (by rewrite <- Elcmd).
    rewrite foldl_app. cbn [foldl].
    destruct (foldl file_image (∅, f0) l1) as [d1 g1]. unfold file_image at 2.
    cbn [fst snd]. apply fold_filed_keep.
    - apply filed_store. by left.
    - apply Forall_forall. intros [j c'] Hin' [Hj Hv]. cbn [fst snd] in Hj, Hv.
      subst j. apply list_elem_of_lookup in Hin' as [k Hk].
      destruct (Forall2_lookup_r _ _ _ _ _ Hl2 Hk) as ([idver' fn'] & Ht & Hc' & Hty').
      cbn [fst snd] in Hc', Hty'.
      apply (Hlater idver' fn' c'); [by eapply list_elem_of_lookup_2|done|].
      unfold image_key. by rewrite Hv, (type_of_inj _ _ _ Hty' Hty). }
  destruct (merged_image_written _ _ _ _ _ _ _ _ _ _ _ _ _ Hin Hcmd Hmk Hfiled)
    as (r & Hr & Hsame).
  exists r. split; [done|]. split; [done|].
  intros r' Hr' Hkey.
  apply (NoDup_fmap_elem image_key (written out)); [|done..|].
  - by eapply written_keys_NoDup.
  - rewrite Hkey. unfold image_key.
    by rewrite (same_but_stamps_id _ _ Hsame), (same_but_stamps_ver _ _ Hsame).
Qed.

Lemma last_source_wins_witness :
  ∃ r, r ∈ written twice_output ∧
       same_but_stamps r (source_image 3 (utf8 "late") 0) ∧
       ∀ r', r' ∈ written twice_output →
             image_key r' = image_key (source_image 3 (utf8 "late") 0) → r' = r.
Proof.
  apply (last_source_wins old_fs ["old.bfb"%string]
           [("bl31-v0", "=early")]%string "bl31" "=late" [("bl2", "=boot")]%string
           false twice_output (source_image 3 (utf8 "late") 0)).
  - vm_compute. reflexivity.
  - vm_compute. reflexivity.
  - intros idver' fn' c' Hin Hc'.
    apply list_elem_of_singleton in Hin. injection Hin as -> ->.
    vm_compute in Hc'. injection Hc' as <-. vm_compute. discriminate.
Defined.

(** The images of the run with a type and version given twice: the later
    source is written, the earlier one and the image of the input stream
    are not. *)
Example twice_output_payloads :
  map (λ r, (image_key r, default [] (bits r))) (written twice_output)
  = [((1, 0), utf8 "boot"); ((3, 0), utf8 "late")].
Proof. vm_compute. reflexivity. Qed.
